(** * SecureWhisper: the mesh overlay ([src/network/mesh.py])

    A shallow embedding of [MeshNetwork]: the peer registry, the
    deduplicating broadcast, the three background loops (peer maintenance,
    buffered redelivery, heartbeat), port negotiation in [start], [stop], and
    the compression helpers.  Each Python method is a computation in a small
    state-and-exception monad over the object's fields; everything the
    process does not control (the network, the clock, zstd, the codec, the
    DHT) is read from an environment record.

    Around the mesh, the application: [SecureMemory]
    ([src/security/memory.py]), [CryptoManager] ([src/security/crypto.py]),
    [TorManager] ([src/network/tor_manager.py]) and [MeshChat] with its
    window ([src/mesh_chat.py], [src/ui/chat_window.py]), each in a module
    of its own. *)

From stdpp Require Import base gmap sets list strings pretty.
From Stdlib Require Import ZArith Lia.

#[local] Open Scope Z_scope.

(** ** Data *)

Abbreviation bytes := (list Byte.byte).

#[global] Instance byte_eq_dec : EqDecision Byte.byte := Byte.byte_eq_dec.

(** [@dataclass PeerState].  [time.time()] readings are modelled as integer
    clock ticks (seconds). *)
Record PeerState := mkPeerState {
  last_seen : Z;
  failed_attempts : Z;
  is_active : bool;
}.

#[global] Instance PeerState_eq_dec : EqDecision PeerState.
Proof. solve_decision. Defined.

(** A freshly discovered peer: [PeerState(last_seen)] with the dataclass
    defaults. *)
Definition new_peer (t : Z) : PeerState :=
  {| last_seen := t; failed_attempts := 0; is_active := true |}.

Definition set_last_seen (t : Z) (s : PeerState) : PeerState :=
  {| last_seen := t; failed_attempts := failed_attempts s; is_active := is_active s |}.
Definition set_failed_attempts (n : Z) (s : PeerState) : PeerState :=
  {| last_seen := last_seen s; failed_attempts := n; is_active := is_active s |}.
Definition set_is_active (b : bool) (s : PeerState) : PeerState :=
  {| last_seen := last_seen s; failed_attempts := failed_attempts s; is_active := b |}.

(** The dict appended to [message_buffer] by [broadcast_message]:
    keys "peer", "message", "attempts", "timestamp". *)
Record BufferedMessage := mkBuffered {
  msg_peer : string;
  msg_message : bytes;
  msg_attempts : Z;
  msg_timestamp : Z;
}.

#[global] Instance BufferedMessage_eq_dec : EqDecision BufferedMessage.
Proof. solve_decision. Defined.

Definition set_attempts (n : Z) (m : BufferedMessage) : BufferedMessage :=
  {| msg_peer := msg_peer m; msg_message := msg_message m;
     msg_attempts := n; msg_timestamp := msg_timestamp m |}.

(** The fields of [MeshNetwork.__init__].  [peers] is a Python dict: an
    association list in insertion order (the loops iterate it in that
    order).  [message_buffer] holds references to the buffered dicts, which
    live in the object store of [World] below: the redelivery loop mutates
    them in place while it walks a copy of the list.  [_http_runner] records
    whether the attribute is set ([None] is [false]). *)
Record MeshNetwork := mkMesh {
  base_port : Z;
  max_retry_ports : Z;
  port : option Z;
  peers : list (string * PeerState);
  message_buffer : list nat;
  is_running : bool;
  known_messages : gset Z;
  retry_interval : Z;
  peer_timeout : Z;
  _http_runner : bool;
}.

Definition new_mesh (base max_retry : Z) : MeshNetwork :=
  {| base_port := base; max_retry_ports := max_retry; port := None;
     peers := []; message_buffer := []; is_running := false;
     known_messages := ∅; retry_interval := 30; peer_timeout := 300;
     _http_runner := false |}.

Definition set_port (p : option Z) (s : MeshNetwork) : MeshNetwork :=
  {| base_port := base_port s; max_retry_ports := max_retry_ports s; port := p;
     peers := peers s; message_buffer := message_buffer s;
     is_running := is_running s; known_messages := known_messages s;
     retry_interval := retry_interval s; peer_timeout := peer_timeout s;
     _http_runner := _http_runner s |}.
Definition set_peers (ps : list (string * PeerState)) (s : MeshNetwork) : MeshNetwork :=
  {| base_port := base_port s; max_retry_ports := max_retry_ports s; port := port s;
     peers := ps; message_buffer := message_buffer s;
     is_running := is_running s; known_messages := known_messages s;
     retry_interval := retry_interval s; peer_timeout := peer_timeout s;
     _http_runner := _http_runner s |}.
Definition set_message_buffer (b : list nat) (s : MeshNetwork) : MeshNetwork :=
  {| base_port := base_port s; max_retry_ports := max_retry_ports s; port := port s;
     peers := peers s; message_buffer := b;
     is_running := is_running s; known_messages := known_messages s;
     retry_interval := retry_interval s; peer_timeout := peer_timeout s;
     _http_runner := _http_runner s |}.
Definition set_is_running (b : bool) (s : MeshNetwork) : MeshNetwork :=
  {| base_port := base_port s; max_retry_ports := max_retry_ports s; port := port s;
     peers := peers s; message_buffer := message_buffer s;
     is_running := b; known_messages := known_messages s;
     retry_interval := retry_interval s; peer_timeout := peer_timeout s;
     _http_runner := _http_runner s |}.
Definition set_known_messages (k : gset Z) (s : MeshNetwork) : MeshNetwork :=
  {| base_port := base_port s; max_retry_ports := max_retry_ports s; port := port s;
     peers := peers s; message_buffer := message_buffer s;
     is_running := is_running s; known_messages := k;
     retry_interval := retry_interval s; peer_timeout := peer_timeout s;
     _http_runner := _http_runner s |}.
Definition set_http_runner (b : bool) (s : MeshNetwork) : MeshNetwork :=
  {| base_port := base_port s; max_retry_ports := max_retry_ports s; port := port s;
     peers := peers s; message_buffer := message_buffer s;
     is_running := is_running s; known_messages := known_messages s;
     retry_interval := retry_interval s; peer_timeout := peer_timeout s;
     _http_runner := b |}.

(** ** Exceptions, observable events, the world *)

(** The exceptions the modelled code can meet; all are subclasses of
    Python's [Exception].  [ConnectionError] stands for whatever a
    connection raises ([OSError], [asyncio.TimeoutError], ...), [RunnerError]
    and [DhtError] for whatever the aiohttp runner and the DHT server raise.
    [KeyError] is what the model answers for a reference outside the store,
    which a Python list cannot hold. *)
Inductive Exn :=
  | UnicodeEncodeError
  | UnicodeDecodeError
  | ZstdError
  | OverflowError
  | ConnectionError
  | ValueError
  | KeyError
  | RunnerError
  | DhtError
  | RuntimeError (msg : string).

Inductive result (A : Type) :=
  | Ok (a : A)
  | Raise (e : Exn).
Arguments Ok {A} a.
Arguments Raise {A} e.

(** What the process does to the outside, in order. *)
Inductive Event :=
  | EvConnect (peer : string) (ok : bool)   (* [asyncio.open_connection] *)
  | EvFrame (peer : string) (frame : bytes) (* the bytes written to the peer *)
  | EvRedeliver (ref : nat)                 (* redelivery of a buffered dict *)
  | EvSleep (ms : Z).                       (* [asyncio.sleep], in milliseconds *)

Definition contacts (p : string) (e : Event) : bool :=
  match e with
  | EvConnect q _ | EvFrame q _ => bool_decide (q = p)
  | _ => false
  end.

Definition frames_to (p : string) (tr : list Event) : list bytes :=
  omap (λ e, match e with
             | EvFrame q f => if bool_decide (q = p) then Some f else None
             | _ => None
             end) tr.

(** The object [self] together with what surrounds it: the store of
    buffered-message dicts, how many connections were attempted and how many
    times the clock was read (indices into the environment), the event
    trace, the number of background tasks created, and the port the DHT
    server listens on. *)
Record World := mkWorld {
  self : MeshNetwork;
  heap : list BufferedMessage;
  conn_no : nat;
  clock_no : nat;
  trace : list Event;
  tasks : nat;
  dht_listening : option Z;
}.

Definition new_world (s : MeshNetwork) : World :=
  {| self := s; heap := []; conn_no := 0; clock_no := 0; trace := [];
     tasks := 0; dht_listening := None |}.

Definition with_self (f : MeshNetwork → MeshNetwork) (w : World) : World :=
  {| self := f (self w); heap := heap w; conn_no := conn_no w;
     clock_no := clock_no w; trace := trace w; tasks := tasks w;
     dht_listening := dht_listening w |}.
Definition with_heap (f : list BufferedMessage → list BufferedMessage) (w : World) : World :=
  {| self := self w; heap := f (heap w); conn_no := conn_no w;
     clock_no := clock_no w; trace := trace w; tasks := tasks w;
     dht_listening := dht_listening w |}.
Definition log_event (e : Event) (w : World) : World :=
  {| self := self w; heap := heap w; conn_no := conn_no w;
     clock_no := clock_no w; trace := trace w ++ [e]; tasks := tasks w;
     dht_listening := dht_listening w |}.
Definition next_conn (w : World) : World :=
  {| self := self w; heap := heap w; conn_no := S (conn_no w);
     clock_no := clock_no w; trace := trace w; tasks := tasks w;
     dht_listening := dht_listening w |}.
Definition next_clock (w : World) : World :=
  {| self := self w; heap := heap w; conn_no := conn_no w;
     clock_no := S (clock_no w); trace := trace w; tasks := tasks w;
     dht_listening := dht_listening w |}.
Definition add_tasks (n : nat) (w : World) : World :=
  {| self := self w; heap := heap w; conn_no := conn_no w;
     clock_no := clock_no w; trace := trace w; tasks := (tasks w + n)%nat;
     dht_listening := dht_listening w |}.
Definition set_dht_listening (p : option Z) (w : World) : World :=
  {| self := self w; heap := heap w; conn_no := conn_no w;
     clock_no := clock_no w; trace := trace w; tasks := tasks w;
     dht_listening := p |}.

(** How one [async with self._peer_connection(peer)] block ends:
    [asyncio.open_connection] raises or times out; or the connection opens
    and the body runs but draining or closing the stream raises; or the
    block runs to its end. *)
Inductive Attempt :=
  | Refused
  | Broken
  | Completed.

(** The environment: every answer the outside world gives.
    - [hash]: Python's [hash] on [str] (fixed within one process);
    - [encode], [decode], [decode_replace]: [str.encode()], [bytes.decode()]
      and [bytes.decode(errors='replace')]; [None] is the Unicode error;
    - [zstd_compress], [zstd_decompress]: the zstandard one-shot calls,
      [None] when they raise;
    - [network k]: how the [k]-th [async with _peer_connection] block
      ends;
    - [time_at k]: the [k]-th reading of [time.time()];
    - [port_free], [dht_listen_ok], [bootstrap_polls]: per candidate port,
      whether the probe socket binds, whether [dht.listen] succeeds, and the
      outcomes of the bootstrap self-probes that fit before the verification
      deadline;
    - [http_setup_ok], [runner_cleanup_ok], [dht_stop_ok]: whether the aiohttp
      runner starts, whether its [cleanup()] returns, whether [dht.stop()]
      returns. *)
Record Env := mkEnv {
  hash : string → Z;
  encode : string → option bytes;
  decode : bytes → option string;
  decode_replace : bytes → string;
  zstd_compress : bytes → option bytes;
  zstd_decompress : bytes → option bytes;
  network : nat → Attempt;
  time_at : nat → Z;
  port_free : Z → bool;
  dht_listen_ok : Z → bool;
  bootstrap_polls : Z → list bool;
  http_setup_ok : bool;
  runner_cleanup_ok : bool;
  dht_stop_ok : bool;
}.

(** ** The monad: state passing with exceptions

    A raised exception keeps the world as it was when it was raised, as a
    Python exception keeps the mutations made before it. *)
Definition M (A : Type) : Type := World → result A * World.

#[global] Instance M_ret : MRet M := λ A a w, (Ok a, w).
#[global] Instance M_bind : MBind M := λ A B f c w,
  match c w with
  | (Ok a, w') => f a w'
  | (Raise e, w') => (Raise e, w')
  end.

Definition raise {A} (e : Exn) : M A := λ w, (Raise e, w).

(** [try: c  except Exception as e: h e] *)
Definition try_except {A} (c : M A) (h : Exn → M A) : M A := λ w,
  match c w with
  | (Ok a, w') => (Ok a, w')
  | (Raise e, w') => h e w'
  end.

Definition gets {A} (f : MeshNetwork → A) : M A := λ w, (Ok (f (self w)), w).
Definition modify (f : MeshNetwork → MeshNetwork) : M unit := λ w, (Ok tt, with_self f w).
Definition emit (e : Event) : M unit := λ w, (Ok tt, log_event e w).
Definition from_option {A} (e : Exn) (o : option A) : M A :=
  match o with Some a => mret a | None => raise e end.

(** The world after a computation, whatever its result. *)
Definition exec {A} (c : M A) (w : World) : World := (c w).2.

Fixpoint for_each {A} (l : list A) (body : A → M unit) : M unit :=
  match l with
  | [] => mret tt
  | x :: rest => body x ≫= λ _, for_each rest body
  end.

Section Mesh.

Context (E : Env).

(** [time.time()] *)
Definition now : M Z := λ w, (Ok (time_at E (clock_no w)), next_clock w).

(** [await asyncio.sleep(...)], the delay in milliseconds.  Sleeping only
    lets time pass; the clock readings of the environment account for it. *)
Definition sleep (ms : Z) : M unit := emit (EvSleep ms).

(** ** Wire frame and connections (lines 180-199) *)

Definition byte_of_Z (z : Z) : Byte.byte :=
  default Byte.x00 (Byte.of_N (Z.to_N (z `mod` 256))).

(** [n.to_bytes(4, 'big')]; [OverflowError] outside [0, 2^32). *)
Definition to_bytes_4_big (n : Z) : option bytes :=
  if (0 <=? n) && (n <? 2 ^ 32)
  then Some [byte_of_Z (n ≫ 24); byte_of_Z (n ≫ 16); byte_of_Z (n ≫ 8); byte_of_Z n]
  else None.

(** [_send_message] on the connection to [peer]: the 4-byte big-endian
    length, then the payload. *)
Definition _send_message (peer : string) (data : bytes) : M unit :=
  pre ← from_option OverflowError (to_bytes_4_big (Z.of_nat (length data)));
  emit (EvFrame peer (pre ++ data)).

(** [async with self._peer_connection(peer) as conn: body], closing the
    stream in its [finally].  An exception of the body passes through; so
    does one raised while the stream is drained or closed after the body
    has written. *)
Definition _peer_connection (peer : string) (body : M unit) : M unit := λ w,
  match network E (conn_no w) with
  | Refused => (Raise ConnectionError, log_event (EvConnect peer false) (next_conn w))
  | Broken =>
      match body (log_event (EvConnect peer true) (next_conn w)) with
      | (Ok _, w') => (Raise ConnectionError, w')
      | (Raise e, w') => (Raise e, w')
      end
  | Completed => body (log_event (EvConnect peer true) (next_conn w))
  end.

Definition _send_to_peer (peer : string) (data : bytes) : M unit :=
  _peer_connection peer (_send_message peer data).

(** ** Compression (lines 258-276) *)

Definition _compress_message (message : string) : M bytes :=
  try_except
    (raw ← from_option UnicodeEncodeError (encode E message);
     from_option ZstdError (zstd_compress E raw))
    (λ _, from_option UnicodeEncodeError (encode E message)).


(** ** Per-peer mutations *)

(** Lines 166-168 and, identically, 252-254:
    [state.failed_attempts += 1; if state.failed_attempts >= 3: state.is_active = False]. *)
Definition record_failure (state : PeerState) : PeerState :=
  let state1 := set_failed_attempts (failed_attempts state + 1) state in
  if 3 <=? failed_attempts state1 then set_is_active false state1 else state1.

(** Lines 249-250: [state.last_seen = time.time(); state.failed_attempts = 0]. *)
Definition record_heartbeat (t : Z) (state : PeerState) : PeerState :=
  set_failed_attempts 0 (set_last_seen t state).

(** Lines 214-217, the body of the decay loop. *)
Definition decay (state : PeerState) : PeerState :=
  let state1 :=
    if negb (is_active state) && (0 <? failed_attempts state)
    then set_failed_attempts (Z.max 0 (failed_attempts state - 1)) state
    else state in
  if failed_attempts state1 =? 0 then set_is_active true state1 else state1.

(** ** broadcast_message (lines 147-178) *)

(** One turn of [for peer, state in self.peers.items()]: the state after
    it, and whether the peer goes to [failed_peers]. *)
Definition broadcast_peer (compressed : bytes) (peer : string) (state : PeerState)
  : M (PeerState * bool) :=
  if negb (is_active state) then mret (state, false)
  else try_except
         (_ ← _peer_connection peer (_send_message peer compressed);
          mret (state, false))
         (λ _, mret (record_failure state, true)).

Fixpoint broadcast_peers (compressed : bytes) (ps : list (string * PeerState))
  : M (list (string * PeerState) * list (string * bytes)) :=
  match ps with
  | [] => mret ([], [])
  | (peer, state) :: rest =>
      '(state', failed) ← broadcast_peer compressed peer state;
      '(rest', failed_peers) ← broadcast_peers compressed rest;
      mret ((peer, state') :: rest',
            if failed : bool then (peer, compressed) :: failed_peers else failed_peers)
  end.

(** [self.message_buffer.append({...})]: a new dict in the store, its
    reference at the end of the list. *)
Definition buffer_append (m : BufferedMessage) : M unit := λ w,
  let r := length (heap w) in
  (Ok tt, with_self (λ s, set_message_buffer (message_buffer s ++ [r]) s)
            (with_heap (λ h, h ++ [m]) w)).

Definition enqueue_failed (failed : string * bytes) : M unit :=
  t ← now;
  buffer_append {| msg_peer := failed.1; msg_message := failed.2;
                   msg_attempts := 0; msg_timestamp := t |}.

Definition broadcast_message (message : string) : M unit :=
  let msg_hash := hash E message in
  known ← gets known_messages;
  if bool_decide (msg_hash ∈ known) then mret tt
  else
    _ ← modify (set_known_messages ({[msg_hash]} ∪ known));
    compressed ← _compress_message message;
    ps ← gets peers;
    '(ps', failed_peers) ← broadcast_peers compressed ps;
    _ ← modify (set_peers ps');
    for_each failed_peers enqueue_failed.

(** ** _peer_maintenance (lines 201-219): the body of the [while] loop *)

Definition fresh_enough (current_time timeout : Z) (entry : string * PeerState) : bool :=
  current_time - last_seen entry.2 <? timeout.

Definition _peer_maintenance_cycle : M unit :=
  current_time ← now;
  _ ← modify (λ s, set_peers
                     (List.filter (fresh_enough current_time (peer_timeout s)) (peers s)) s);
  modify (λ s, set_peers (prod_map id decay <$> peers s) s).

(** ** _heartbeat (lines 239-256): the body of the [while] loop *)

Definition PING : bytes := [Byte.x50; Byte.x49; Byte.x4e; Byte.x47].

Definition heartbeat_peer (peer : string) (state : PeerState) : M PeerState :=
  if negb (is_active state) then mret state
  else try_except
         (_ ← _peer_connection peer (_send_message peer PING);
          t ← now;
          mret (record_heartbeat t state))
         (λ _, mret (record_failure state)).

Fixpoint heartbeat_peers (ps : list (string * PeerState)) : M (list (string * PeerState)) :=
  match ps with
  | [] => mret []
  | (peer, state) :: rest =>
      state' ← heartbeat_peer peer state;
      rest' ← heartbeat_peers rest;
      mret ((peer, state') :: rest')
  end.

Definition _heartbeat_cycle : M unit :=
  ps ← gets peers;
  ps' ← heartbeat_peers ps;
  modify (set_peers ps').

(** ** _handle_message_buffer (lines 221-237): the body of the [while] loop *)

(** The loop variable [msg] is a reference into the store. *)
Definition deref (r : nat) : M BufferedMessage := λ w,
  match heap w !! r with
  | Some m => (Ok m, w)
  | None => (Raise KeyError, w)
  end.

Definition store (r : nat) (m : BufferedMessage) : M unit := λ w,
  (Ok tt, with_heap (λ h, <[r := m]> h) w).

(** [list.remove(x)] on a list of references: drops the first entry that
    is [x] or compares equal to it (dicts compare by content); [None] is the
    [ValueError] of an absent element. *)
Fixpoint remove_first (h : list BufferedMessage) (r : nat) (buf : list nat)
  : option (list nat) :=
  match buf with
  | [] => None
  | r' :: rest =>
      if bool_decide (r' = r ∨ h !! r' = h !! r) then Some rest
      else (r' ::.) <$> remove_first h r rest
  end.

Definition buffer_remove (r : nat) : M unit := λ w,
  match remove_first (heap w) r (message_buffer (self w)) with
  | Some b => (Ok tt, with_self (set_message_buffer b) w)
  | None => (Raise ValueError, w)
  end.

(** The body of [for msg in self.message_buffer[:]]. *)
Definition process_buffered (current_time : Z) (r : nat) : M unit :=
  msg ← deref r;
  if msg_attempts msg <? 5 then
    try_except
      (_ ← emit (EvRedeliver r);
       _ ← _send_to_peer (msg_peer msg) (msg_message msg);
       buffer_remove r)
      (λ _, let attempts := msg_attempts msg + 1 in
            _ ← store r (set_attempts attempts msg);
            sleep (1000 * 2 ^ attempts))
  else if 3600 <? current_time - msg_timestamp msg then buffer_remove r
  else mret tt.

Definition _handle_message_buffer_cycle : M unit :=
  current_time ← now;
  snapshot ← gets message_buffer;
  for_each snapshot (process_buffered current_time).

(** ** The three loops as wholes

    [while self.is_running: body; await asyncio.sleep(pause)], run for at
    most [turns] turns.  An exception that leaves the body ends the loop. *)
Fixpoint while_running (turns : nat) (body pause : M unit) : M unit :=
  match turns with
  | O => mret tt
  | S turns =>
      running ← gets is_running;
      if running : bool
      then (_ ← body; _ ← pause; while_running turns body pause)
      else mret tt
  end.

Definition _peer_maintenance (turns : nat) : M unit :=
  while_running turns _peer_maintenance_cycle (sleep 60000).

Definition _handle_message_buffer (turns : nat) : M unit :=
  while_running turns _handle_message_buffer_cycle
    (interval ← gets retry_interval; sleep (1000 * interval)).

Definition _heartbeat (turns : nat) : M unit :=
  while_running turns _heartbeat_cycle (sleep 30000).

(** ** start and stop (lines 34-145) *)

Definition runner_cleanup : M unit :=
  if runner_cleanup_ok E then mret tt else raise RunnerError.

Definition dht_listen (p : Z) : M unit :=
  if dht_listen_ok E p then (λ w, (Ok tt, set_dht_listening (Some p) w))
  else raise DhtError.

Definition dht_stop : M unit :=
  if dht_stop_ok E then (λ w, (Ok tt, set_dht_listening None w))
  else raise DhtError.

Definition create_tasks (n : nat) : M unit := λ w, (Ok tt, add_tasks n w).

Definition _start_http_server : M bool :=
  runner ← gets _http_runner;
  if runner : bool then mret true
  else
    _ ← modify (set_http_runner true);
    try_except
      (if http_setup_ok E then mret true else raise RunnerError)
      (λ _, runner ← gets _http_runner;
            _ ← (if runner : bool
                 then (_ ← runner_cleanup; modify (set_http_runner false))
                 else mret tt);
            mret false).

(** [_verify_port_active]: the bootstrap self-probe is repeated, half a
    second apart, until one succeeds or the deadline passes; the
    environment lists the outcomes of the probes made before the deadline. *)
Fixpoint poll_bootstrap (polls : list bool) : M bool :=
  match polls with
  | [] => mret false
  | ok :: rest => if ok then mret true else (_ ← sleep 500; poll_bootstrap rest)
  end.

Definition _verify_port_active (p : Z) : M bool :=
  poll_bootstrap (bootstrap_polls E p).

(** [_cleanup_port]: a throwaway bind and close; a failure is swallowed. *)
Definition _cleanup_port (p : Z) : M unit :=
  if port_free E p then mret tt else sleep 1000.

(** One turn of [for port_offset in range(self.max_retry_ports)]; [true]
    is the [return] of line 114, [false] the [continue] of line 126.  The
    DHT server object is always truthy, so line 120 always takes its
    branch. *)
Definition try_port (test_port : Z) : M bool :=
  _ ← _cleanup_port test_port;
  try_except
    (_ ← dht_listen test_port;
     _ ← modify (set_port (Some test_port));
     _ ← modify (set_is_running true);
     _ ← create_tasks 3;
     _ ← sleep 1000;
     ok ← _verify_port_active test_port;
     if ok : bool then mret true
     else raise (RuntimeError ("DHT failed to bind to port " +:+ pretty test_port)))
    (λ _, _ ← try_except dht_stop (λ _, mret tt);
          _ ← modify (set_is_running false);
          mret false).

Fixpoint start_ports (offsets : list Z) : M unit :=
  match offsets with
  | [] =>
      base ← gets base_port;
      n ← gets max_retry_ports;
      raise (RuntimeError ("Could not find available port in range "
                           +:+ pretty (base + 1) +:+ "-" +:+ pretty (base + n)))
  | port_offset :: rest =>
      base ← gets base_port;
      ok ← try_port (base + port_offset + 1);
      if ok : bool then mret tt else start_ports rest
  end.

Definition start : M unit :=
  _ ← _start_http_server;
  n ← gets max_retry_ports;
  start_ports (Z.of_nat <$> seq 0 (Z.to_nat n)).

Definition stop : M unit :=
  _ ← modify (set_is_running false);
  runner ← gets _http_runner;
  _ ← (if runner : bool
       then (_ ← runner_cleanup; modify (set_http_runner false))
       else mret tt);
  _ ← dht_stop;
  sleep 1000.

(** [MeshChat.cleanup] ([src/mesh_chat.py], lines 91-113), as far as the
    mesh is concerned: [stop()] is awaited through
    [asyncio.gather(..., return_exceptions=True)], which turns an exception
    of [stop()] into a result that is then ignored. *)
Definition cleanup : M unit := try_except stop (λ _, mret tt).

(** ** Histories

    The entry points that mutate the registry and the buffer, and their
    sequential composition.  An operation that raises ends there; the
    world it leaves is what the next operation finds. *)
Inductive Op :=
  | OpBroadcast (message : string)
  | OpMaintenance
  | OpDeliver
  | OpHeartbeat.

Definition op_action (o : Op) : M unit :=
  match o with
  | OpBroadcast message => broadcast_message message
  | OpMaintenance => _peer_maintenance_cycle
  | OpDeliver => _handle_message_buffer_cycle
  | OpHeartbeat => _heartbeat_cycle
  end.

Definition run (ops : list Op) (w : World) : World :=
  foldl (λ w o, exec (op_action o) w) w ops.

End Mesh.

(** ** Reading a world *)

(** [self.peers.get(p)]: the state stored under the key [p]. *)
Fixpoint lookup_peer (p : string) (ps : list (string * PeerState)) : option PeerState :=
  match ps with
  | [] => None
  | (q, state) :: rest => if bool_decide (q = p) then Some state else lookup_peer p rest
  end.

Definition peer_state (p : string) (w : World) : option PeerState :=
  lookup_peer p (peers (self w)).

(** The events a computation added to the trace of [w]. *)
Definition new_events (w w' : World) : list Event :=
  drop (length (trace w)) (trace w').

(** The buffered dicts, in buffer order. *)
Definition buffered (w : World) : list BufferedMessage :=
  omap (λ r, heap w !! r) (message_buffer (self w)).

(** * The vocabulary of the properties

    Predicates, outcomes and worlds that the statements below speak of. *)

(** ** Peer states *)





(** ** Worlds after a connection *)

(** The world after one connection attempt to [p], and after a frame was
    written on an opened connection. *)
Definition after_connect (p : string) (ok : bool) (w : World) : World :=
  log_event (EvConnect p ok) (next_conn w).

Definition after_frame (p : string) (f : bytes) (w : World) : World :=
  log_event (EvFrame p f) (after_connect p true w).

(** The frame that carries [d], when its length fits the prefix. *)
Definition frame_of (d : bytes) : option bytes :=
  (λ pre, pre ++ d) <$> to_bytes_4_big (Z.of_nat (length d)).

Definition PING_frame : bytes := [Byte.x00; Byte.x00; Byte.x00; Byte.x04] ++ PING.

(** [int.from_bytes(b, 'big')] *)
Definition from_bytes_big (b : bytes) : Z :=
  foldl (λ acc x, acc * 256 + Z.of_N (Byte.to_N x)) 0 b.

(** The [except] branch of line 230: one more attempt on the dict, then
    the backoff sleep. *)
Definition backoff (r : nat) (msg : BufferedMessage) (w : World) : World :=
  log_event (EvSleep (1000 * 2 ^ (msg_attempts msg + 1)))
    (with_heap (λ h, <[r := set_attempts (msg_attempts msg + 1) msg]> h) w).

(** ** Outcomes of one broadcast turn

    A skipped peer, a delivery and a send failure,
    with their effect on the peer state and on the network. *)
Inductive Failure :=
  | NoConnection   (* the connection was refused or timed out *)
  | NoFrame        (* the payload is too long for the length prefix *)
  | NoAck.         (* the frame was written, then the stream broke *)

Inductive Outcome :=
  | Skipped
  | Delivered
  | Failed (how : Failure).

Definition after_send (entry : string * PeerState) (o : Outcome) : string * PeerState :=
  (entry.1, match o with Failed _ => record_failure entry.2 | _ => entry.2 end).

Definition outcome_events (d : bytes) (entry : string * PeerState) (o : Outcome) : list Event :=
  match o with
  | Skipped => []
  | Failed NoConnection => [EvConnect entry.1 false]
  | Failed NoFrame => [EvConnect entry.1 true]
  | Delivered | Failed NoAck =>
      EvConnect entry.1 true
      :: match frame_of d with Some f => [EvFrame entry.1 f] | None => [] end
  end.

(** The peers whose send failed, in registry order. *)
Fixpoint failed_of (ps : list (string * PeerState)) (outs : list Outcome) : list string :=
  match ps, outs with
  | entry :: ps, Failed _ :: outs => entry.1 :: failed_of ps outs
  | _ :: ps, _ :: outs => failed_of ps outs
  | _, _ => []
  end.

(** Every event names an active entry of [ps]. *)
Definition about_active (ps : list (string * PeerState)) (e : Event) : Prop :=
  ∃ q s, (q, s) ∈ ps ∧ is_active s = true ∧ contacts q e = true.

(** ** The buffer *)



(** ** Start *)

Definition exhausted (s : MeshNetwork) : Exn :=
  RuntimeError ("Could not find available port in range "
                +:+ pretty (base_port s + 1) +:+ "-"
                +:+ pretty (base_port s + max_retry_ports s)).

(** What [start] leaves fixed: the configuration of the node. *)
Definition same_config (w w' : World) : Prop :=
  base_port (self w') = base_port (self w)
  ∧ max_retry_ports (self w') = max_retry_ports (self w).

Section Vocabulary.

Context (E : Env).

(** How one heartbeat turn relates a registry entry before and after: an
    inactive entry is not touched; an active one records a failure, or a
    success at a clock reading taken between the [lo]-th and the [hi]-th. *)
Definition beat (lo hi : nat) (entry entry' : string * PeerState) : Prop :=
  entry'.1 = entry.1 ∧
  if is_active entry.2
  then entry'.2 = record_failure entry.2
       ∨ ∃ k, (lo ≤ k < hi)%nat ∧ entry'.2 = record_heartbeat (time_at E k) entry.2
  else entry'.2 = entry.2.

(** The dicts appended for the peers of [failed_peers]: attempts 0, the
    clock read once per entry, starting at the [k]-th reading. *)
Definition enqueued (c : bytes) (k : nat) (names : list string) : list BufferedMessage :=
  imap (λ i p, {| msg_peer := p; msg_message := c; msg_attempts := 0;
                  msg_timestamp := time_at E (k + i) |}) names.

(** [_compress_message] does not touch the world: its result is a function
    of the message. *)
Definition compressed (message : string) : result bytes :=
  match encode E message with
  | Some raw => Ok (default raw (zstd_compress E raw))
  | None => Raise UnicodeEncodeError
  end.

(** [self.known_messages.add(hash(message))] *)
Definition remember (message : string) (s : MeshNetwork) : MeshNetwork :=
  set_known_messages ({[hash E message]} ∪ known_messages s) s.

(** A candidate port passes when [dht.listen] succeeds on it and one of
    the bootstrap self-probes made before the deadline answers. *)
Definition port_usable (p : Z) : bool :=
  dht_listen_ok E p && existsb id (bootstrap_polls E p).


End Vocabulary.



(** ** Concrete environments and worlds *)

(** A simulated outside world: a text codec on bytes, a compressor that
    puts one marker byte before its input, a network and a clock given as
    functions, every port free and every DHT call succeeding. *)
Definition sim_zstd_compress (raw : bytes) : option bytes := Some (Byte.x28 :: raw).

Definition sim_zstd_decompress (data : bytes) : option bytes :=
  match data with
  | Byte.x28 :: raw => Some raw
  | _ => None
  end.

Definition sim_hash (message : string) : Z :=
  foldl (λ acc b, acc * 257 + Z.of_N (Byte.to_N b) + 1) 0 (String.list_byte_of_string message).

Definition sim_env (net : nat → Attempt) (clock : nat → Z) : Env :=
  {| hash := sim_hash;
     encode := λ message, Some (String.list_byte_of_string message);
     decode := λ data, Some (String.string_of_list_byte data);
     decode_replace := String.string_of_list_byte;
     zstd_compress := sim_zstd_compress;
     zstd_decompress := sim_zstd_decompress;
     network := net;
     time_at := clock;
     port_free := λ _, true;
     dht_listen_ok := λ _, true;
     bootstrap_polls := λ _, [true];
     http_setup_ok := true;
     runner_cleanup_ok := true;
     dht_stop_ok := true |}.

(** Every connection is refused / completes; the clock stands at [t]. *)
Definition env_down (t : Z) : Env := sim_env (λ _, Refused) (λ _, t).
Definition env_up (t : Z) : Env := sim_env (λ _, Completed) (λ _, t).

(** Connections are refused exactly at the listed attempt numbers. *)
Definition failing_at (ks : list nat) (k : nat) : Attempt :=
  if bool_decide (k ∈ ks) then Refused else Completed.

(** The same environment with other answers from the ports, the DHT and
    the health-check runner. *)
Definition with_startup (listen : Z → bool) (polls : Z → list bool)
    (http runner_ok stop_ok : bool) (E : Env) : Env :=
  {| hash := hash E; encode := encode E; decode := decode E;
     decode_replace := decode_replace E;
     zstd_compress := zstd_compress E; zstd_decompress := zstd_decompress E;
     network := network E; time_at := time_at E;
     port_free := listen;
     dht_listen_ok := listen;
     bootstrap_polls := polls;
     http_setup_ok := http;
     runner_cleanup_ok := runner_ok;
     dht_stop_ok := stop_ok |}.

(** The first two candidates cannot be bound; elsewhere the second
    self-probe answers. *)
Definition env_two_taken : Env :=
  with_startup (λ p, bool_decide (p ∉ [12346; 12347])) (λ _, [false; true])
    true true true (env_up 0).

(** Everything works, but [dht.stop()] raises. *)
Definition env_dht_stop_fails : Env :=
  with_startup (λ _, true) (λ _, [true]) true true false (env_up 0).

(** The health-check server cannot start, [dht.listen] succeeds but no
    self-probe ever answers, and [dht.stop()] raises. *)
Definition env_no_port : Env :=
  with_startup (λ _, true) (λ _, [false; false]) false true false (env_up 0).

(** A node that knows the given peers. *)
Definition node (ps : list (string * PeerState)) : World :=
  new_world (set_peers ps (new_mesh 12345 5)).

(** A node with two buffered dicts: one given up after 5 attempts at
    time 0, one fresh from a failed broadcast at time 3900. *)
Definition two_buffered : World :=
  {| self := set_message_buffer [0%nat; 1%nat] (new_mesh 12345 5);
     heap := [ {| msg_peer := "peer-a"; msg_message := [Byte.x28; Byte.x68];
                  msg_attempts := 5; msg_timestamp := 0 |};
               {| msg_peer := "peer-b"; msg_message := [Byte.x28; Byte.x68];
                  msg_attempts := 0; msg_timestamp := 3900 |} ];
     conn_no := 0; clock_no := 0; trace := []; tasks := 3;
     dht_listening := Some 12346 |}.

(** * More of the mesh

    What the claims leave out of [src/network/mesh.py]. *)

Section Probe.

Context (E : Env).

(** [_wait_for_port_active] (lines 293-304): the body of the [while]
    loop, for at most [turns] turns; [probe port k] tells whether the [k]-th
    connection to the local port succeeds.  [None] is a loop still running
    after [turns] turns. *)
Fixpoint wait_active_turns (probe : Z → nat → bool) (port end_time : Z) (turns k : nat)
  : M (option bool) :=
  match turns with
  | O => mret None
  | S turns =>
      t ← now E;
      if t <? end_time then
        if probe port k then mret (Some true)
        else (_ ← sleep 1000; wait_active_turns probe port end_time turns (S k))
      else mret (Some false)
  end.

Definition _wait_for_port_active (probe : Z → nat → bool) (turns : nat) (port timeout : Z)
  : M (option bool) :=
  t ← now E;
  wait_active_turns probe port (t + timeout) turns 0.

End Probe.

(** ** Vocabulary *)

(** The candidate ports [start] gets to: up to and including the first
    usable one. *)
Fixpoint tried_ports (usable : Z → bool) (ports : list Z) : list Z :=
  match ports with
  | [] => []
  | p :: rest => p :: if usable p then [] else tried_ports usable rest
  end.

Definition candidate_ports (s : MeshNetwork) : list Z :=
  (λ port_offset, base_port s + port_offset + 1)
    <$> (Z.of_nat <$> seq 0 (Z.to_nat (max_retry_ports s))).

(** A heartbeat turn when the peer answers. *)
Definition refreshed (E : Env) (lo hi : nat) (entry entry' : string * PeerState) : Prop :=
  entry'.1 = entry.1 ∧
  if is_active entry.2
  then ∃ k, (lo ≤ k < hi)%nat
            ∧ entry'.2 = {| last_seen := time_at E k; failed_attempts := 0; is_active := true |}
  else entry'.2 = entry.2.

(** The frames in a trace, with their peers, in order. *)
Definition frames (tr : list Event) : list (string * bytes) :=
  omap (λ e, match e with EvFrame p f => Some (p, f) | _ => None end) tr.

(** The backoff sleeps in a trace, in order: those that are not the pause
    of a loop. *)
Definition sleeps (tr : list Event) : list Z :=
  omap (λ e, match e with EvSleep ms => Some ms | _ => None end) tr.

(** A buffered dict that will be tried: below 5 attempts, and with a
    payload that fits a frame. *)
Definition deliverable (h : list BufferedMessage) (r : nat) : Prop :=
  ∃ msg f, h !! r = Some msg ∧ msg_attempts msg < 5 ∧ frame_of (msg_message msg) = Some f.

Definition frame_for (h : list BufferedMessage) (r : nat) : option (string * bytes) :=
  msg ← h !! r; f ← frame_of (msg_message msg); Some (msg_peer msg, f).

(** [dht.listen] succeeds everywhere, but the self-probe fails on the
    first two candidates. *)
Definition env_two_unverified : Env :=
  with_startup (λ _, true) (λ p, if bool_decide (p ∈ [12346; 12347]) then [false] else [true])
    true true true (env_up 0).

(** A node with two buffered dicts still to be tried, for two peers. *)
Definition two_pending : World :=
  {| self := set_message_buffer [0%nat; 1%nat] (new_mesh 12345 5);
     heap := [ {| msg_peer := "peer-a"; msg_message := [Byte.x28; Byte.x68];
                  msg_attempts := 0; msg_timestamp := 10 |};
               {| msg_peer := "peer-b"; msg_message := [Byte.x28; Byte.x68];
                  msg_attempts := 2; msg_timestamp := 20 |} ];
     conn_no := 0; clock_no := 0; trace := []; tasks := 3;
     dht_listening := Some 12346 |}.

(** The health-check server cannot start and its clean-up raises. *)
Definition env_http_broken : Env :=
  with_startup (λ _, true) (λ _, [true]) false false true (env_up 0).

(** * The application around the mesh

    [SecureMemory], [CryptoManager], [TorManager] and [MeshChat], each over
    its own state and its own exceptions, in one state-and-exception monad
    with the state and the exception type as parameters. *)

Inductive Res (X A : Type) :=
  | Return (a : A)
  | Throw (x : X).
Arguments Return {X A} a.
Arguments Throw {X A} x.

Definition Prog (S X A : Type) : Type := S → Res X A * S.

#[global] Instance Prog_ret {S X} : MRet (Prog S X) := λ A a s, (Return a, s).
#[global] Instance Prog_bind {S X} : MBind (Prog S X) := λ A B f c s,
  match c s with
  | (Return a, s') => f a s'
  | (Throw x, s') => (Throw x, s')
  end.

Definition throw {S X A} (x : X) : Prog S X A := λ s, (Throw x, s).

(** [try: c  except: h e] with a bare [except], which catches everything. *)
Definition try_bare {S X A} (c : Prog S X A) (h : X → Prog S X A) : Prog S X A := λ s,
  match c s with
  | (Return a, s') => (Return a, s')
  | (Throw x, s') => h x s'
  end.

Definition read {S X A} (f : S → A) : Prog S X A := λ s, (Return (f s), s).
Definition update {S X} (f : S → S) : Prog S X unit := λ s, (Return tt, f s).

Fixpoint each {S X A} (l : list A) (body : A → Prog S X unit) : Prog S X unit :=
  match l with
  | [] => mret tt
  | x :: rest => body x ≫= λ _, each rest body
  end.

(** ** SecureMemory ([src/security/memory.py]) *)

Module Memory.

(** The object and the bytearrays it has handed out.  A [bytearray] is
    mutable and [protected_blocks] holds the objects themselves, so the list
    holds references into [arrays]. *)
Record SecureMemory := mkSecureMemory {
  arrays : list bytes;
  protected_blocks : list nat;
}.

(** [__init__] *)
Definition new : SecureMemory := {| arrays := []; protected_blocks := [] |}.

Definition set_protected_blocks (l : list nat) (m : SecureMemory) : SecureMemory :=
  {| arrays := arrays m; protected_blocks := l |}.
Definition set_array (r : nat) (b : bytes) (m : SecureMemory) : SecureMemory :=
  {| arrays := <[r := b]> (arrays m); protected_blocks := protected_blocks m |}.

(** [SodiumError] is whatever [nacl.bindings.sodium_memzero] raises;
    [ValueError] is [list.remove] on an absent element; [KeyError] is the
    model's answer for a reference outside the store. *)
Inductive Error :=
  | SodiumError
  | ValueError
  | KeyError.

Abbreviation P := (Prog SecureMemory Error).

(** [x is data or x == data], the test of [in] and of [list.remove];
    bytearrays compare by content. *)
Definition same (a : list bytes) (data x : nat) : Prop :=
  x = data ∨ a !! x = a !! data.

#[global] Instance same_dec a data x : Decision (same a data x).
Proof. unfold same. apply _. Defined.

(** [data in self.protected_blocks] *)
Definition contains (a : list bytes) (l : list nat) (data : nat) : bool :=
  bool_decide (Exists (same a data) l).

(** [self.protected_blocks.remove(data)] *)
Fixpoint remove (a : list bytes) (data : nat) (l : list nat) : option (list nat) :=
  match l with
  | [] => None
  | x :: rest =>
      if decide (same a data x) then Some rest else (x ::.) <$> remove a data rest
  end.

Section Memory.

(** [nacl.bindings.sodium_memzero] on the content of a buffer: what it
    leaves there, or [None] when the call raises. *)
Context (sodium_memzero : bytes → option bytes).

(** Lines 10-26.  The [mlock] attempt of lines 15-24 changes neither the
    list nor the bytearray, and whatever it raises is swallowed. *)
Definition protect_memory (data : bytes) : P nat := λ m,
  let protected := length (arrays m) in
  (Return protected,
   {| arrays := arrays m ++ [data];
      protected_blocks := protected_blocks m ++ [protected] |}).

(** Lines 28-33: off the list first, zeroed afterwards. *)
Definition secure_wipe (data : nat) : P unit :=
  a ← read arrays;
  l ← read protected_blocks;
  _ ← (if contains a l data
       then match remove a data l with
            | Some l' => update (set_protected_blocks l')
            | None => throw ValueError
            end
       else mret tt);
  match a !! data with
  | None => throw KeyError
  | Some content =>
      match sodium_memzero content with
      | Some zeroed => update (set_array data zeroed)
      | None => throw SodiumError
      end
  end.

(** Lines 35-38: over a copy of the list. *)
Definition wipe_all : P unit :=
  snapshot ← read protected_blocks;
  each snapshot secure_wipe.

End Memory.

End Memory.

(** ** CryptoManager ([src/security/crypto.py]) *)

Module Crypto.

Record CryptoManager := mkCrypto {
  signing_key : option bytes;
  verify_key : option bytes;
  keypairs : nat;               (* calls of [generate_keypair] so far *)
}.

Definition new : CryptoManager :=
  {| signing_key := None; verify_key := None; keypairs := 0 |}.

(** [ValueError] carries its message; [LibraryError] is whatever a call
    into pyspx raises. *)
Inductive Error :=
  | ValueError (msg : string)
  | LibraryError.

(** pyspx, as far as it is called: the [k]-th [generate_keypair()] gives a
    pair or raises; [sign] gives a signature or raises; [verify] returns
    some value or raises. *)
Record Pyspx := mkPyspx {
  generate_keypair : nat → option (bytes * bytes);
  sign : bytes → bytes → option bytes;
  verify : bytes → bytes → bytes → option bool;
}.

Abbreviation K := (Prog CryptoManager Error).

Section Crypto.

Context (L : Pyspx).

(** Lines 11-14: the first component of the pair becomes the signing key,
    the second the verify key. *)
Definition generate_keys : K (bytes * bytes) := λ c,
  match generate_keypair L (keypairs c) with
  | Some (first, second) =>
      (Return (first, second),
       {| signing_key := Some first; verify_key := Some second;
          keypairs := S (keypairs c) |})
  | None =>
      (Throw LibraryError,
       {| signing_key := signing_key c; verify_key := verify_key c;
          keypairs := S (keypairs c) |})
  end.

(** Lines 16-20.  [not self.signing_key] holds for [None] and for empty
    bytes. *)
Definition sign_message (message : bytes) : K bytes :=
  key ← read signing_key;
  match key with
  | Some (b :: rest) =>
      match sign L message (b :: rest) with
      | Some signature => mret signature
      | None => throw LibraryError
      end
  | _ => throw (ValueError "No signing key available")
  end.

(** Lines 22-29: the value [verify] returns is not looked at. *)
Definition verify_signature (message signature public_key : bytes) : K bool :=
  try_bare
    (match verify L message signature public_key with
     | Some _ => mret true
     | None => throw LibraryError
     end)
    (λ _, mret false).

End Crypto.

End Crypto.

(** ** TorManager ([src/network/tor_manager.py]) *)

Module Tor.

(** The fields of [TorManager.__init__].  A process is named by its rank
    among the processes this manager has spawned. *)
Record TorManager := mkTor {
  tor_process : option nat;
  onion_address : option string;
  socks_port : Z;
  control_port : Z;
  base_dir : string;
}.

Definition set_tor_process (p : option nat) (t : TorManager) : TorManager :=
  {| tor_process := p; onion_address := onion_address t; socks_port := socks_port t;
     control_port := control_port t; base_dir := base_dir t |}.
Definition set_onion_address (a : option string) (t : TorManager) : TorManager :=
  {| tor_process := tor_process t; onion_address := a; socks_port := socks_port t;
     control_port := control_port t; base_dir := base_dir t |}.

(** [FileNotFoundError] and [Exception] carry their message; [OSError]
    stands for whatever a call into the file system, a process or a socket
    raises. *)
Inductive Error :=
  | FileNotFoundError (msg : string)
  | OSError
  | Exception (msg : string).

Inductive FsOp :=
  | Makedirs (path : string)     (* [os.makedirs(path, exist_ok=True)] *)
  | Chmod700 (path : string)     (* [_secure_dir_permissions(path)] *)
  | WriteTorrc (path : string).  (* the [with open(torrc_path, "w")] block *)

Inductive Event :=
  | EvFs (op : FsOp)
  | EvPopen (argv : list string)
  | EvTerminate (proc : nat)
  | EvKill (proc : nat)
  | EvWipeTree (path : string)
  | EvSleep (seconds : Z).

(** How [await asyncio.wait_for(..., timeout=5)] on the terminated process
    ends: it returns, it raises [asyncio.TimeoutError], or it raises
    something else. *)
Inductive Wait :=
  | Exited
  | TimedOut
  | WaitFailed.

(** The manager and what surrounds it: how often the binary was looked up,
    how many processes were spawned, how many turns the wait loop has made
    (the indices of the answers of the operating system), and the trace. *)
Record World := mkWorld {
  manager : TorManager;
  lookups : nat;
  spawns : nat;
  ticks : nat;
  trace : list Event;
}.

Definition with_manager (f : TorManager → TorManager) (w : World) : World :=
  {| manager := f (manager w); lookups := lookups w; spawns := spawns w;
     ticks := ticks w; trace := trace w |}.
Definition log (e : Event) (w : World) : World :=
  {| manager := manager w; lookups := lookups w; spawns := spawns w;
     ticks := ticks w; trace := trace w ++ [e] |}.

(** The operating system, as far as [TorManager] asks it.
    - [platform_system], [join], [dirname], [expanduser], [pathsep],
      [environ]: [platform.system()], [os.path.join], [os.path.dirname],
      [os.path.expanduser], [os.pathsep], [os.environ.get];
    - [path_exists k], [access_x k]: [os.path.exists] and
      [os.access(_, os.X_OK)] during the [k]-th lookup of the binary;
    - [fs_ok]: whether a file-system operation of [start] succeeds;
    - [popen_ok k]: whether the [k]-th [subprocess.Popen] succeeds;
    - at the [k]-th turn of the wait loop: [poll k] is the result of
      [tor_process.poll()], [stderr_read k] the decoded [stderr] ([None] when
      reading or decoding raises), [hostname_exists k] and [hostname_read k]
      whether the hostname file exists and what reading it gives ([None]
      when it raises), [socks_open k] whether the SOCKS port accepts a
      connection;
    - [strip]: [str.strip()];
    - [terminate_ok], [wait], [kill_ok]: per process, whether [terminate()]
      and [kill()] return and how waiting for it ends;
    - [dir_exists], [wipe_tree_ok]: [os.path.exists(base_dir)] in [stop], and
      whether overwriting and removing the tree goes through. *)
Record OS := mkOS {
  platform_system : string;
  join : string → string → string;
  dirname : string → string;
  expanduser : string → string;
  pathsep : Ascii.ascii;
  environ : string → option string;
  path_exists : nat → string → bool;
  access_x : nat → string → bool;
  fs_ok : FsOp → bool;
  popen_ok : nat → bool;
  poll : nat → option Z;
  stderr_read : nat → option string;
  hostname_exists : nat → bool;
  hostname_read : nat → option string;
  socks_open : nat → bool;
  strip : string → string;
  terminate_ok : nat → bool;
  wait : nat → Wait;
  kill_ok : nat → bool;
  dir_exists : string → bool;
  wipe_tree_ok : string → bool;
}.

Abbreviation T := (Prog World Error).

Definition emit (e : Event) : T unit := update (log e).
Definition sleep (seconds : Z) : T unit := emit (EvSleep seconds).

(** [str.split(sep)] for a one-character separator: empty fields are kept. *)
Fixpoint split (sep : Ascii.ascii) (s : string) : list string :=
  match s with
  | EmptyString => [EmptyString]
  | String c rest =>
      if Ascii.eqb c sep then EmptyString :: split sep rest
      else match split sep rest with
           | field :: fields => String c field :: fields
           | [] => [String c EmptyString]
           end
  end.

Section Tor.

Context (os : OS).

(** [__init__] with [_get_base_dir] (lines 13-30): whether frozen or not,
    the base directory is [~/.tormesh]. *)
Definition _get_base_dir : string := join os (expanduser os "~") ".tormesh".

Definition new : TorManager :=
  {| tor_process := None; onion_address := None; socks_port := 9052;
     control_port := 9053; base_dir := _get_base_dir |}.

Definition new_world : World :=
  {| manager := new; lookups := 0; spawns := 0; ticks := 0; trace := [] |}.

(** ** _get_tor_path (lines 36-63) *)

Definition tor_names : list string :=
  if String.eqb (platform_system os) "Windows" then ["tor.exe"] else ["tor"].

Definition builtin_paths (base : string) : list string :=
  ["/usr/bin"; "/usr/local/bin"; "/opt/homebrew/bin"; join os base "bin"].

Definition search_paths (base : string) : list string :=
  builtin_paths base
  ++ match environ os "PATH" with
     | Some path => if String.eqb path EmptyString then [] else split (pathsep os) path
     | None => []
     end.

(** The paths tested, in the order of the two nested loops. *)
Definition candidates (paths : list string) : list string :=
  path ← paths; name ← tor_names; [join os path name].

Definition usable (k : nat) (tor_path : string) : bool :=
  path_exists os k tor_path && access_x os k tor_path.

Definition not_found : Error :=
  FileNotFoundError "Tor binary not found. Please ensure Tor is installed.".

Definition _get_tor_path : T string := λ w,
  let k := lookups w in
  let w' := {| manager := manager w; lookups := S k; spawns := spawns w;
               ticks := ticks w; trace := trace w |} in
  match List.find (usable k) (candidates (search_paths (base_dir (manager w)))) with
  | Some tor_path => (Return tor_path, w')
  | None => (Throw not_found, w')
  end.

(** ** _wait_for_tor (lines 130-163) *)

Definition next_tick : T nat := λ w,
  (Return (ticks w),
   {| manager := manager w; lookups := lookups w; spawns := spawns w;
      ticks := S (ticks w); trace := trace w |}).

(** Lines 138-142.  The process was opened with [stderr=PIPE], so
    [self.tor_process.stderr] is set and line 142 is not reached. *)
Definition check_alive (k : nat) : T unit :=
  proc ← read (λ w, tor_process (manager w));
  match proc, poll os k with
  | Some _, Some _ =>
      match stderr_read os k with
      | Some stderr => throw (Exception ("Tor process died: " +:+ stderr))
      | None => throw OSError
      end
  | _, _ => mret tt
  end.

(** Lines 145-159: [true] is the [return True] of line 155. *)
Definition check_hostname (k : nat) : T bool :=
  if hostname_exists os k then
    try_bare
      (text ← (match hostname_read os k with
               | Some text => mret text
               | None => throw OSError
               end);
       _ ← update (with_manager (set_onion_address (Some (strip os text))));
       try_bare (if socks_open os k then mret true else throw OSError)
                (λ _, mret false))
      (λ _, mret false)
  else mret false.

Fixpoint wait_turns (turns : nat) : T bool :=
  match turns with
  | O => mret false
  | S turns =>
      k ← next_tick;
      _ ← check_alive k;
      ready ← check_hostname k;
      if ready : bool then mret true
      else (_ ← sleep 1; wait_turns turns)
  end.

Definition _wait_for_tor : T bool := wait_turns 30.

(** ** start (lines 65-128)

    What [start] prints is left out. *)

Definition fs (op : FsOp) : T unit :=
  if fs_ok os op then emit (EvFs op) else throw OSError.

Definition popen (argv : list string) : T unit := λ w,
  let k := spawns w in
  let w1 := {| manager := manager w; lookups := lookups w; spawns := S k;
               ticks := ticks w; trace := trace w ++ [EvPopen argv] |} in
  if popen_ok os k
  then (Return tt, with_manager (set_tor_process (Some k)) w1)
  else (Throw OSError, w1).

Definition terminate (proc : nat) : T unit :=
  _ ← emit (EvTerminate proc);
  if terminate_ok os proc then mret tt else throw OSError.

Definition kill (proc : nat) : T unit :=
  _ ← emit (EvKill proc);
  if kill_ok os proc then mret tt else throw OSError.

Definition max_retries : Z := 3.
Definition retry_delay : Z := 2.

Definition start_failed : Error :=
  Exception ("Failed to start Tor after " +:+ pretty max_retries +:+ " attempts").

(** One turn of [for attempt in range(max_retries)]; [true] is the
    [return] of line 117. *)
Definition start_attempt (torrc_path : string) (attempt : Z) : T bool :=
  try_bare
    (tor_path ← _get_tor_path;
     _ ← popen [tor_path; "-f"; torrc_path];
     _wait_for_tor)
    (λ _,
       proc ← read (λ w, tor_process (manager w));
       _ ← (match proc with
            | Some p => _ ← terminate p; sleep 1
            | None => mret tt
            end);
       if attempt <? max_retries - 1
       then (_ ← sleep retry_delay; mret false)
       else throw start_failed).

Fixpoint start_attempts (torrc_path : string) (attempts : list Z) : T unit :=
  match attempts with
  | [] => mret tt
  | attempt :: rest =>
      started ← start_attempt torrc_path attempt;
      if started : bool then mret tt else start_attempts torrc_path rest
  end.

Definition prepare : T string :=
  base ← read (λ w, base_dir (manager w));
  _ ← fs (Makedirs base);
  _ ← fs (Chmod700 base);
  let data_dir := join os base "data" in
  let hidden_service_dir := join os base "hidden_service" in
  _ ← each [data_dir; hidden_service_dir]
        (λ directory, _ ← fs (Makedirs directory); fs (Chmod700 directory));
  let torrc_path := join os base "torrc" in
  _ ← fs (WriteTorrc torrc_path);
  _ ← fs (Chmod700 (dirname os torrc_path));
  mret torrc_path.

Definition start : T unit :=
  torrc_path ← prepare;
  start_attempts torrc_path (Z.of_nat <$> seq 0 (Z.to_nat max_retries)).

(** ** stop (lines 165-196) *)

Definition stop : T unit :=
  proc ← read (λ w, tor_process (manager w));
  match proc with
  | None => mret tt
  | Some p =>
      try_bare
        (_ ← terminate p;
         _ ← (match wait os p with
              | Exited => mret tt
              | TimedOut => kill p
              | WaitFailed => throw OSError
              end);
         address ← read (λ w, onion_address (manager w));
         _ ← (match address with
              | Some (String _ _) => update (with_manager (set_onion_address None))
              | _ => mret tt
              end);
         base ← read (λ w, base_dir (manager w));
         if dir_exists os base
         then try_bare
                (_ ← emit (EvWipeTree base);
                 if wipe_tree_ok os base then mret tt else throw OSError)
                (λ _, mret tt)
         else mret tt)
        (λ _, mret tt)
  end.

End Tor.

End Tor.

(** ** MeshChat ([src/mesh_chat.py]) and its window ([src/ui/chat_window.py]) *)

Module Chat.

(** What can leave a method of [MeshChat]: an exception of one of its
    components, what the window raises, an [Exception] with a message, or
    [SystemExit], which is not an [Exception] and passes every
    [except Exception]. *)
Inductive Error :=
  | TorError (e : Tor.Error)
  | MeshError (e : Exn)
  | MemoryError (e : Memory.Error)
  | TclError
  | Exception (msg : string)
  | SystemExit (code : Z).

(** The components [MeshChat.__init__] creates, and what [start] itself
    does to the outside: its sleeps, and how many times it has probed the
    health-check port. *)
Record App := mkApp {
  tor : Tor.World;
  mesh : World;
  memory : Memory.SecureMemory;
  naps : list Z;
  probes : nat;
}.

Definition with_tor (f : Tor.World → Tor.World) (a : App) : App :=
  {| tor := f (tor a); mesh := mesh a; memory := memory a; naps := naps a;
     probes := probes a |}.
Definition with_mesh (f : World → World) (a : App) : App :=
  {| tor := tor a; mesh := f (mesh a); memory := memory a; naps := naps a;
     probes := probes a |}.
Definition with_memory (f : Memory.SecureMemory → Memory.SecureMemory) (a : App) : App :=
  {| tor := tor a; mesh := mesh a; memory := f (memory a); naps := naps a;
     probes := probes a |}.

Abbreviation C := (Prog App Error).

(** A method of a component, run on that component. *)
Definition on_tor {A} (c : Tor.T A) : C A := λ a,
  match c (tor a) with
  | (Return x, t) => (Return x, with_tor (λ _, t) a)
  | (Throw e, t) => (Throw (TorError e), with_tor (λ _, t) a)
  end.

Definition on_mesh {A} (c : M A) : C A := λ a,
  match c (mesh a) with
  | (Ok x, w) => (Return x, with_mesh (λ _, w) a)
  | (Raise e, w) => (Throw (MeshError e), with_mesh (λ _, w) a)
  end.

Definition on_memory {A} (c : Memory.P A) : C A := λ a,
  match c (memory a) with
  | (Return x, m) => (Return x, with_memory (λ _, m) a)
  | (Throw e, m) => (Throw (MemoryError e), with_memory (λ _, m) a)
  end.

Definition sleep (seconds : Z) : C unit := λ a,
  (Return tt, {| tor := tor a; mesh := mesh a; memory := memory a;
                 naps := naps a ++ [seconds]; probes := probes a |}).

Definition is_Exception (e : Error) : bool :=
  match e with SystemExit _ => false | _ => true end.

(** [try: c  except Exception as e: h e] *)
Definition try_Exception {A} (c : C A) (h : Error → C A) : C A := λ a,
  match c a with
  | (Return x, a') => (Return x, a')
  | (Throw e, a') => if is_Exception e then h e a' else (Throw e, a')
  end.

(** One thing that happens while the window is open: the Send button with
    the text of the entry, the Clear Chat button with the answer to its
    question and the encoded text of the chat area, or a turn of one of the
    mesh's background loops. *)
Inductive Action :=
  | Send (msg : string)
  | ClearChat (confirmed : bool) (content : bytes)
  | Background (o : Op).

(** The environment of the application: those of its components, and
    - [health_port_open k]: whether the [k]-th probe of [_verify_network]
      connects to port 12345;
    - [str]: [str(e)] of a caught exception;
    - [display]: whether [tk.Tk()] can open a window;
    - [session]: what happens while the window is open, in order. *)
Record Surroundings := mkSurroundings {
  os : Tor.OS;
  net : Env;
  sodium_memzero : bytes → option bytes;
  health_port_open : nat → bool;
  str : Error → string;
  display : bool;
  session : list Action;
}.

Section Chat.

Context (E : Surroundings).

(** [MeshChat.__init__] (lines 14-26) *)
Definition new : App :=
  {| tor := Tor.new_world (os E); mesh := new_world (new_mesh 12345 5);
     memory := Memory.new; naps := []; probes := 0 |}.

(** [_verify_network] (lines 28-39) *)
Definition _verify_network : C bool := λ a,
  (Return (health_port_open E (probes a)),
   {| tor := tor a; mesh := mesh a; memory := memory a; naps := naps a;
      probes := S (probes a) |}).

(** ** The window

    [ChatWindow._send_message] (lines 103-108): the broadcast is handed to a
    task, so what it raises reaches nobody. *)
Definition _send_message (msg : string) : C unit :=
  if String.eqb msg EmptyString then mret tt
  else try_bare (on_mesh (broadcast_message (net E) msg)) (λ _, mret tt).

(** [ChatWindow._clear_chat] (lines 110-120).  It runs as a Tk callback:
    what it raises is reported by Tk and goes no further. *)
Definition _clear_chat (confirmed : bool) (content : bytes) : C unit :=
  if confirmed
  then try_bare
         (protected ← on_memory (Memory.protect_memory content);
          on_memory (Memory.secure_wipe (sodium_memzero E) protected))
         (λ _, mret tt)
  else mret tt.

Definition act (action : Action) : C unit :=
  match action with
  | Send msg => _send_message msg
  | ClearChat confirmed content => _clear_chat confirmed content
  | Background o => try_bare (on_mesh (op_action (net E) o)) (λ _, mret tt)
  end.

(** [ChatWindow.run] (lines 25-101): [tk.Tk()] raises without a display;
    otherwise the loop serves the window until it is closed, and returns. *)
Definition window_run : C unit :=
  if display E then each (session E) act else throw TclError.

(** ** cleanup (lines 91-113)

    The two [stop()] coroutines are created first and awaited last, through
    [asyncio.gather(..., return_exceptions=True)]; in between,
    [wipe_all()] runs, and what it raises leaves [cleanup] at once.  The two
    coroutines work on different objects, so running one after the other
    gives the states that running them interleaved gives. *)
Definition cleanup : C unit :=
  _ ← on_memory (Memory.wipe_all (sodium_memzero E));
  _ ← try_bare (on_tor (Tor.stop (os E))) (λ _, mret tt);
  try_bare (on_mesh (stop (net E))) (λ _, mret tt).

(** ** start (lines 41-89) *)

Definition max_retries : Z := 3.
Definition retry_delay : Z := 2.

(** One turn of [for attempt in range(max_retries)]; [true] is the
    [break] of line 62. *)
Definition start_mesh_attempt (attempt : Z) : C bool :=
  try_Exception
    (_ ← on_mesh (start (net E));
     verified ← _verify_network;
     if verified : bool then mret true
     else throw (Exception "Network verification failed"))
    (λ last_error,
       if attempt <? max_retries - 1
       then (_ ← sleep retry_delay; mret false)
       else throw (Exception ("Failed to start mesh network after "
                              +:+ pretty max_retries +:+ " attempts: "
                              +:+ str E last_error))).

Fixpoint start_mesh (attempts : list Z) : C unit :=
  match attempts with
  | [] => mret tt
  | attempt :: rest =>
      started ← start_mesh_attempt attempt;
      if started : bool then mret tt else start_mesh rest
  end.

Definition start : C unit :=
  try_Exception
    (_ ← on_tor (Tor.start (os E));
     _ ← start_mesh (Z.of_nat <$> seq 0 (Z.to_nat max_retries));
     window_run)
    (λ _, _ ← cleanup; throw (SystemExit 1)).

End Chat.

End Chat.

(** ** The vocabulary of the application's properties *)

(** The contract of libsodium's [sodium_memzero]: every byte becomes 0. *)
Definition zeroes (memzero : bytes → option bytes) : Prop :=
  ∀ b, memzero b = Some (replicate (length b) Byte.x00).

Definition sim_memzero (b : bytes) : option bytes := Some (replicate (length b) Byte.x00).

(** The hostname file is there and readable and the SOCKS port answers. *)
Definition tor_ready (os : Tor.OS) (k : nat) : bool :=
  Tor.hostname_exists os k && bool_decide (is_Some (Tor.hostname_read os k))
  && Tor.socks_open os k.

Definition tor_sleeps (tr : list Tor.Event) : list Z :=
  omap (λ e, match e with Tor.EvSleep s => Some s | _ => None end) tr.

Definition tor_terminated (tr : list Tor.Event) : list nat :=
  omap (λ e, match e with Tor.EvTerminate p => Some p | _ => None end) tr.

Definition tor_spawned (tr : list Tor.Event) : list (list string) :=
  omap (λ e, match e with Tor.EvPopen argv => Some argv | _ => None end) tr.

(** What [_wait_for_tor] raises when the process has exited. *)
Definition tor_died (os : Tor.OS) (k : nat) : Tor.Error :=
  match Tor.stderr_read os k with
  | Some stderr => Tor.Exception ("Tor process died: " +:+ stderr)
  | None => Tor.OSError
  end.

(** The parts of the world that the wait loop leaves alone. *)
Definition same_process (w w' : Tor.World) : Prop :=
  Tor.tor_process (Tor.manager w') = Tor.tor_process (Tor.manager w)
  ∧ Tor.base_dir (Tor.manager w') = Tor.base_dir (Tor.manager w)
  ∧ Tor.lookups w' = Tor.lookups w ∧ Tor.spawns w' = Tor.spawns w.

Definition prepared (os : Tor.OS) (base : string) : list Tor.Event :=
  Tor.EvFs <$> [Tor.Makedirs base; Tor.Chmod700 base;
                Tor.Makedirs (Tor.join os base "data");
                Tor.Chmod700 (Tor.join os base "data");
                Tor.Makedirs (Tor.join os base "hidden_service");
                Tor.Chmod700 (Tor.join os base "hidden_service");
                Tor.WriteTorrc (Tor.join os base "torrc");
                Tor.Chmod700 (Tor.dirname os (Tor.join os base "torrc"))].

(** Whether [stop] got the process to end: [terminate()] returned, and
    then the wait returned or timed out with [kill()] returning. *)
Definition stopped_cleanly (os : Tor.OS) (p : nat) : bool :=
  Tor.terminate_ok os p
  && match Tor.wait os p with
     | Tor.Exited => true
     | Tor.TimedOut => Tor.kill_ok os p
     | Tor.WaitFailed => false
     end.

(** What the window and the mesh retries do not touch. *)
Definition chat_quiet (a a' : Chat.App) : Prop :=
  Chat.tor a' = Chat.tor a
  ∧ Memory.arrays (Chat.memory a) `prefix_of` Memory.arrays (Chat.memory a').

(** ** Simulated surroundings *)

Fixpoint drop_blanks (s : list Ascii.ascii) : list Ascii.ascii :=
  match s with
  | c :: rest => if Ascii.eqb c Ascii.Space then drop_blanks rest else s
  | [] => []
  end.

(** A simulated operating system: Linux with the listed files present and
    executable, [PATH] naming [/opt/tor/bin] and [/usr/bin]; every
    file-system and process call succeeds and a process never exits by
    itself; the hostname file is there, and the SOCKS port open, from the
    turn [ready_from] of the wait loop on. *)
Definition sim_os (installed : list string) (ready_from : nat) : Tor.OS :=
  {| Tor.platform_system := "Linux";
     Tor.join := λ a b, a +:+ "/" +:+ b;
     Tor.dirname := λ _, "/home/user/.tormesh";
     Tor.expanduser := λ _, "/home/user";
     Tor.pathsep := Ascii.ascii_of_nat 58;
     Tor.environ := λ name, if String.eqb name "PATH" then Some "/opt/tor/bin:/usr/bin"
                            else None;
     Tor.path_exists := λ _ p, bool_decide (p ∈ installed);
     Tor.access_x := λ _ _, true;
     Tor.fs_ok := λ _, true;
     Tor.popen_ok := λ _, true;
     Tor.poll := λ _, None;
     Tor.stderr_read := λ _, None;
     Tor.hostname_exists := λ k, bool_decide (ready_from ≤ k)%nat;
     Tor.hostname_read := λ _, Some " mesh0123.onion ";
     Tor.socks_open := λ _, true;
     Tor.strip := λ s, String.string_of_list_ascii
                         (reverse (drop_blanks (reverse (drop_blanks (String.list_ascii_of_string s)))));
     Tor.terminate_ok := λ _, true;
     Tor.wait := λ _, Tor.Exited;
     Tor.kill_ok := λ _, true;
     Tor.dir_exists := λ _, true;
     Tor.wipe_tree_ok := λ _, true |}.

(** The application around a simulated system: the given mesh
    environment, a health-check port that answers or not, a display, and the
    given session. *)
Definition sim_chat (os : Tor.OS) (N : Env) (health : bool) (session : list Chat.Action)
  : Chat.Surroundings :=
  {| Chat.os := os; Chat.net := N; Chat.sodium_memzero := sim_memzero;
     Chat.health_port_open := λ _, health;
     Chat.str := λ _, "error";
     Chat.display := true;
     Chat.session := session |}.

(** * Lemmas: the methods as equations

    One turn of each loop, written out by cases of what the environment
    answers. *)

Section Connections.

Context (E : Env).

Lemma heartbeat_peer_eq p s w :
  heartbeat_peer E p s w =
  if is_active s then
    match network E (conn_no w) with
    | Refused => (Ok (record_failure s), after_connect p false w)
    | Broken => (Ok (record_failure s), after_frame p PING_frame w)
    | Completed =>
        let w1 := after_frame p PING_frame w in
        (Ok (record_heartbeat (time_at E (clock_no w1)) s), next_clock w1)
    end
  else (Ok s, w).
Proof.
  unfold heartbeat_peer. destruct (is_active s); [|done]. cbn [negb].
  unfold try_except, mbind, M_bind, _peer_connection.
  by destruct (network E (conn_no w)).
Qed.

Lemma broadcast_peer_eq c p s w :
  broadcast_peer E c p s w =
  if is_active s then
    match network E (conn_no w), frame_of c with
    | Refused, _ => (Ok (record_failure s, true), after_connect p false w)
    | _, None => (Ok (record_failure s, true), after_connect p true w)
    | Broken, Some f => (Ok (record_failure s, true), after_frame p f w)
    | Completed, Some f => (Ok (s, false), after_frame p f w)
    end
  else (Ok (s, false), w).
Proof.
  unfold broadcast_peer. destruct (is_active s); [|done]. cbn [negb].
  unfold try_except, mbind, M_bind, _peer_connection, frame_of, _send_message.
  destruct (network E (conn_no w)); [done|..];
    unfold from_option; by destruct (to_bytes_4_big _).
Qed.

End Connections.

(** ** Peer states *)

Lemma record_failure_attempts s :
  failed_attempts (record_failure s) = failed_attempts s + 1.
Proof. unfold record_failure. cbn. by destruct (3 <=? _). Qed.

Lemma record_failure_last_seen s : last_seen (record_failure s) = last_seen s.
Proof. unfold record_failure. cbn. by destruct (3 <=? _). Qed.

Lemma record_failure_active s :
  is_active (record_failure s) = is_active s && (failed_attempts s + 1 <? 3).
Proof.
  unfold record_failure. cbn.
  destruct (Z.leb_spec 3 (failed_attempts s + 1)), (Z.ltb_spec (failed_attempts s + 1) 3);
    cbn; try lia; by rewrite ?andb_false_r, ?andb_true_r.
Qed.



Lemma decay_inactive s :
  is_active s = false → 0 < failed_attempts s →
  decay s = (if failed_attempts s =? 1 then set_is_active true else id)
              (set_failed_attempts (failed_attempts s - 1) s).
Proof.
  intros Ha Hn. unfold decay. rewrite Ha. cbn [negb andb].
  destruct (Z.ltb_spec 0 (failed_attempts s)); [|lia]. cbn.
  replace (Z.max 0 (failed_attempts s - 1)) with (failed_attempts s - 1) by lia.
  destruct (Z.eqb_spec (failed_attempts s - 1) 0), (Z.eqb_spec (failed_attempts s) 1);
    try lia; done.
Qed.



Section Loops.

Context (E : Env).

Lemma beat_widen lo hi lo' hi' e e' :
  (lo' ≤ lo)%nat → (hi ≤ hi')%nat → beat E lo hi e e' → beat E lo' hi' e e'.
Proof.
  intros ?? [? H]. split; [done|]. destruct (is_active e.2); [|done].
  destruct H as [?|(k & ? & ?)]; [by left|right]. exists k. split; [lia|done].
Qed.

Lemma about_active_cons entry ps e : about_active ps e → about_active (entry :: ps) e.
Proof. intros (q & s & ? & ? & ?). exists q, s. by rewrite elem_of_cons; auto. Qed.

Lemma heartbeat_peers_spec ps w :
  ∃ ps' w' evs, heartbeat_peers E ps w = (Ok ps', w')
    ∧ self w' = self w ∧ heap w' = heap w
    ∧ (clock_no w ≤ clock_no w')%nat
    ∧ trace w' = trace w ++ evs ∧ Forall (about_active ps) evs
    ∧ Forall2 (beat E (clock_no w) (clock_no w')) ps ps'.
Proof.
  revert w. induction ps as [|[p s] ps IH]; intros w.
  - exists [], w, []. by rewrite app_nil_r.
  - cbn [heartbeat_peers]. unfold mbind, M_bind at 1. rewrite heartbeat_peer_eq.
    assert (Hp : ∀ b, about_active ((p, s) :: ps) (EvConnect p b) ∨ is_active s = false).
    { intros b. destruct (is_active s) eqn:Ha; [left|by right].
      exists p, s. rewrite elem_of_cons. cbn. by rewrite bool_decide_eq_true_2; auto. }
    assert (Hf : ∀ f, about_active ((p, s) :: ps) (EvFrame p f) ∨ is_active s = false).
    { intros f. destruct (is_active s) eqn:Ha; [left|by right].
      exists p, s. rewrite elem_of_cons. cbn. by rewrite bool_decide_eq_true_2; auto. }
    destruct (is_active s) eqn:Ha; [destruct (network E (conn_no w))|].
    all: cbv zeta; unfold mbind, M_bind at 1.
    all: match goal with |- context [heartbeat_peers E _ ?w1] =>
           destruct (IH w1) as (ps' & w' & evs & -> & Hself & Hheap & Hclk & Htr & Hev & Hrel)
         end.
    all: cbn in Hself, Hheap, Hclk, Htr.
    all: eapply Forall_impl in Hev; [|apply (about_active_cons (p, s))].
    + eexists _, w', (_ :: evs). split; [reflexivity|].
      split_and!; try done; try lia.
      * rewrite Htr, <- !app_assoc. reflexivity.
      * constructor; [|done]. by destruct (Hp false).
      * constructor; [|done]. split; [done|]. cbn. rewrite Ha. by left.
    + eexists _, w', (_ :: _ :: evs). split; [reflexivity|].
      split_and!; try done; try lia.
      * rewrite Htr, <- !app_assoc. reflexivity.
      * constructor; [by destruct (Hp true)|]. constructor; [|done].
        by destruct (Hf PING_frame).
      * constructor; [|done]. split; [done|]. cbn. rewrite Ha. by left.
    + eexists _, w', (_ :: _ :: evs). split; [reflexivity|].
      split_and!; try done; try lia.
      * rewrite Htr, <- !app_assoc. reflexivity.
      * constructor; [by destruct (Hp true)|]. constructor; [|done].
        by destruct (Hf PING_frame).
      * constructor.
        -- split; [done|]. cbn. rewrite Ha. right. exists (clock_no w).
           split; [cbn in Hclk; lia|done].
        -- eapply Forall2_impl; [done|]. intros ??. apply beat_widen; cbn; lia.
    + eexists _, w', evs. split; [reflexivity|]. split_and!; try done.
      constructor; [|done]. split; [done|]. cbn. by rewrite Ha.
Qed.

(** *** The broadcast loop *)

Lemma broadcast_peers_spec c ps w :
  ∃ outs ps' failed w',
    broadcast_peers E c ps w = (Ok (ps', failed), w')
    ∧ self w' = self w ∧ heap w' = heap w ∧ clock_no w' = clock_no w
    ∧ Forall2 (λ entry o, o = Skipped ↔ is_active entry.2 = false) ps outs
    ∧ ps' = zip_with after_send ps outs
    ∧ failed = (λ p, (p, c)) <$> failed_of ps outs
    ∧ trace w' = trace w ++ concat (zip_with (outcome_events c) ps outs).
Proof.
  revert w. induction ps as [|[p s] ps IH]; intros w.
  - exists [], [], [], w. by rewrite app_nil_r.
  - cbn [broadcast_peers]. unfold mbind, M_bind at 1. rewrite broadcast_peer_eq.
    pose (o := if is_active s then
                 match network E (conn_no w), frame_of c with
                 | Refused, _ => Failed NoConnection
                 | _, None => Failed NoFrame
                 | Broken, Some _ => Failed NoAck
                 | Completed, Some _ => Delivered
                 end
               else Skipped).
    assert (Ho : o = Skipped ↔ is_active s = false).
    { subst o. destruct (is_active s); [|done].
      by destruct (network E (conn_no w)), (frame_of c). }
    assert (∃ w1, (if is_active s then
                     match network E (conn_no w), frame_of c with
                     | Refused, _ => (Ok (record_failure s, true), after_connect p false w)
                     | _, None => (Ok (record_failure s, true), after_connect p true w)
                     | Broken, Some f => (Ok (record_failure s, true), after_frame p f w)
                     | Completed, Some f => (Ok (s, false), after_frame p f w)
                     end
                   else (Ok (s, false), w))
                  = (Ok ((after_send (p, s) o).2,
                         match o with Failed _ => true | _ => false end), w1)
                  ∧ self w1 = self w ∧ heap w1 = heap w ∧ clock_no w1 = clock_no w
                  ∧ trace w1 = trace w ++ outcome_events c (p, s) o)
      as (w1 & -> & Hself1 & Hheap1 & Hclk1 & Htr1).
    { subst o. destruct (is_active s).
      - destruct (network E (conn_no w)), (frame_of c) as [f|] eqn:Hf; eexists;
          (split; [reflexivity|]); cbn; by rewrite ?Hf, <- ?app_assoc.
      - exists w. by rewrite app_nil_r. }
    clearbody o. unfold mbind, M_bind at 1.
    destruct (IH w1) as (outs & ps' & failed & w' & -> & Hself & Hheap & Hclk
                         & Hskip & -> & -> & Htr).
    exists (o :: outs). do 3 eexists. split; [reflexivity|].
    split_and!; try congruence.
    + by constructor.
    + done.
    + by destruct o.
    + cbn. by rewrite Htr, Htr1, <- app_assoc.
Qed.

Lemma enqueue_all_spec c names w :
  ∃ w', for_each ((λ p, (p, c)) <$> names) (enqueue_failed E) w = (Ok tt, w')
    ∧ self w' = set_message_buffer
                  (message_buffer (self w) ++ seq (length (heap w)) (length names)) (self w)
    ∧ heap w' = heap w ++ enqueued E c (clock_no w) names
    ∧ trace w' = trace w ∧ conn_no w' = conn_no w
    ∧ clock_no w' = (clock_no w + length names)%nat.
Proof.
  revert w. induction names as [|p names IH]; intros w.
  - exists w. cbn. rewrite !app_nil_r, Nat.add_0_r. by destruct w as [[] ?].
  - cbn [fmap list_fmap for_each]. unfold mbind, M_bind at 1.
    unfold enqueue_failed at 1. unfold mbind, M_bind, now, buffer_append. cbn [fst snd].
    match goal with |- context [for_each _ _ ?w1] =>
      destruct (IH w1) as (w' & -> & Hself & Hheap & Htr & Hconn & Hclk) end.
    cbn in Hself, Hheap, Htr, Hconn, Hclk.
    exists w'. split; [done|]. split_and!; try done.
    + rewrite Hself. cbn. rewrite length_app. cbn.
      rewrite <- app_assoc. cbn. by rewrite Nat.add_1_r.
    + rewrite Hheap, <- app_assoc. cbn. unfold enqueued. f_equal.
      rewrite Nat.add_0_r. f_equal. apply imap_ext. intros i x _. cbn.
      do 2 f_equal. lia.
    + cbn. lia.
Qed.

(** *** broadcast_message as a whole *)

Lemma compress_message_eq message w :
  _compress_message E message w = (compressed E message, w).
Proof.
  unfold _compress_message, compressed, try_except, mbind, M_bind, from_option.
  destruct (encode E message) as [raw|]; [|done]. cbn.
  by destruct (zstd_compress E raw).
Qed.

Lemma broadcast_message_known message w :
  hash E message ∈ known_messages (self w) →
  broadcast_message E message w = (Ok tt, w).
Proof.
  intros Hin. unfold broadcast_message, mbind, M_bind, gets.
  by rewrite bool_decide_eq_true_2.
Qed.

Lemma broadcast_message_unencodable message w e :
  hash E message ∉ known_messages (self w) →
  compressed E message = Raise e →
  broadcast_message E message w = (Raise e, with_self (remember E message) w).
Proof.
  intros Hin Hc. unfold broadcast_message, mbind, M_bind, gets, modify.
  rewrite bool_decide_eq_false_2 by done. by rewrite compress_message_eq, Hc.
Qed.

Lemma broadcast_message_fresh message c w :
  hash E message ∉ known_messages (self w) →
  compressed E message = Ok c →
  ∃ outs w',
    broadcast_message E message w = (Ok tt, w')
    ∧ Forall2 (λ entry o, o = Skipped ↔ is_active entry.2 = false) (peers (self w)) outs
    ∧ self w' = set_message_buffer
                  (message_buffer (self w)
                   ++ seq (length (heap w)) (length (failed_of (peers (self w)) outs)))
                  (set_peers (zip_with after_send (peers (self w)) outs)
                     (remember E message (self w)))
    ∧ heap w' = heap w ++ enqueued E c (clock_no w) (failed_of (peers (self w)) outs)
    ∧ trace w' = trace w ++ concat (zip_with (outcome_events c) (peers (self w)) outs).
Proof.
  intros Hin Hc. unfold broadcast_message, mbind, M_bind, gets, modify.
  rewrite bool_decide_eq_false_2 by done. rewrite compress_message_eq, Hc.
  cbn [fst snd self with_self peers set_known_messages].
  match goal with |- context [broadcast_peers E c ?ps ?w1] =>
    destruct (broadcast_peers_spec c ps w1)
      as (outs & ps' & failed & w2 & -> & Hself & Hheap & Hclk & Hskip & -> & -> & Htr) end.
  cbn in Hself, Hheap, Hclk, Hskip, Htr.
  match goal with |- context [for_each _ _ ?w3] =>
    destruct (enqueue_all_spec c (failed_of (peers (self w)) outs) w3)
      as (w' & -> & Hself' & Hheap' & Htr' & _ & _) end.
  cbn in Hself', Hheap', Htr'.
  exists outs, w'. split; [done|]. split; [done|].
  rewrite Hself', Hheap', Htr', Hself, Hheap, Hclk, Htr. done.
Qed.

(** *** The maintenance cycle *)

Lemma peer_maintenance_cycle_eq w :
  _peer_maintenance_cycle E w =
  (Ok tt,
   with_self (λ s, set_peers
                     (prod_map id decay
                        <$> List.filter (fresh_enough (time_at E (clock_no w)) (peer_timeout s))
                              (peers s)) s)
     (next_clock w)).
Proof. by destruct w as [[] ?]. Qed.

(** *** The redelivery cycle *)

Lemma process_buffered_eq ct r w :
  process_buffered E ct r w =
  match heap w !! r with
  | None => (Raise KeyError, w)
  | Some msg =>
      if msg_attempts msg <? 5 then
        let w1 := log_event (EvRedeliver r) w in
        match network E (conn_no w), frame_of (msg_message msg) with
        | Refused, _ => (Ok tt, backoff r msg (after_connect (msg_peer msg) false w1))
        | _, None => (Ok tt, backoff r msg (after_connect (msg_peer msg) true w1))
        | Broken, Some f => (Ok tt, backoff r msg (after_frame (msg_peer msg) f w1))
        | Completed, Some f =>
            let w2 := after_frame (msg_peer msg) f w1 in
            match remove_first (heap w) r (message_buffer (self w)) with
            | Some b => (Ok tt, with_self (set_message_buffer b) w2)
            | None => (Ok tt, backoff r msg w2)
            end
        end
      else if 3600 <? ct - msg_timestamp msg then
        match remove_first (heap w) r (message_buffer (self w)) with
        | Some b => (Ok tt, with_self (set_message_buffer b) w)
        | None => (Raise ValueError, w)
        end
      else (Ok tt, w)
  end.
Proof.
  unfold process_buffered, deref, mbind, M_bind at 1.
  destruct (heap w !! r) as [msg|]; [|done].
  destruct (msg_attempts msg <? 5).
  - unfold try_except, mbind, M_bind, emit, _send_to_peer, _peer_connection,
      _send_message, frame_of, from_option, buffer_remove. cbn.
    destruct (network E (conn_no w)); [done|..];
      (destruct (to_bytes_4_big _); [|done]); cbn;
      unfold mbind, M_bind, mret, M_ret, emit; cbn; [done|].
    by destruct (remove_first _ _ _).
  - destruct (3600 <? _); [|done]. unfold buffer_remove.
    by destruct (remove_first _ _ _).
Qed.

(** What a redelivery turn can change: the buffer list, the dict it
    visits (only while its attempts are below 5), the trace. *)
Lemma process_buffered_effects ct r1 w :
  let w' := exec (process_buffered E ct r1) w in
  (∃ b, self w' = set_message_buffer b (self w))
  ∧ length (heap w') = length (heap w)
  ∧ (∀ r, r ≠ r1 ∨ (∃ m, heap w !! r = Some m ∧ 5 ≤ msg_attempts m) →
          heap w' !! r = heap w !! r)
  ∧ ∃ evs, trace w' = trace w ++ evs
           ∧ ∀ r, r ≠ r1 ∨ (∃ m, heap w !! r = Some m ∧ 5 ≤ msg_attempts m) →
                  EvRedeliver r ∉ evs.
Proof.
  unfold exec. rewrite process_buffered_eq.
  assert (Hid : ∃ b, self w = set_message_buffer b (self w))
    by (exists (message_buffer (self w)); by destruct w as [[] ?]).
  assert (Hnone : ∀ w0 : World, w0 = w →
    (∃ b, self w0 = set_message_buffer b (self w))
    ∧ length (heap w0) = length (heap w)
    ∧ (∀ r, r ≠ r1 ∨ (∃ m, heap w !! r = Some m ∧ 5 ≤ msg_attempts m) →
            heap w0 !! r = heap w !! r)
    ∧ ∃ evs, trace w0 = trace w ++ evs
             ∧ ∀ r, r ≠ r1 ∨ (∃ m, heap w !! r = Some m ∧ 5 ≤ msg_attempts m) →
                    EvRedeliver r ∉ evs).
  { intros w0 ->. split_and!; try done. exists []. rewrite app_nil_r.
    split; [done|]. intros r _. apply not_elem_of_nil. }
  destruct (heap w !! r1) as [msg|] eqn:Hmsg; [|by apply Hnone].
  destruct (Z.ltb_spec (msg_attempts msg) 5) as [Hlt|Hge].
  - assert (Hr : ∀ r, r ≠ r1 ∨ (∃ m, heap w !! r = Some m ∧ 5 ≤ msg_attempts m) → r ≠ r1).
    { intros r [?|(m & Hm & ?)]; [done|]. intros ->. rewrite Hmsg in Hm.
      injection Hm as ->. lia. }
    assert (Hev : ∀ r evs, r ≠ r1 →
              Forall (λ e, match e with EvRedeliver _ => False | _ => True end) evs →
              EvRedeliver r ∉ EvRedeliver r1 :: evs).
    { intros r evs Hne Hevs. rewrite elem_of_cons. intros [[=]|Hin]; [done|].
      rewrite Forall_forall in Hevs. by apply Hevs in Hin. }
    cbv zeta.
    destruct (network E (conn_no w)); destruct (frame_of (msg_message msg)) as [f|];
      try destruct (remove_first _ _ _) as [b|]; cbn [snd].
    all: split_and!;
      [first [by eexists|done]
      |first [apply length_insert|done]
      |intros r Hcond; cbn; first [done|apply list_lookup_insert_ne; by intros <-; eapply Hr]
      |].
    all: cbn; rewrite <- ?app_assoc; cbn; eexists; (split; [reflexivity|]).
    all: intros r Hcond; apply Hev; [by apply Hr|]; by repeat constructor.
  - destruct (3600 <? _); [|by apply Hnone].
    destruct (remove_first _ _ _) as [b|]; [|by apply Hnone]. cbn [snd].
    split_and!; [by exists b|done|done|]. exists []. rewrite app_nil_r.
    split; [done|]. intros r _. apply not_elem_of_nil.
Qed.

(** *** Invariants of loops and of histories *)

Lemma exec_for_each_cons {A} (body : A → M unit) x l w :
  exec (for_each (x :: l) body) w =
  match body x w with
  | (Ok _, w1) => exec (for_each l body) w1
  | (Raise _, w1) => w1
  end.
Proof. unfold exec. cbn. unfold mbind, M_bind. by destruct (body x w) as [[]]. Qed.

Lemma for_each_exec_ind {A} (P : World → Prop) (body : A → M unit) l :
  (∀ x w, P w → P (exec (body x) w)) → ∀ w, P w → P (exec (for_each l body) w).
Proof.
  intros Hbody. induction l as [|x l IH]; intros w Hw; [done|].
  rewrite exec_for_each_cons. specialize (Hbody x w Hw). unfold exec in Hbody.
  destruct (body x w) as [[] w1]; cbn in Hbody; auto.
Qed.

Lemma run_ind (P : World → Prop) :
  (∀ o w, P w → P (exec (op_action E o) w)) → ∀ ops w, P w → P (run E ops w).
Proof.
  intros Hop ops. induction ops as [|o ops IH]; intros w Hw; [done|].
  cbn. apply IH, Hop, Hw.
Qed.

Lemma run_app ops1 ops2 w : run E (ops1 ++ ops2) w = run E ops2 (run E ops1 w).
Proof. apply foldl_app. Qed.

Lemma heartbeat_cycle_spec w :
  ∃ ps' w1 evs,
    _heartbeat_cycle E w = (Ok tt, with_self (set_peers ps') w1)
    ∧ self w1 = self w ∧ heap w1 = heap w
    ∧ trace w1 = trace w ++ evs ∧ Forall (about_active (peers (self w))) evs
    ∧ Forall2 (beat E (clock_no w) (clock_no w1)) (peers (self w)) ps'.
Proof.
  destruct (heartbeat_peers_spec (peers (self w)) w)
    as (ps' & w1 & evs & Heq & Hself & Hheap & _ & Htr & Hev & Hrel).
  exists ps', w1, evs. split_and!; try done.
  unfold _heartbeat_cycle, mbind, M_bind, gets. by rewrite Heq.
Qed.

Lemma deliver_cycle_frame w :
  ∃ b, self (exec (_handle_message_buffer_cycle E) w) = set_message_buffer b (self w).
Proof.
  unfold _handle_message_buffer_cycle, exec, mbind, M_bind, now, gets. cbn [fst snd].
  apply (for_each_exec_ind (λ w', ∃ b, self w' = set_message_buffer b (self w))).
  - intros r w0 [b Hb]. destruct (process_buffered_effects (time_at E (clock_no w)) r w0)
      as ([b' Hb'] & _). exists b'. by rewrite Hb', Hb.
  - exists (message_buffer (self w)). by destruct w as [[] ?].
Qed.



End Loops.

(** * C1: activity is derived from the failure counter *)





(** * C3: decay by maintenance *)

Lemma lookup_peer_maintained p s ct timeout ps :
  lookup_peer p ps = Some s →
  fresh_enough ct timeout (p, s) = true →
  lookup_peer p (prod_map id decay <$> List.filter (fresh_enough ct timeout) ps)
  = Some (decay s).
Proof.
  intros Hp Hfresh. induction ps as [|[q t] ps IH]; [done|].
  cbn in Hp. cbn [List.filter]. case_bool_decide as Hq.
  - injection Hp as ->. subst q. rewrite Hfresh. cbn. by rewrite bool_decide_eq_true_2.
  - destruct (fresh_enough ct timeout (q, t)); [|by apply IH].
    cbn. rewrite bool_decide_eq_false_2 by done. by apply IH.
Qed.

Lemma maintenance_cycle_peer E p s w :
  peer_state p w = Some s →
  time_at E (clock_no w) - last_seen s < peer_timeout (self w) →
  let w' := run E [OpMaintenance] w in
  peer_state p w' = Some (decay s)
  ∧ clock_no w' = S (clock_no w) ∧ peer_timeout (self w') = peer_timeout (self w).
Proof.
  intros Hp Hfresh. cbn. unfold exec. cbn [op_action].
  rewrite peer_maintenance_cycle_eq. unfold peer_state. cbn. split; [|done].
  apply lookup_peer_maintained; [done|]. unfold fresh_enough. cbn.
  by apply Z.ltb_lt.
Qed.

Lemma maintenance_cycles_decay E (n k : nat) w p s :
  peer_state p w = Some s →
  is_active s = false →
  failed_attempts s = Z.of_nat n →
  (k < n)%nat →
  (∀ j, (j < k)%nat → time_at E (clock_no w + j) - last_seen s < peer_timeout (self w)) →
  let w' := run E (replicate k OpMaintenance) w in
  peer_state p w' = Some (set_failed_attempts (Z.of_nat (n - k)) s)
  ∧ clock_no w' = (clock_no w + k)%nat ∧ peer_timeout (self w') = peer_timeout (self w).
Proof.
  intros Hp Ha Hn. induction k as [|k IH]; intros Hk Hfresh.
  - cbn. rewrite Nat.sub_0_r, <- Hn, Nat.add_0_r. split; [|done].
    rewrite Hp. by destruct s.
  - destruct (IH ltac:(lia) ltac:(intros; apply Hfresh; lia)) as (Hp' & Hclk & Hto).
    rewrite replicate_S_end, run_app.
    destruct (maintenance_cycle_peer E p _ _ Hp') as (Hp'' & Hclk' & Hto').
    { cbn. rewrite Hclk, Hto. apply Hfresh. lia. }
    cbv zeta. rewrite Hp'', Hclk', Hclk, Hto', Hto. split; [|split; [lia|done]].
    f_equal. rewrite decay_inactive by (cbn; first [done|lia]). cbn.
    destruct (Z.eqb_spec (Z.of_nat (n - k)) 1); [lia|]. cbn.
    unfold set_failed_attempts. cbn. f_equal. lia.
Qed.

(** C3, as stated, fails: an inactive peer whose [last_seen] is at least
    [peer_timeout] old is dropped from the registry by the first lines of
    the maintenance cycle, before its counter is looked at. *)
Lemma stale_peer_dropped_before_decay :
  let s := {| last_seen := 0; failed_attempts := 1; is_active := false |} in
  let w := node [("peer-a", s)] in
  peer_state "peer-a" w = Some s
  ∧ peer_state "peer-a" (run (env_up 300) (replicate 1 OpMaintenance) w) = None.
Proof. split; vm_compute; reflexivity. Qed.

(** C3, amended: an inactive peer with [failed_attempts = n >= 1] that is
    not dropped as stale in any of the next [n] maintenance cycles (at each
    of them the clock reads less than [last_seen + peer_timeout]) is inactive
    with [failed_attempts = n - k] after [k < n] cycles and active with
    [failed_attempts = 0] after the [n]-th. *)
Theorem decay_reactivates_after_n_cycles E (n : nat) w p s :
  peer_state p w = Some s →
  is_active s = false →
  failed_attempts s = Z.of_nat n →
  (1 ≤ n)%nat →
  (∀ k, (k < n)%nat → time_at E (clock_no w + k) - last_seen s < peer_timeout (self w)) →
  (∀ k, (k < n)%nat →
        peer_state p (run E (replicate k OpMaintenance) w)
        = Some {| last_seen := last_seen s; failed_attempts := Z.of_nat (n - k);
                  is_active := false |})
  ∧ peer_state p (run E (replicate n OpMaintenance) w)
    = Some {| last_seen := last_seen s; failed_attempts := 0; is_active := true |}.
Proof.
  intros Hp Ha Hn Hpos Hfresh. split.
  - intros k Hk.
    destruct (maintenance_cycles_decay E n k w p s) as (-> & _); try done.
    + intros; apply Hfresh; lia.
    + unfold set_failed_attempts. by rewrite Ha.
  - destruct n as [|n]; [lia|].
    destruct (maintenance_cycles_decay E (S n) n w p s) as (Hp' & Hclk & Hto); try done;
      [lia|intros; apply Hfresh; lia|].
    rewrite replicate_S_end, run_app.
    destruct (maintenance_cycle_peer E p _ _ Hp') as (-> & _).
    { cbn. rewrite Hclk, Hto. apply Hfresh. lia. }
    f_equal. rewrite decay_inactive by (cbn; first [done|lia]). cbn.
    by replace (Z.of_nat (S n - n)) with 1 by lia.
Qed.

Lemma decay_reactivates_after_n_cycles_witness :
  let s := {| last_seen := 1000; failed_attempts := 3; is_active := false |} in
  let w := node [("peer-a", s)] in
  let E := sim_env (λ _, Completed) (λ k, 1000 + 60 * Z.of_nat (S k)) in
  (∀ k, (k < 3)%nat →
        peer_state "peer-a" (run E (replicate k OpMaintenance) w)
        = Some {| last_seen := 1000; failed_attempts := Z.of_nat (3 - k);
                  is_active := false |})
  ∧ peer_state "peer-a" (run E (replicate 3 OpMaintenance) w)
    = Some {| last_seen := 1000; failed_attempts := 0; is_active := true |}.
Proof.
  intros s w E.
  apply (decay_reactivates_after_n_cycles E 3 w "peer-a" s);
    [reflexivity|reflexivity|reflexivity|lia|].
  intros k Hk. cbn. lia.
Defined.

(** * C5 and C10: the heartbeat *)

(** C5, as stated, fails: the heartbeat loop skips an inactive peer, so no
    heartbeat, successful or not, reaches it.  With every connection
    succeeding, a heartbeat cycle leaves an inactive peer as it found it,
    and contacts nobody. *)
Lemma heartbeat_does_not_reactivate :
  let s := {| last_seen := 0; failed_attempts := 3; is_active := false |} in
  let w := node [("peer-a", s)] in
  let w' := run (env_up 100) [OpHeartbeat] w in
  peer_state "peer-a" w' = Some s ∧ trace w' = [].
Proof. split; vm_compute; reflexivity. Qed.

(** C5, amended: for an active peer, a successful heartbeat sets
    [last_seen] to the clock reading taken then and [failed_attempts] to 0,
    and the peer stays active; an inactive peer is passed over unchanged.
    In a whole heartbeat cycle every inactive entry is left as it was, and
    every active entry ends either with one more recorded failure or with
    [last_seen] a clock reading of this cycle, [failed_attempts = 0] and
    still active. *)
Theorem heartbeat_success_resets_active_peer E :
  (∀ p s w, is_active s = true → network E (conn_no w) = Completed →
     (heartbeat_peer E p s w).1
     = Ok {| last_seen := time_at E (clock_no w); failed_attempts := 0; is_active := true |})
  ∧ (∀ p s w, is_active s = false → heartbeat_peer E p s w = (Ok s, w))
  ∧ (∀ w, ∃ w',
       _heartbeat_cycle E w = (Ok tt, w')
       ∧ Forall2 (λ entry entry',
                    entry'.1 = entry.1 ∧
                    if is_active entry.2
                    then entry'.2 = record_failure entry.2
                         ∨ ∃ k, (clock_no w ≤ k < clock_no w')%nat
                                ∧ entry'.2 = {| last_seen := time_at E k;
                                                failed_attempts := 0; is_active := true |}
                    else entry'.2 = entry.2)
           (peers (self w)) (peers (self w'))).
Proof.
  split_and!.
  - intros p s w Ha Hc. rewrite heartbeat_peer_eq, Ha, Hc. cbn.
    unfold record_heartbeat, set_failed_attempts, set_last_seen. cbn. by rewrite Ha.
  - intros p s w Ha. by rewrite heartbeat_peer_eq, Ha.
  - intros w.
    destruct (heartbeat_cycle_spec E w) as (ps' & w1 & evs & Heq & _ & _ & _ & _ & Hrel).
    eexists. split; [exact Heq|]. cbn.
    eapply Forall2_impl; [exact Hrel|]. intros [p s] [p' s'] [Hp Hb]. split; [done|].
    cbn in *. destruct (is_active s) eqn:Ha; [|done].
    destruct Hb as [?|(k & ? & ->)]; [by left|right]. exists k. split; [done|].
    unfold record_heartbeat, set_failed_attempts, set_last_seen. cbn. by rewrite Ha.
Qed.

Lemma heartbeat_success_resets_active_peer_witness :
  (heartbeat_peer (env_up 77) "peer-a"
     {| last_seen := 5; failed_attempts := 2; is_active := true |} (node [])).1
  = Ok {| last_seen := 77; failed_attempts := 0; is_active := true |}.
Proof.
  exact (proj1 (heartbeat_success_resets_active_peer (env_up 77)) "peer-a"
           {| last_seen := 5; failed_attempts := 2; is_active := true |} (node [])
           eq_refl eq_refl).
Defined.

(** C10: in a heartbeat cycle, a peer whose registry entry is inactive is
    not contacted (no connection is opened to it and no frame is written to
    it) and its entry, [last_seen] and [failed_attempts] included, is the
    same after the cycle. *)
Theorem heartbeat_skips_inactive E w p :
  (∀ s, (p, s) ∈ peers (self w) → is_active s = false) →
  ∃ w', _heartbeat_cycle E w = (Ok tt, w')
    ∧ Forall (λ e, contacts p e = false) (new_events w w')
    ∧ (∀ i s, peers (self w) !! i = Some (p, s) → peers (self w') !! i = Some (p, s))
    ∧ peer_state p w' = peer_state p w.
Proof.
  intros Hp.
  destruct (heartbeat_cycle_spec E w) as (ps' & w1 & evs & Heq & _ & _ & Htr & Hev & Hrel).
  eexists. split; [exact Heq|]. split_and!.
  - unfold new_events. cbn. rewrite Htr, drop_app_length.
    eapply Forall_impl; [exact Hev|]. intros e (q & s & Hin & Ha & Hq).
    destruct (contacts p e) eqn:Hpe; [|done].
    assert (q = p) as ->.
    { destruct e; cbn in *; try done; apply bool_decide_eq_true in Hq, Hpe; congruence. }
    rewrite (Hp s Hin) in Ha. done.
  - intros i s Hi. cbn.
    destruct (Forall2_lookup_l _ _ _ _ _ Hrel Hi) as ([p' s'] & Hi' & Hp' & Hb).
    cbn in *. subst p'. rewrite (Hp s) in Hb; [by subst|].
    by eapply list_elem_of_lookup_2.
  - unfold peer_state. cbn. clear Heq Hev Htr.
    induction Hrel as [|[q s] [q' s'] ps ps'' [Hq Hb] _ IH]; [done|].
    cbn in *. subst q'. case_bool_decide as Hqp.
    + subst q. rewrite (Hp s) in Hb; [by subst|]. apply elem_of_cons; auto.
    + apply IH. intros s0 Hin. apply Hp. apply elem_of_cons; auto.
Qed.

Lemma heartbeat_skips_inactive_witness :
  let quiet := {| last_seen := 0; failed_attempts := 3; is_active := false |} in
  let w := node [("peer-a", quiet); ("peer-b", new_peer 0)] in
  ∃ w', _heartbeat_cycle (env_up 9) w = (Ok tt, w')
    ∧ Forall (λ e, contacts "peer-a" e = false) (new_events w w')
    ∧ (∀ i s, peers (self w) !! i = Some ("peer-a", s)
              → peers (self w') !! i = Some ("peer-a", s))
    ∧ peer_state "peer-a" w' = peer_state "peer-a" w.
Proof.
  intros quiet w. apply (heartbeat_skips_inactive (env_up 9) w "peer-a").
  intros s Hin. cbn in Hin.
  apply elem_of_cons in Hin as [Hin|Hin]; [by injection Hin as ->|].
  apply elem_of_cons in Hin as [Hin|Hin]; [discriminate Hin|].
  by apply elem_of_nil in Hin.
Defined.

(** * C2 and C7: broadcast *)

Lemma frames_to_app p tr1 tr2 : frames_to p (tr1 ++ tr2) = frames_to p tr1 ++ frames_to p tr2.
Proof. apply omap_app. Qed.

(** A broadcast writes at most one frame per registry entry, to the peer of
    that entry. *)
Lemma broadcast_frames_bounded c p ps outs :
  (length (frames_to p (concat (zip_with (outcome_events c) ps outs)))
   ≤ length (List.filter (λ entry, bool_decide (entry.1 = p)) ps))%nat.
Proof.
  revert outs. induction ps as [|[q s] ps IH]; intros [|o outs]; cbn -[frames_to];
    try (cbn; lia).
  rewrite frames_to_app, length_app. specialize (IH outs).
  assert (length (frames_to p (outcome_events c (q, s) o))
          ≤ if bool_decide (q = p) then 1 else 0)%nat as Ho.
  { destruct o as [| |[]]; cbn; try (case_bool_decide; lia);
      destruct (frame_of c); cbn; case_bool_decide; cbn; lia. }
  destruct (bool_decide (q = p)); cbn; lia.
Qed.

Lemma unique_key_once p (ps : list (string * PeerState)) :
  NoDup ps.*1 → (length (List.filter (λ entry, bool_decide (entry.1 = p)) ps) ≤ 1)%nat.
Proof.
  induction ps as [|[q s] ps IH]; cbn; [lia|]. intros Hnd.
  apply NoDup_cons in Hnd as [Hq Hnd]. case_bool_decide as Hqp; [|by apply IH].
  subst q. cbn. assert (List.filter (λ entry, bool_decide (entry.1 = p)) ps = []) as ->; [|done].
  clear IH Hnd. induction ps as [|[q t] ps IH]; [done|]. cbn in *.
  rewrite not_elem_of_cons in Hq. destruct Hq as [Hne Hq].
  rewrite bool_decide_eq_false_2 by done. by apply IH.
Qed.

Lemma broadcast_remembers E message w :
  hash E message ∈ known_messages (self (exec (broadcast_message E message) w)).
Proof.
  destruct (decide (hash E message ∈ known_messages (self w))) as [Hin|Hin].
  { unfold exec. by rewrite broadcast_message_known. }
  destruct (compressed E message) as [c|e] eqn:Hc.
  - destruct (broadcast_message_fresh E message c w Hin Hc) as (outs & w' & Heq & _ & Hself & _).
    unfold exec. rewrite Heq. cbn [snd]. rewrite Hself. cbn. set_solver.
  - unfold exec. rewrite (broadcast_message_unencodable E message w e) by done.
    cbn. set_solver.
Qed.

(** C2: a second [broadcast_message] of the same text finds its hash in
    [known_messages] and returns at once, leaving the world (registry,
    buffer, connection count, trace) exactly as the first call left it; over
    the two calls each peer of the registry is written at most one frame. *)
Theorem broadcast_twice_sends_once E message w :
  NoDup (peers (self w)).*1 →
  let w1 := exec (broadcast_message E message) w in
  broadcast_message E message w1 = (Ok tt, w1)
  ∧ ∀ p, (length (frames_to p (new_events w (exec (broadcast_message E message) w1)))
          ≤ 1)%nat.
Proof.
  intros Hnd w1.
  assert (Hsecond : broadcast_message E message w1 = (Ok tt, w1))
    by apply broadcast_message_known, broadcast_remembers.
  split; [done|]. intros p. unfold exec at 1. rewrite Hsecond. cbn [snd].
  subst w1. unfold new_events.
  destruct (decide (hash E message ∈ known_messages (self w))) as [Hin|Hin].
  { unfold exec. rewrite broadcast_message_known by done. cbn.
    rewrite drop_all. cbn. lia. }
  destruct (compressed E message) as [c|e] eqn:Hc.
  - destruct (broadcast_message_fresh E message c w Hin Hc) as (outs & w' & Heq & _ & _ & _ & Htr).
    unfold exec. rewrite Heq. cbn [snd]. rewrite Htr, drop_app_length.
    etrans; [apply broadcast_frames_bounded|]. by apply unique_key_once.
  - unfold exec. rewrite (broadcast_message_unencodable E message w e) by done.
    cbn. rewrite drop_all. cbn. lia.
Qed.

Lemma broadcast_twice_sends_once_witness :
  let w := node [("peer-a", new_peer 0); ("peer-b", new_peer 0)] in
  let E := sim_env (failing_at [1%nat]) (λ _, 50) in
  let w1 := exec (broadcast_message E "hello") w in
  broadcast_message E "hello" w1 = (Ok tt, w1)
  ∧ ∀ p, (length (frames_to p (new_events w (exec (broadcast_message E "hello") w1)))
          ≤ 1)%nat.
Proof.
  intros w E. apply (broadcast_twice_sends_once E "hello" w).
  cbn. compute_done.
Defined.



(** A run in full: the first connection fails, the second
    succeeds, the inactive peer in between is passed over. *)
Example broadcast_one_failure :
  let idle := {| last_seen := 0; failed_attempts := 3; is_active := false |} in
  let w := node [("peer-a", new_peer 0); ("peer-b", idle); ("peer-c", new_peer 0)] in
  let w' := exec (broadcast_message (sim_env (failing_at [0%nat]) (λ _, 50)) "hello") w in
  peers (self w')
  = [("peer-a", {| last_seen := 0; failed_attempts := 1; is_active := true |});
     ("peer-b", idle); ("peer-c", new_peer 0)]
  ∧ buffered w'
    = [{| msg_peer := "peer-a";
          msg_message := Byte.x28 :: String.list_byte_of_string "hello";
          msg_attempts := 0; msg_timestamp := 50 |}]
  ∧ List.map (contacts "peer-b") (trace w') = [false; false; false].
Proof. split_and!; vm_compute; reflexivity. Qed.

(** * C6: port negotiation in [start] *)

Section Start.

Context (E : Env).

Lemma poll_bootstrap_spec polls w :
  ∃ w', poll_bootstrap polls w = (Ok (existsb id polls), w')
    ∧ self w' = self w ∧ dht_listening w' = dht_listening w.
Proof.
  revert w. induction polls as [|[] polls IH]; intros w; cbn.
  - by exists w.
  - by exists w.
  - unfold mbind, M_bind, sleep, emit.
    destruct (IH (log_event (EvSleep 500) w)) as (w' & -> & ? & ?). by exists w'.
Qed.

Lemma try_port_spec p w :
  ∃ w', try_port E p w = (Ok (port_usable E p), w')
    ∧ same_config w w'
    ∧ (port_usable E p = true →
       port (self w') = Some p ∧ is_running (self w') = true
       ∧ dht_listening w' = Some p).
Proof.
  unfold try_port, port_usable, mbind, M_bind at 1, _cleanup_port.
  set (w0 := (if port_free E p then mret () else sleep 1000) w).
  assert (Hw0 : w0.1 = Ok tt ∧ self w0.2 = self w).
  { subst w0. by destruct (port_free E p). }
  destruct w0 as [r0 w0]. cbn in Hw0. destruct Hw0 as [-> Hself0].
  unfold try_except, mbind, M_bind, dht_listen.
  destruct (dht_listen_ok E p); cbn [andb].
  - unfold modify, create_tasks, sleep, emit, _verify_port_active. cbn [fst snd].
    match goal with |- context [poll_bootstrap _ ?w1] =>
      destruct (poll_bootstrap_spec (bootstrap_polls E p) w1) as (w2 & -> & Hself & Hdht) end.
    cbn in Hself, Hdht.
    destruct (existsb id (bootstrap_polls E p)).
    + exists w2. split; [done|]. unfold same_config. rewrite Hself, Hdht. cbn.
      by rewrite Hself0.
    + unfold raise, dht_stop. destruct (dht_stop_ok E); eexists; (split; [reflexivity|]);
        unfold same_config; cbn; rewrite Hself; cbn; by rewrite Hself0.
  - unfold raise, dht_stop. destruct (dht_stop_ok E); eexists; (split; [reflexivity|]);
      unfold same_config; cbn; by rewrite Hself0.
Qed.

Lemma start_ports_exhausted offsets w :
  Forall (λ o, port_usable E (base_port (self w) + o + 1) = false) offsets →
  ∃ w', start_ports E offsets w = (Raise (exhausted (self w)), w').
Proof.
  revert w. induction offsets as [|o offsets IH]; intros w Hall.
  - by exists w.
  - apply Forall_cons in Hall as [Ho Hall]. cbn [start_ports].
    unfold mbind, M_bind at 1, gets. cbn [fst snd].
    unfold mbind, M_bind at 1.
    destruct (try_port_spec (base_port (self w) + o + 1) w) as (w1 & -> & [Hb Hn] & _).
    rewrite Ho. destruct (IH w1) as (w' & ->); [by rewrite Hb|].
    exists w'. unfold exhausted. by rewrite Hb, Hn.
Qed.

Lemma start_ports_first_usable skipped o rest w :
  Forall (λ o, port_usable E (base_port (self w) + o + 1) = false) skipped →
  port_usable E (base_port (self w) + o + 1) = true →
  ∃ w', start_ports E (skipped ++ o :: rest) w = (Ok tt, w')
    ∧ port (self w') = Some (base_port (self w) + o + 1)
    ∧ is_running (self w') = true
    ∧ dht_listening w' = Some (base_port (self w) + o + 1).
Proof.
  revert w. induction skipped as [|o' skipped IH]; intros w Hall Ho.
  - cbn [app start_ports]. unfold mbind, M_bind at 1, gets. cbn [fst snd].
    unfold mbind, M_bind at 1.
    destruct (try_port_spec (base_port (self w) + o + 1) w) as (w1 & -> & _ & Hok).
    rewrite Ho. exists w1. split; [done|]. by apply Hok.
  - apply Forall_cons in Hall as [Ho' Hall]. cbn [app start_ports].
    unfold mbind, M_bind at 1, gets. cbn [fst snd].
    unfold mbind, M_bind at 1.
    destruct (try_port_spec (base_port (self w) + o' + 1) w) as (w1 & -> & [Hb Hn] & _).
    rewrite Ho'. destruct (IH w1) as (w' & -> & Hres); [by rewrite Hb..|].
    exists w'. split; [done|]. by rewrite Hb in Hres.
Qed.

Lemma start_http_server_config w r w0 :
  _start_http_server E w = (r, w0) → same_config w w0.
Proof.
  unfold _start_http_server, mbind, M_bind, gets, modify, try_except, raise,
    runner_cleanup. cbn.
  destruct (_http_runner (self w)); [by intros [= _ <-]|].
  destruct (http_setup_ok E); [by intros [= _ <-]|]. cbn.
  destruct (runner_cleanup_ok E); by intros [= _ <-].
Qed.

End Start.

(** C6: once the health-check step of [start] has returned, [start]
    either raises or returns.  If no candidate port
    [base_port+1 .. base_port+max_retry_ports] passes listen-and-verify, it
    raises the [RuntimeError] whose message names that range; if [p] is the
    first candidate that passes, it returns with [port = p], the node
    running and the DHT listening on [p]. *)
Theorem start_negotiates_port E w started w0 :
  _start_http_server E w = (Ok started, w0) →
  let base := base_port (self w) in
  let n := max_retry_ports (self w) in
  ((∀ p, base + 1 ≤ p ≤ base + n → port_usable E p = false) →
   ∃ w', start E w
         = (Raise (RuntimeError ("Could not find available port in range "
                                 +:+ pretty (base + 1) +:+ "-" +:+ pretty (base + n))), w'))
  ∧ (∀ p, base + 1 ≤ p ≤ base + n →
          port_usable E p = true →
          (∀ q, base + 1 ≤ q < p → port_usable E q = false) →
          ∃ w', start E w = (Ok tt, w')
            ∧ port (self w') = Some p ∧ is_running (self w') = true
            ∧ dht_listening w' = Some p).
Proof.
  intros Hhttp base n.
  destruct (start_http_server_config E w _ _ Hhttp) as [Hb Hn].
  assert (Hstart : start E w
                   = start_ports E (Z.of_nat <$> seq 0 (Z.to_nat n)) w0).
  { unfold start, mbind, M_bind at 1. rewrite Hhttp. unfold mbind, M_bind, gets.
    cbn. by rewrite Hn. }
  split.
  - intros Hnone. destruct (start_ports_exhausted E (Z.of_nat <$> seq 0 (Z.to_nat n)) w0)
      as (w' & Heq).
    { apply Forall_fmap, Forall_forall. intros i Hi. apply elem_of_seq in Hi. cbn.
      rewrite Hb. apply Hnone. subst base n. lia. }
    exists w'. rewrite Hstart, Heq. unfold exhausted. by rewrite Hb, Hn.
  - intros p Hp Husable Hfirst.
    set (i := Z.to_nat (p - base - 1)).
    assert (Hsplit : Z.of_nat <$> seq 0 (Z.to_nat n)
                     = (Z.of_nat <$> seq 0 i) ++ Z.of_nat i
                       :: (Z.of_nat <$> seq (S i) (Z.to_nat n - S i))).
    { replace (Z.to_nat n) with (i + S (Z.to_nat n - S i))%nat at 1 by (subst i; lia).
      rewrite seq_app, fmap_app. by cbn. }
    destruct (start_ports_first_usable E (Z.of_nat <$> seq 0 i) (Z.of_nat i)
                (Z.of_nat <$> seq (S i) (Z.to_nat n - S i)) w0) as (w' & Heq & Hres).
    { apply Forall_fmap, Forall_forall. intros j Hj. apply elem_of_seq in Hj. cbn.
      rewrite Hb. apply Hfirst. subst i base. lia. }
    { rewrite Hb. replace (base_port (self w) + Z.of_nat i + 1) with p by (subst i base; lia).
      done. }
    exists w'. rewrite Hstart, Hsplit, Heq. split; [done|].
    rewrite Hb in Hres. by replace (base_port (self w) + Z.of_nat i + 1) with p in Hres
      by (subst i base; lia).
Qed.

Lemma start_negotiates_port_witness :
  (∃ w', start env_no_port (new_world (new_mesh 12345 5))
         = (Raise (RuntimeError "Could not find available port in range 12346-12350"), w'))
  ∧ ∃ w', start env_two_taken (new_world (new_mesh 12345 5)) = (Ok tt, w')
      ∧ port (self w') = Some 12348 ∧ is_running (self w') = true
      ∧ dht_listening w' = Some 12348.
Proof.
  split.
  - refine (proj1 (start_negotiates_port env_no_port (new_world (new_mesh 12345 5))
                     false _ eq_refl) _).
    intros p _. reflexivity.
  - refine (proj2 (start_negotiates_port env_two_taken (new_world (new_mesh 12345 5))
                     true _ eq_refl) 12348 _ eq_refl _).
    + cbn. lia.
    + intros q Hq. cbn in Hq. unfold port_usable. cbn.
      assert (q = 12346 ∨ q = 12347) as [-> | ->] by lia; reflexivity.
Defined.

(** No candidate passes: the error names the range scanned, also when
    the range is empty. *)
Example start_exhausted_names_range :
  (∀ p, port_usable env_no_port p = false)
  ∧ (start env_no_port (new_world (new_mesh 12345 5))).1
    = Raise (RuntimeError "Could not find available port in range 12346-12350")
  ∧ (start (env_up 0) (new_world (new_mesh 12345 0))).1
    = Raise (RuntimeError "Could not find available port in range 12346-12345").
Proof. split_and!; [done|vm_compute; reflexivity..]. Qed.

(** * C8: compression round trip *)





(** * C9: [stop] *)

(** [stop] has no handler of its own: it returns normally exactly when the
    runner's cleanup (if there is a runner) and [dht.stop()] both return. *)
Lemma stop_returns_iff E w :
  (∃ w', stop E w = (Ok tt, w'))
  ↔ (_http_runner (self w) = true → runner_cleanup_ok E = true) ∧ dht_stop_ok E = true.
Proof.
  unfold stop, mbind, M_bind, gets, modify, runner_cleanup, dht_stop, raise. cbn.
  destruct (_http_runner (self w)), (runner_cleanup_ok E), (dht_stop_ok E); cbn;
    split; try (by intros [? [=]]); try (by intros [? ?]; auto); try (by eexists);
    try (intros [H ?]; by specialize (H eq_refl)).
Qed.

(** C9 at its failing input: a node started normally, then stopped while
    [dht.stop()] raises.  [stop] lets the exception through; the DHT is
    still listening and the closing sleep is never reached.  The
    application's [cleanup], which gathers [stop()] with
    [return_exceptions=True], does swallow it. *)
Lemma stop_propagates_dht_error :
  let w := exec (start env_dht_stop_fails) (new_world (new_mesh 12345 5)) in
  is_running (self w) = true
  ∧ (stop env_dht_stop_fails w).1 = Raise DhtError
  ∧ dht_listening (stop env_dht_stop_fails w).2 = Some 12346
  ∧ (EvSleep 1000 ∉ new_events w (stop env_dht_stop_fails w).2)
  ∧ (cleanup env_dht_stop_fails w).1 = Ok tt.
Proof.
  split_and!; try (vm_compute; reflexivity).
  vm_compute. apply not_elem_of_nil.
Qed.

(** The contrast within [start]: with no port to be had and [dht.stop()]
    raising, the handler of [start] swallows that error (lines 120-124) and
    [start] ends with its own [RuntimeError]; [stop], called next as
    [MeshChat.start] does through [cleanup], lets the same error through. *)
Example stop_after_failed_start_raises :
  let w0 := new_world (new_mesh 12345 5) in
  (start env_no_port w0).1
  = Raise (RuntimeError "Could not find available port in range 12346-12350")
  ∧ _http_runner (self (exec (start env_no_port) w0)) = false
  ∧ (stop env_no_port (exec (start env_no_port) w0)).1 = Raise DhtError.
Proof. split_and!; vm_compute; reflexivity. Qed.

(** * C4: the redelivery buffer *)







Section Redelivery.

Context (E : Env).

Lemma handle_message_buffer_cycle_eq w :
  _handle_message_buffer_cycle E w
  = for_each (message_buffer (self w))
      (process_buffered E (time_at E (clock_no w))) (next_clock w).
Proof. done. Qed.




End Redelivery.

(** ** Once given up, never retried *)







(** A cycle in full: the dict given up is dropped without a
    connection; the fresh one is tried, fails, and stays with one attempt. *)
Example redelivery_cycle_run :
  let w' := exec (_handle_message_buffer_cycle (env_down 4000)) two_buffered in
  message_buffer (self w') = [1%nat]
  ∧ heap w' !! 1%nat = Some {| msg_peer := "peer-b"; msg_message := [Byte.x28; Byte.x68];
                               msg_attempts := 1; msg_timestamp := 3900 |}
  ∧ trace w' = [EvRedeliver 1; EvConnect "peer-b" false; EvSleep 2000].
Proof. split_and!; vm_compute; reflexivity. Qed.

(** * Further properties *)

(** ** The wire frame *)

Example to_bytes_4_big_258 :
  to_bytes_4_big 258 = Some [Byte.x00; Byte.x00; Byte.x01; Byte.x02]
  ∧ to_bytes_4_big (2 ^ 32) = None ∧ to_bytes_4_big (-1) = None.
Proof. split_and!; reflexivity. Qed.

Lemma byte_of_Z_value z : Z.of_N (Byte.to_N (byte_of_Z z)) = z `mod` 256.
Proof.
  unfold byte_of_Z. assert (0 ≤ z `mod` 256 < 256) as Hz by (apply Z.mod_pos_bound; lia).
  destruct (Byte.of_N (Z.to_N (z `mod` 256))) as [b|] eqn:Hb.
  - cbn. apply Byte.to_of_N in Hb. rewrite Hb. lia.
  - apply Byte.of_N_None_iff in Hb. lia.
Qed.

(** A frame is the payload behind four bytes that spell its length,
    most significant byte first. *)
Theorem frame_prefix_is_length d f :
  frame_of d = Some f →
  length f = (4 + length d)%nat
  ∧ drop 4 f = d
  ∧ from_bytes_big (take 4 f) = Z.of_nat (length d).
Proof.
  unfold frame_of, to_bytes_4_big. set (n := Z.of_nat (length d)).
  destruct (Z.leb_spec 0 n); [|done]. destruct (Z.ltb_spec n (2 ^ 32)); [|done].
  cbn. intros [= <-]. split_and!; [done..|]. cbn.
  rewrite !byte_of_Z_value, !Z.shiftr_div_pow2 by lia.
  change (2 ^ 24) with 16777216. change (2 ^ 16) with 65536. change (2 ^ 8) with 256.
  change (2 ^ 32) with 4294967296 in *.
  assert (n / 16777216 < 256) by (apply Z.div_lt_upper_bound; lia).
  assert (0 ≤ n / 16777216) by (apply Z.div_pos; lia).
  rewrite (Z.mod_small (n / 16777216)) by lia.
  pose proof (Z.div_mod n 256 ltac:(lia)).
  pose proof (Z.div_mod (n / 256) 256 ltac:(lia)).
  pose proof (Z.div_mod (n / 256 / 256) 256 ltac:(lia)).
  rewrite !Z.div_div in * by lia.
  change (256 * 256 * 256) with 16777216 in *. change (256 * 256) with 65536 in *.
  rewrite take_0. cbn [foldl]. lia.
Qed.

Lemma frame_prefix_is_length_witness :
  let d := Byte.x28 :: String.list_byte_of_string "hello" in
  ∃ f, frame_of d = Some f
       ∧ length f = (4 + length d)%nat
       ∧ drop 4 f = d
       ∧ from_bytes_big (take 4 f) = Z.of_nat (length d).
Proof.
  intros d. eexists. split; [reflexivity|].
  exact (frame_prefix_is_length d _ eq_refl).
Defined.

(** ** Stopping the loops *)

Lemma while_running_stopped turns body pause w :
  is_running (self w) = false → while_running turns body pause w = (Ok tt, w).
Proof.
  intros Hstop. destruct turns; [done|]. cbn. unfold mbind, M_bind, gets. by rewrite Hstop.
Qed.

(** [stop] clears the running flag before anything can go wrong, and with
    the flag cleared each of the three loops leaves at its next check
    without running its body. *)
Theorem loops_exit_when_stopped E turns w :
  is_running (self (exec (stop E) w)) = false
  ∧ (is_running (self w) = false →
     _peer_maintenance E turns w = (Ok tt, w)
     ∧ _handle_message_buffer E turns w = (Ok tt, w)
     ∧ _heartbeat E turns w = (Ok tt, w)).
Proof.
  split.
  - unfold exec, stop, mbind, M_bind, gets, modify, runner_cleanup, dht_stop, raise, sleep, emit.
    cbn. by destruct (_http_runner (self w)), (runner_cleanup_ok E), (dht_stop_ok E).
  - intros Hstop. split_and!; by apply while_running_stopped.
Qed.

Lemma loops_exit_when_stopped_witness :
  let w := exec (stop env_dht_stop_fails)
             (exec (start env_dht_stop_fails) (node [("peer-a", new_peer 0)])) in
  _peer_maintenance env_dht_stop_fails 7 w = (Ok tt, w)
  ∧ _handle_message_buffer env_dht_stop_fails 7 w = (Ok tt, w)
  ∧ _heartbeat env_dht_stop_fails 7 w = (Ok tt, w).
Proof.
  intros w.
  exact (proj2 (loops_exit_when_stopped env_dht_stop_fails 7 w)
           (proj1 (loops_exit_when_stopped env_dht_stop_fails 7
                     (exec (start env_dht_stop_fails) (node [("peer-a", new_peer 0)]))))).
Defined.

(** ** Three strikes *)

Lemma heartbeat_failure E p s w :
  is_active s = true → network E (conn_no w) ≠ Completed →
  (heartbeat_peer E p s w).1 = Ok (record_failure s).
Proof.
  intros Ha Hn. rewrite heartbeat_peer_eq, Ha. by destruct (network E (conn_no w)).
Qed.

(** A peer with no recorded failure that misses three heartbeats in a row
    is inactive with [failed_attempts = 3], and a broadcast then passes it
    over: no connection, no change, nothing for the buffer. *)
Theorem three_missed_heartbeats_deactivate E p s s1 s2 s3 w0 w1 w2 :
  is_active s = true → failed_attempts s = 0 →
  network E (conn_no w0) ≠ Completed →
  network E (conn_no w1) ≠ Completed →
  network E (conn_no w2) ≠ Completed →
  (heartbeat_peer E p s w0).1 = Ok s1 →
  (heartbeat_peer E p s1 w1).1 = Ok s2 →
  (heartbeat_peer E p s2 w2).1 = Ok s3 →
  is_active s2 = true
  ∧ is_active s3 = false ∧ failed_attempts s3 = 3
  ∧ ∀ c w, broadcast_peer E c p s3 w = (Ok (s3, false), w).
Proof.
  intros Ha Hf H0 H1 H2 Hs1 Hs2 Hs3.
  rewrite heartbeat_failure in Hs1 by done. injection Hs1 as <-.
  assert (Ha1 : is_active (record_failure s) = true)
    by (rewrite record_failure_active, Ha, Hf; done).
  rewrite heartbeat_failure in Hs2 by done. injection Hs2 as <-.
  assert (Ha2 : is_active (record_failure (record_failure s)) = true)
    by (rewrite record_failure_active, Ha1, record_failure_attempts, Hf; done).
  rewrite heartbeat_failure in Hs3 by done. injection Hs3 as <-.
  assert (Ha3 : is_active (record_failure (record_failure (record_failure s))) = false)
    by (rewrite record_failure_active, Ha2, !record_failure_attempts, Hf; done).
  split_and!; [done..| |].
  - rewrite !record_failure_attempts, Hf. done.
  - intros c w. by rewrite broadcast_peer_eq, Ha3.
Qed.

Lemma three_missed_heartbeats_deactivate_witness :
  let s3 := {| last_seen := 8; failed_attempts := 3; is_active := false |} in
  is_active {| last_seen := 8; failed_attempts := 2; is_active := true |} = true
  ∧ is_active s3 = false ∧ failed_attempts s3 = 3
  ∧ ∀ c w, broadcast_peer (env_down 9) c "peer-a" s3 w = (Ok (s3, false), w).
Proof.
  intros s3.
  exact (three_missed_heartbeats_deactivate (env_down 9) "peer-a" (new_peer 8)
           _ _ _ (node []) (node []) (node [])
           eq_refl eq_refl ltac:(discriminate) ltac:(discriminate) ltac:(discriminate)
           eq_refl eq_refl eq_refl).
Defined.

(** * More of the mesh *)

(** ** The registry and the known messages *)

Lemma zip_after_send_keys ps outs :
  length outs = length ps → (zip_with after_send ps outs).*1 = ps.*1.
Proof.
  revert outs. induction ps as [|[p s] ps IH]; intros [|o outs]; cbn; try done.
  intros [= Hlen]. by rewrite IH.
Qed.

Lemma List_filter_sublist {A} (f : A → bool) l : List.filter f l `sublist_of` l.
Proof.
  induction l as [|x l IH]; cbn; [done|].
  destruct (f x); by constructor.
Qed.

Lemma op_keys E o w :
  (peers (self (exec (op_action E o) w))).*1 `sublist_of` (peers (self w)).*1
  ∧ (o ≠ OpMaintenance → (peers (self (exec (op_action E o) w))).*1 = (peers (self w)).*1).
Proof.
  assert (Heq : (peers (self (exec (op_action E o) w))).*1 = (peers (self w)).*1
                ∨ o = OpMaintenance).
  { destruct o as [message| | |]; cbn [op_action]; [|by right| |]; left.
    - destruct (decide (hash E message ∈ known_messages (self w))) as [Hin|Hin].
      { unfold exec. by rewrite broadcast_message_known. }
      destruct (compressed E message) as [c|e] eqn:Hc.
      + destruct (broadcast_message_fresh E message c w Hin Hc)
          as (outs & w' & Heq & Hskip & Hself & _).
        unfold exec. rewrite Heq. cbn [snd]. rewrite Hself. cbn.
        apply zip_after_send_keys. symmetry. by eapply Forall2_length.
      + unfold exec. by rewrite (broadcast_message_unencodable E message w e).
    - by destruct (deliver_cycle_frame E w) as [b ->].
    - destruct (heartbeat_cycle_spec E w) as (ps' & w1 & evs & Heq & _ & _ & _ & _ & Hrel).
      unfold exec. rewrite Heq. cbn. clear Heq.
      induction Hrel as [|[p s] [p' s'] ps ps'' [Hp _] _ IH]; [done|].
      cbn in *. by rewrite Hp, IH. }
  destruct Heq as [Heq| ->].
  - rewrite Heq. done.
  - split; [|done]. unfold exec. cbn [op_action]. rewrite peer_maintenance_cycle_eq. cbn.
    rewrite <- list_fmap_compose.
    replace (fst ∘ prod_map id decay) with (@fst string PeerState) by done.
    apply fmap_sublist, List_filter_sublist.
Qed.

(** The mesh never adds a registry entry and never reorders the registry:
    after any history the keys are a sub-sequence of the keys before, and
    they are the same keys unless a maintenance cycle ran. *)
Theorem registry_never_grows E ops w :
  (peers (self (run E ops w))).*1 `sublist_of` (peers (self w)).*1
  ∧ (OpMaintenance ∉ ops → (peers (self (run E ops w))).*1 = (peers (self w)).*1).
Proof.
  split.
  - apply (run_ind E (λ w', (peers (self w')).*1 `sublist_of` (peers (self w)).*1)); [|done].
    intros o w' Hw'. etrans; [apply op_keys|done].
  - revert w. induction ops as [|o ops IH]; intros w Hno; [done|].
    apply not_elem_of_cons in Hno as [Ho Hno].
    change (run E (o :: ops) w) with (run E ops (exec (op_action E o) w)).
    rewrite IH by done. apply op_keys. congruence.
Qed.

Lemma op_known_mono E o w :
  known_messages (self w) ⊆ known_messages (self (exec (op_action E o) w)).
Proof.
  destruct o as [message| | |]; cbn [op_action].
  - destruct (decide (hash E message ∈ known_messages (self w))) as [Hin|Hin].
    { unfold exec. by rewrite broadcast_message_known. }
    destruct (compressed E message) as [c|e] eqn:Hc.
    + destruct (broadcast_message_fresh E message c w Hin Hc)
        as (outs & w' & Heq & Hskip & Hself & _).
      unfold exec. rewrite Heq. cbn [snd]. rewrite Hself. cbn. set_solver.
    + unfold exec. rewrite (broadcast_message_unencodable E message w e) by done.
      cbn. set_solver.
  - unfold exec. by rewrite peer_maintenance_cycle_eq.
  - by destruct (deliver_cycle_frame E w) as [b ->].
  - destruct (heartbeat_cycle_spec E w) as (ps' & w1 & evs & Heq & Hself & _).
    unfold exec. rewrite Heq. cbn. by rewrite Hself.
Qed.

Theorem known_message_never_resent E message message' ops w :
  hash E message' = hash E message →
  let w1 := run E (OpBroadcast message :: ops) w in
  broadcast_message E message' w1 = (Ok tt, w1).
Proof.
  intros Hh w1. apply broadcast_message_known. rewrite Hh. subst w1.
  change (run E (OpBroadcast message :: ops) w)
    with (run E ops (exec (broadcast_message E message) w)).
  apply (run_ind E (λ w', hash E message ∈ known_messages (self w'))).
  - intros o w' Hw'. by apply op_known_mono.
  - apply broadcast_remembers.
Qed.

Lemma known_message_never_resent_witness :
  let E := env_up 0 in
  let w1 := run E [OpBroadcast "hello"; OpHeartbeat; OpBroadcast "other"; OpMaintenance]
              (node [("peer-a", new_peer 0)]) in
  broadcast_message E "hello" w1 = (Ok tt, w1).
Proof.
  exact (known_message_never_resent (env_up 0) "hello" "hello"
           [OpHeartbeat; OpBroadcast "other"; OpMaintenance]
           (node [("peer-a", new_peer 0)]) eq_refl).
Defined.

(** [broadcast_message] raises for one reason only, a text that cannot be
    encoded; the network never makes it raise.  The text is marked as known
    before the encoding is tried, so after the failure a second call with the
    same text returns at once and does nothing. *)
Theorem broadcast_raises_only_unencodable E message w :
  ((∃ e w', broadcast_message E message w = (Raise e, w'))
   ↔ (hash E message ∉ known_messages (self w)) ∧ encode E message = None)
  ∧ (∀ e w', broadcast_message E message w = (Raise e, w') →
             e = UnicodeEncodeError
             ∧ w' = with_self (remember E message) w
             ∧ broadcast_message E message w' = (Ok tt, w')).
Proof.
  destruct (decide (hash E message ∈ known_messages (self w))) as [Hin|Hin].
  { rewrite broadcast_message_known by done. split.
    - split; [by intros (? & ? & [=])|]. by intros [? _].
    - by intros e w' [=]. }
  destruct (compressed E message) as [c|e0] eqn:Hc.
  - destruct (broadcast_message_fresh E message c w Hin Hc) as (outs & w1 & -> & _).
    assert (is_Some (encode E message)) as [raw Hraw].
    { unfold compressed in Hc. destruct (encode E message); [by eexists|done]. }
    split.
    + split; [by intros (? & ? & [=])|]. intros [_ ?]. congruence.
    + by intros e w' [=].
  - rewrite (broadcast_message_unencodable E message w e0) by done.
    assert (encode E message = None ∧ e0 = UnicodeEncodeError) as [Hnone ->].
    { unfold compressed in Hc. destruct (encode E message); [done|]. by injection Hc. }
    split.
    + split; [done|]. intros _. by eexists _, _.
    + intros e w' [= <- <-]. split_and!; try done.
      apply broadcast_message_known. cbn. set_solver.
Qed.

(** ** Redelivery and the registry *)

Lemma remove_first_subset h r buf b :
  remove_first h r buf = Some b → b `sublist_of` buf.
Proof.
  revert b. induction buf as [|x buf IH]; intros b; cbn; [done|].
  case_bool_decide.
  - intros [= <-]. by constructor.
  - destruct (remove_first h r buf) as [b'|]; [|done]. cbn. intros [= <-].
    constructor. by apply IH.
Qed.

Lemma process_buffered_shrinks E ct r w :
  message_buffer (self (exec (process_buffered E ct r) w)) `sublist_of` message_buffer (self w).
Proof.
  unfold exec. rewrite process_buffered_eq.
  destruct (heap w !! r) as [msg|]; [|done].
  destruct (msg_attempts msg <? 5).
  - cbv zeta. destruct (network E (conn_no w)), (frame_of (msg_message msg)); try done.
    destruct (remove_first _ _ _) as [b|] eqn:Hb; [|done]. cbn. by eapply remove_first_subset.
  - destruct (3600 <? _); [|done].
    destruct (remove_first _ _ _) as [b|] eqn:Hb; [|done]. cbn. by eapply remove_first_subset.
Qed.

(** A redelivery cycle knows nothing of the registry: whatever the
    deliveries did, the node is as before except for the buffer (no failure
    is counted, no peer is deactivated or refreshed, nothing is added to
    [known_messages]), and the buffer only loses entries, keeping the order
    of the others; no dict is created. *)
Theorem redelivery_leaves_registry_alone E w :
  let w' := exec (_handle_message_buffer_cycle E) w in
  self w' = set_message_buffer (message_buffer (self w')) (self w)
  ∧ message_buffer (self w') `sublist_of` message_buffer (self w)
  ∧ length (heap w') = length (heap w).
Proof.
  cbv zeta. split_and!.
  - destruct (deliver_cycle_frame E w) as [b ->]. done.
  - unfold exec. rewrite handle_message_buffer_cycle_eq.
    apply (for_each_exec_ind
             (λ w0, message_buffer (self w0) `sublist_of` message_buffer (self w))); [|done].
    intros r w0 Hw0. etrans; [apply process_buffered_shrinks|done].
  - unfold exec. rewrite handle_message_buffer_cycle_eq.
    apply (for_each_exec_ind (λ w0, length (heap w0) = length (heap w))); [|done].
    intros r w0 Hw0.
    destruct (process_buffered_effects E (time_at E (clock_no w)) r w0) as (_ & Hlen & _).
    congruence.
Qed.

Section Drain.

Context (E : Env).

Lemma remove_first_head h r rest : remove_first h r (r :: rest) = Some rest.
Proof. cbn. by rewrite bool_decide_eq_true_2 by (by left). Qed.

Lemma frames_app tr1 tr2 : frames (tr1 ++ tr2) = frames tr1 ++ frames tr2.
Proof. apply omap_app. Qed.

Lemma drain_spec ct l : ∀ w,
  (∀ k, (conn_no w ≤ k)%nat → network E k = Completed) →
  message_buffer (self w) = l →
  Forall (deliverable (heap w)) l →
  ∃ w' evs, for_each l (process_buffered E ct) w = (Ok tt, w')
    ∧ self w' = set_message_buffer [] (self w)
    ∧ heap w' = heap w
    ∧ trace w' = trace w ++ evs
    ∧ frames evs = omap (frame_for (heap w)) l.
Proof.
  induction l as [|r l IH]; intros w Hup Hbuf Hall.
  - exists w, []. rewrite app_nil_r. split_and!; try done.
    rewrite <- Hbuf. by destruct w as [[] ?].
  - apply Forall_cons in Hall as [(msg & f & Hr & Hlt & Hf) Hall].
    cbn [for_each]. unfold mbind, M_bind at 1. rewrite process_buffered_eq, Hr.
    destruct (Z.ltb_spec (msg_attempts msg) 5); [|lia]. cbv zeta.
    rewrite (Hup (conn_no w)) by done. rewrite Hf, Hbuf, remove_first_head.
    match goal with |- context [for_each l _ ?w1] =>
      destruct (IH w1) as (w' & evs & -> & Hself & Hheap & Htr & Hfr) end.
    { intros k Hk. apply Hup. cbn in Hk. lia. }
    { done. }
    { done. }
    cbn in Hself, Hheap, Htr, Hfr.
    exists w', ([EvRedeliver r; EvConnect (msg_peer msg) true; EvFrame (msg_peer msg) f] ++ evs).
    split; [done|]. split_and!; try done.
    + by rewrite Htr, <- !app_assoc.
    + rewrite frames_app, Hfr. cbn. unfold frame_for at 2. rewrite Hr. cbn. by rewrite Hf.
Qed.

Lemma backoff_spec ct l : ∀ w,
  (∀ k, (conn_no w ≤ k)%nat → network E k = Refused) →
  NoDup l →
  Forall (λ r, ∃ msg, heap w !! r = Some msg ∧ msg_attempts msg < 5) l →
  ∃ w' evs, for_each l (process_buffered E ct) w = (Ok tt, w')
    ∧ self w' = self w
    ∧ length (heap w') = length (heap w)
    ∧ (∀ r msg, heap w !! r = Some msg →
         heap w' !! r = Some (if decide (r ∈ l) then set_attempts (msg_attempts msg + 1) msg
                              else msg))
    ∧ trace w' = trace w ++ evs
    ∧ frames evs = []
    ∧ sleeps evs = omap (λ r, (λ msg, 1000 * 2 ^ (msg_attempts msg + 1)) <$> heap w !! r) l.
Proof.
  induction l as [|r l IH]; intros w Hdown Hnd Hall.
  - exists w, []. rewrite app_nil_r. split_and!; try done.
  - apply Forall_cons in Hall as [(msg & Hr & Hlt) Hall].
    apply NoDup_cons in Hnd as [Hnotin Hnd].
    cbn [for_each]. unfold mbind, M_bind at 1. rewrite process_buffered_eq, Hr.
    destruct (Z.ltb_spec (msg_attempts msg) 5); [|lia]. cbv zeta.
    rewrite (Hdown (conn_no w)) by done.
    match goal with |- context [for_each l _ ?w1] =>
      destruct (IH w1) as (w' & evs & -> & Hself & Hlen & Hheap & Htr & Hfr & Hsl) end.
    { intros k Hk. apply Hdown. cbn in Hk. lia. }
    { done. }
    { eapply Forall_forall. intros x Hx. rewrite Forall_forall in Hall.
      destruct (Hall x Hx) as (m & Hm & Hm5). exists m. split; [|done]. cbn.
      rewrite list_lookup_insert_ne; [done|]. by intros ->. }
    cbn in Hself, Hlen, Hheap, Htr, Hfr, Hsl.
    exists w', ([EvRedeliver r; EvConnect (msg_peer msg) false;
                 EvSleep (1000 * 2 ^ (msg_attempts msg + 1))] ++ evs).
    split; [done|]. split; [done|]. split; [by rewrite Hlen, length_insert|].
    split; [|split; [by rewrite Htr, <- !app_assoc|split; [by rewrite frames_app, Hfr|]]].
    + intros r0 m0 Hr0. destruct (decide (r0 = r)) as [->|Hne].
      * rewrite Hr in Hr0. injection Hr0 as <-.
        rewrite (Hheap r (set_attempts (msg_attempts msg + 1) msg)).
        2:{ apply list_lookup_insert_eq. by eapply lookup_lt_Some. }
        rewrite decide_False by done.
        destruct (decide (r ∈ r :: l)) as [_|Hn]; [done|]. destruct Hn. by left.
      * rewrite (Hheap r0 m0) by (by rewrite list_lookup_insert_ne).
        destruct (decide (r0 ∈ l)) as [Hin|Hin], (decide (r0 ∈ r :: l)) as [Hin'|Hin'];
          try done.
        -- destruct Hin'. by right.
        -- apply elem_of_cons in Hin' as [?|?]; done.
    + unfold sleeps in *. rewrite omap_app, Hsl. cbn. rewrite Hr. cbn. f_equal. clear -Hnotin.
      induction l as [|x l IH]; [done|]. apply not_elem_of_cons in Hnotin as [Hx Hl].
      cbn. rewrite list_lookup_insert_ne by done. by rewrite IH.
Qed.

End Drain.

(** When the network is up, one redelivery cycle drains the buffer: if
    every connection completes and every buffered dict is below 5 attempts
    with a payload that fits a frame, the cycle returns with the buffer
    empty and no dict changed, and it has written exactly one frame per
    buffered dict, to its peer, in buffer order. *)
Theorem redelivery_drains_buffer E w :
  (∀ k, (conn_no w ≤ k)%nat → network E k = Completed) →
  Forall (deliverable (heap w)) (message_buffer (self w)) →
  ∃ w', _handle_message_buffer_cycle E w = (Ok tt, w')
    ∧ message_buffer (self w') = []
    ∧ heap w' = heap w
    ∧ frames (new_events w w') = omap (frame_for (heap w)) (message_buffer (self w)).
Proof.
  intros Hup Hall. rewrite handle_message_buffer_cycle_eq.
  destruct (drain_spec E (time_at E (clock_no w)) (message_buffer (self w)) (next_clock w))
    as (w' & evs & Heq & Hself & Hheap & Htr & Hfr); try done.
  exists w'. split; [done|]. split_and!.
  - by rewrite Hself.
  - done.
  - unfold new_events. cbn in Htr. by rewrite Htr, drop_app_length.
Qed.

Lemma redelivery_drains_buffer_witness :
  ∃ w', _handle_message_buffer_cycle (env_up 30) two_pending = (Ok tt, w')
    ∧ message_buffer (self w') = []
    ∧ heap w' = heap two_pending
    ∧ frames (new_events two_pending w')
      = omap (frame_for (heap two_pending)) (message_buffer (self two_pending)).
Proof.
  apply (redelivery_drains_buffer (env_up 30) two_pending).
  - intros k _. reflexivity.
  - repeat constructor; eexists _, _; (split_and!; [reflexivity|cbn; lia|reflexivity]).
Defined.

(** When the network is down, one redelivery cycle counts an attempt on
    every dict and backs off: if every connection is refused and the
    buffered dicts are distinct and below 5 attempts, the cycle returns with
    the buffer as it was; every buffered dict has one more attempt and is
    otherwise unchanged; no frame was written; and the cycle slept, for each
    dict in buffer order, [2 ** attempts] seconds with the new count. *)
Theorem redelivery_backs_off E w :
  (∀ k, (conn_no w ≤ k)%nat → network E k = Refused) →
  NoDup (message_buffer (self w)) →
  Forall (λ r, ∃ msg, heap w !! r = Some msg ∧ msg_attempts msg < 5) (message_buffer (self w)) →
  ∃ w', _handle_message_buffer_cycle E w = (Ok tt, w')
    ∧ message_buffer (self w') = message_buffer (self w)
    ∧ (∀ r msg, heap w !! r = Some msg →
         heap w' !! r
         = Some (if decide (r ∈ message_buffer (self w))
                 then set_attempts (msg_attempts msg + 1) msg else msg))
    ∧ frames (new_events w w') = []
    ∧ sleeps (new_events w w')
      = omap (λ r, (λ msg, 1000 * 2 ^ (msg_attempts msg + 1)) <$> heap w !! r)
          (message_buffer (self w)).
Proof.
  intros Hdown Hnd Hall. rewrite handle_message_buffer_cycle_eq.
  destruct (backoff_spec E (time_at E (clock_no w)) (message_buffer (self w)) (next_clock w))
    as (w' & evs & Heq & Hself & _ & Hheap & Htr & Hfr & Hsl); try done.
  exists w'. split; [done|]. cbn in Htr.
  assert (new_events w w' = evs) as -> by (unfold new_events; by rewrite Htr, drop_app_length).
  split_and!; try done. by rewrite Hself.
Qed.

Lemma redelivery_backs_off_witness :
  ∃ w', _handle_message_buffer_cycle (env_down 30) two_pending = (Ok tt, w')
    ∧ message_buffer (self w') = message_buffer (self two_pending)
    ∧ (∀ r msg, heap two_pending !! r = Some msg →
         heap w' !! r
         = Some (if decide (r ∈ message_buffer (self two_pending))
                 then set_attempts (msg_attempts msg + 1) msg else msg))
    ∧ frames (new_events two_pending w') = []
    ∧ sleeps (new_events two_pending w')
      = omap (λ r, (λ msg, 1000 * 2 ^ (msg_attempts msg + 1)) <$> heap two_pending !! r)
          (message_buffer (self two_pending)).
Proof.
  apply (redelivery_backs_off (env_down 30) two_pending).
  - intros k _. reflexivity.
  - cbn. compute_done.
  - repeat constructor; eexists; (split; [reflexivity|cbn; lia]).
Defined.

Example redelivery_backoff_run :
  sleeps (trace (exec (_handle_message_buffer_cycle (env_down 30)) two_pending)) = [2000; 8000]
  ∧ frames (trace (exec (_handle_message_buffer_cycle (env_up 30)) two_pending))
    = [("peer-a"%string, [Byte.x00; Byte.x00; Byte.x00; Byte.x02; Byte.x28; Byte.x68]);
       ("peer-b"%string, [Byte.x00; Byte.x00; Byte.x00; Byte.x02; Byte.x28; Byte.x68])].
Proof. split; vm_compute; reflexivity. Qed.

(** ** More on [start] *)

Section StartMore.

Context (E : Env).

Lemma poll_bootstrap_tasks polls w :
  tasks (exec (poll_bootstrap polls) w) = tasks w.
Proof.
  revert w. induction polls as [|[] polls IH]; intros w; try done.
  unfold exec in *. cbn. unfold mbind, M_bind, sleep, emit. cbn. by rewrite IH.
Qed.

Lemma try_port_more p w :
  ∃ w', try_port E p w = (Ok (port_usable E p), w')
    ∧ same_config w w'
    ∧ is_running (self w') = port_usable E p
    ∧ tasks w' = (tasks w + if dht_listen_ok E p then 3 else 0)%nat.
Proof.
  unfold try_port, port_usable, mbind, M_bind at 1, _cleanup_port.
  set (w0 := (if port_free E p then mret () else sleep 1000) w).
  assert (Hw0 : w0.1 = Ok tt ∧ self w0.2 = self w ∧ tasks w0.2 = tasks w).
  { subst w0. by destruct (port_free E p). }
  destruct w0 as [r0 w0]. cbn in Hw0. destruct Hw0 as (-> & Hself0 & Htasks0).
  unfold try_except, mbind, M_bind, dht_listen.
  destruct (dht_listen_ok E p); cbn [andb].
  - unfold modify, create_tasks, sleep, emit, _verify_port_active. cbn [fst snd].
    match goal with |- context [poll_bootstrap _ ?w1] =>
      destruct (poll_bootstrap_spec (bootstrap_polls E p) w1) as (w2 & Hpoll & Hself & Hdht);
      pose proof (poll_bootstrap_tasks (bootstrap_polls E p) w1) as Htasks
    end.
    unfold exec in Htasks. rewrite Hpoll in *. cbn in Hself, Hdht, Htasks.
    destruct (existsb id (bootstrap_polls E p)).
    + exists w2. split; [done|]. unfold same_config. rewrite Hself, Htasks. cbn.
      rewrite Hself0, Htasks0. done.
    + unfold raise, dht_stop. destruct (dht_stop_ok E); eexists; (split; [reflexivity|]);
        unfold same_config; cbn; rewrite Hself, Htasks; cbn; by rewrite Hself0, Htasks0.
  - unfold raise, dht_stop. destruct (dht_stop_ok E); eexists; (split; [reflexivity|]);
      unfold same_config; cbn; rewrite Hself0, Htasks0; split_and!; try done; lia.
Qed.

Lemma start_ports_more offsets : ∀ w,
  let ports := (λ o, base_port (self w) + o + 1) <$> offsets in
  ∃ r w', start_ports E offsets w = (r, w')
    ∧ same_config w w'
    ∧ tasks w'
      = (tasks w
         + 3 * length (List.filter (dht_listen_ok E) (tried_ports (port_usable E) ports)))%nat
    ∧ match r with
      | Ok _ => Exists (λ p, port_usable E p = true) ports ∧ is_running (self w') = true
      | Raise e =>
          e = exhausted (self w)
          ∧ Forall (λ p, port_usable E p = false) ports
          ∧ (offsets ≠ [] → is_running (self w') = false)
      end.
Proof.
  induction offsets as [|o offsets IH]; intros w; cbv zeta.
  - eexists _, w. split; [reflexivity|]. cbn. split_and!; try done; lia.
  - cbn [start_ports]. unfold mbind, M_bind at 1, gets. cbn [fst snd].
    unfold mbind, M_bind at 1.
    destruct (try_port_more (base_port (self w) + o + 1) w) as (w1 & -> & [Hb Hn] & Hrun & Htasks).
    cbn [fmap list_fmap tried_ports].
    destruct (port_usable E (base_port (self w) + o + 1)) eqn:Hu.
    + eexists _, w1. split; [reflexivity|]. split; [done|]. split.
      * rewrite Htasks. cbn. destruct (dht_listen_ok E _); cbn; lia.
      * split; [|done]. by left.
    + destruct (IH w1) as (r & w' & Heq & [Hb' Hn'] & Htasks' & Hr).
      exists r, w'. split; [done|]. split; [split; congruence|]. rewrite Hb in *. split.
      * rewrite Htasks', Htasks. cbn [List.filter].
        destruct (dht_listen_ok E _); cbn [length]; lia.
      * destruct r as [[]|e].
        -- destruct Hr as [Hex Hr]. split; [by right|done].
        -- destruct Hr as (-> & Hall & Hr). split_and!.
           ++ unfold exhausted. by rewrite Hb, Hn.
           ++ by constructor.
           ++ intros _. destruct offsets as [|o' offsets']; [|by apply Hr].
              cbn in Heq. unfold mbind, M_bind, gets, raise in Heq. cbn in Heq.
              injection Heq as <-. by rewrite Hrun.
Qed.

End StartMore.

(** [_start_http_server], by cases. *)
Lemma start_http_server_eq E w :
  _start_http_server E w =
  if _http_runner (self w) then (Ok true, w)
  else if http_setup_ok E then (Ok true, with_self (set_http_runner true) w)
  else if runner_cleanup_ok E
       then (Ok false, with_self (set_http_runner false) (with_self (set_http_runner true) w))
       else (Raise RunnerError, with_self (set_http_runner true) w).
Proof.
  unfold _start_http_server, mbind, M_bind, gets, modify, try_except, raise, runner_cleanup.
  cbn. destruct (_http_runner (self w)); [done|].
  destruct (http_setup_ok E); [done|]. cbn. by destruct (runner_cleanup_ok E).
Qed.

(** [start] fails in two ways only.  Either the health-check server could
    not be set up and its [cleanup()] raised: that exception leaves [start]
    before any port is tried, with [_http_runner] still set.  Or no
    candidate port passed: the [RuntimeError] names the range, and if there
    was a candidate at all the node is not running. *)
Theorem start_failure_modes E w e w' :
  start E w = (Raise e, w') →
  (e = RunnerError
   ∧ http_setup_ok E = false ∧ runner_cleanup_ok E = false
   ∧ w' = with_self (set_http_runner true) w)
  ∨ (e = exhausted (self w)
     ∧ Forall (λ p, port_usable E p = false) (candidate_ports (self w))
     ∧ (0 < max_retry_ports (self w) → is_running (self w') = false)).
Proof.
  unfold start. unfold mbind, M_bind at 1.
  destruct (_start_http_server E w) as [[b|e0] w0] eqn:Hhttp.
  - pose proof (start_http_server_config E w _ _ Hhttp) as [Hb Hn].
    unfold mbind, M_bind at 1, gets. cbn [fst snd].
    destruct (start_ports_more E (Z.of_nat <$> seq 0 (Z.to_nat (max_retry_ports (self w0)))) w0)
      as (r & w1 & -> & _ & _ & Hr).
    intros [= -> <-]. right. destruct Hr as (-> & Hall & Hrun). split_and!.
    + unfold exhausted. by rewrite Hb, Hn.
    + unfold candidate_ports. by rewrite <- Hb, <- Hn.
    + intros Hpos. apply Hrun. rewrite Hn.
      destruct (Z.to_nat (max_retry_ports (self w))) eqn:Hz; [lia|done].
  - rewrite start_http_server_eq in Hhttp.
    destruct (_http_runner (self w)); [done|]. destruct (http_setup_ok E); [done|].
    destruct (runner_cleanup_ok E); [done|]. injection Hhttp as <- <-.
    intros [= <- <-]. by left.
Qed.

Lemma start_failure_modes_witness :
  let w := new_world (new_mesh 12345 5) in
  let w' := (start env_no_port w).2 in
  (exhausted (self w) = RunnerError
   ∧ http_setup_ok env_no_port = false ∧ runner_cleanup_ok env_no_port = false
   ∧ w' = with_self (set_http_runner true) w)
  ∨ (exhausted (self w) = exhausted (self w)
     ∧ Forall (λ p, port_usable env_no_port p = false) (candidate_ports (self w))
     ∧ (0 < max_retry_ports (self w) → is_running (self w') = false)).
Proof.
  intros w w'. apply (start_failure_modes env_no_port w (exhausted (self w)) w').
  vm_compute. reflexivity.
Defined.

(** [start] creates its three background tasks each time [dht.listen]
    succeeds on a candidate, before it verifies the port, and cancels none:
    after [start], whether it returned or raised, three tasks have been
    created for every candidate it got to on which [dht.listen] succeeded,
    those whose verification failed included. *)
Theorem start_creates_tasks_per_listen E w started w0 :
  _start_http_server E w = (Ok started, w0) →
  tasks (exec (start E) w)
  = (tasks w
     + 3 * length (List.filter (dht_listen_ok E)
                     (tried_ports (port_usable E) (candidate_ports (self w)))))%nat.
Proof.
  intros Hhttp. pose proof (start_http_server_config E w _ _ Hhttp) as [Hb Hn].
  assert (Htasks0 : tasks w0 = tasks w).
  { rewrite start_http_server_eq in Hhttp.
    destruct (_http_runner (self w)); [by injection Hhttp as _ <-|].
    destruct (http_setup_ok E); [by injection Hhttp as _ <-|].
    destruct (runner_cleanup_ok E); [by injection Hhttp as _ <-|done]. }
  unfold exec, start. unfold mbind, M_bind at 1. rewrite Hhttp.
  unfold mbind, M_bind at 1, gets. cbn [fst snd].
  destruct (start_ports_more E (Z.of_nat <$> seq 0 (Z.to_nat (max_retry_ports (self w0)))) w0)
    as (r & w1 & -> & _ & Htasks & _).
  cbn [snd]. rewrite Htasks, Htasks0. unfold candidate_ports. by rewrite Hb, Hn.
Qed.

Lemma start_creates_tasks_per_listen_witness :
  tasks (exec (start env_two_unverified) (new_world (new_mesh 12345 5))) = 9%nat.
Proof.
  exact (start_creates_tasks_per_listen env_two_unverified (new_world (new_mesh 12345 5))
           true _ eq_refl).
Defined.

(** Once [_http_runner] is set, [_start_http_server] answers [True]
    without doing anything, whether or not a server is running.  So after
    any call that did not answer [False], also one that raised because the
    clean-up of a failed set-up raised, every further call answers [True]
    and changes nothing. *)
Theorem http_server_reports_success_once_set E w r w1 :
  _start_http_server E w = (r, w1) →
  r ≠ Ok false →
  _http_runner (self w1) = true ∧ _start_http_server E w1 = (Ok true, w1).
Proof.
  rewrite !start_http_server_eq.
  destruct (_http_runner (self w)) eqn:Hr.
  - intros [= <- <-] _. by rewrite Hr.
  - destruct (http_setup_ok E); [by intros [= <- <-]|].
    destruct (runner_cleanup_ok E); [by intros [= <- <-]|]. by intros [= <- <-].
Qed.

Lemma http_server_reports_success_once_set_witness :
  let w := new_world (new_mesh 12345 5) in
  let w1 := with_self (set_http_runner true) w in
  _start_http_server env_http_broken w = (Raise RunnerError, w1)
  ∧ _http_runner (self w1) = true
  ∧ _start_http_server env_http_broken w1 = (Ok true, w1).
Proof.
  intros w w1. split; [reflexivity|].
  apply (http_server_reports_success_once_set env_http_broken w (Raise RunnerError) w1);
    [reflexivity|discriminate].
Defined.

(** ** Heartbeats that are answered *)

Section Answered.

Context (E : Env).

Lemma heartbeat_peers_answered ps : ∀ w,
  (∀ k, (conn_no w ≤ k)%nat → network E k = Completed) →
  ∃ ps' w', heartbeat_peers E ps w = (Ok ps', w')
    ∧ (conn_no w ≤ conn_no w')%nat ∧ (clock_no w ≤ clock_no w')%nat
    ∧ Forall2 (refreshed E (clock_no w) (clock_no w')) ps ps'.
Proof.
  induction ps as [|[p s] ps IH]; intros w Hup.
  - exists [], w. split_and!; done.
  - cbn [heartbeat_peers]. unfold mbind, M_bind at 1. rewrite heartbeat_peer_eq.
    rewrite (Hup (conn_no w)) by done.
    destruct (is_active s) eqn:Ha; cbv zeta; unfold mbind, M_bind at 1.
    all: match goal with |- context [heartbeat_peers E _ ?w1] =>
           destruct (IH w1) as (ps' & w' & -> & Hconn & Hclk & Hrel);
             [intros k Hk; apply Hup; cbn in Hk; lia|]
         end.
    all: cbn in Hconn, Hclk; eexists _, w'; (split; [reflexivity|]).
    all: split_and!; try lia.
    + constructor.
      * split; [done|]. cbn. rewrite Ha. exists (clock_no w). split; [lia|].
        unfold record_heartbeat, set_failed_attempts, set_last_seen. cbn. by rewrite Ha.
      * eapply Forall2_impl; [exact Hrel|]. intros [q t] [q' t'] [Hq Hr]. split; [done|].
        cbn in *. destruct (is_active t); [|done]. destruct Hr as (k & Hk & ->).
        exists k. split; [lia|done].
    + constructor; [|done]. split; [done|]. cbn. by rewrite Ha.
Qed.

Lemma kept_by_maintenance ct timeout (ps : list (string * PeerState)) p t :
  (p, {| last_seen := t; failed_attempts := 0; is_active := true |}) ∈ ps →
  ct - t < timeout →
  (p, {| last_seen := t; failed_attempts := 0; is_active := true |})
  ∈ prod_map id decay <$> List.filter (fresh_enough ct timeout) ps.
Proof.
  intros Hin Hfresh. apply list_elem_of_fmap.
  exists (p, {| last_seen := t; failed_attempts := 0; is_active := true |}).
  split; [done|]. apply list_elem_of_In, filter_In. split; [by apply list_elem_of_In|].
  unfold fresh_enough. cbn. by apply Z.ltb_lt.
Qed.

End Answered.

(** A peer that answers is kept.  If every connection completes, a
    heartbeat cycle leaves every active peer with [failed_attempts = 0] and
    [last_seen] a clock reading of that cycle; and if the maintenance cycle
    that follows reads a clock less than [peer_timeout] past those readings,
    it keeps every such peer as the heartbeat left it.  Inactive peers get
    no heartbeat. *)
Theorem answering_peers_stay E w :
  (∀ k, (conn_no w ≤ k)%nat → network E k = Completed) →
  let w1 := run E [OpHeartbeat] w in
  let w2 := run E [OpHeartbeat; OpMaintenance] w in
  (∀ j, (clock_no w ≤ j < clock_no w1)%nat →
        time_at E (clock_no w1) - time_at E j < peer_timeout (self w)) →
  ∀ p s, (p, s) ∈ peers (self w) → is_active s = true →
    ∃ j, (clock_no w ≤ j < clock_no w1)%nat
         ∧ (p, {| last_seen := time_at E j; failed_attempts := 0; is_active := true |})
           ∈ peers (self w1)
         ∧ (p, {| last_seen := time_at E j; failed_attempts := 0; is_active := true |})
           ∈ peers (self w2).
Proof.
  intros Hup w1 w2 Hfresh p s Hin Ha.
  destruct (heartbeat_peers_answered E (peers (self w)) w Hup)
    as (ps' & w' & Heq & _ & _ & Hrel).
  assert (Hw1 : w1 = with_self (set_peers ps') w').
  { subst w1. cbn. unfold exec, _heartbeat_cycle, mbind, M_bind, gets, modify.
    by rewrite Heq. }
  assert (Hclk : clock_no w1 = clock_no w') by (by rewrite Hw1).
  assert (Hto : peer_timeout (self w1) = peer_timeout (self w)).
  { destruct (heartbeat_cycle_spec E w) as (ps'' & w'' & evs & Heq' & Hself & _).
    subst w1. cbn. unfold exec. rewrite Heq'. cbn. by rewrite Hself. }
  apply list_elem_of_lookup in Hin as [i Hi].
  destruct (Forall2_lookup_l _ _ _ _ _ Hrel Hi) as ([p' s'] & Hi' & Hp & Hr).
  cbn in Hp, Hr. subst p'. rewrite Ha in Hr. destruct Hr as (j & Hj & ->).
  exists j. rewrite Hclk. split; [done|].
  assert (Hin1 : (p, {| last_seen := time_at E j; failed_attempts := 0; is_active := true |})
                 ∈ peers (self w1)).
  { rewrite Hw1. cbn. by eapply list_elem_of_lookup_2. }
  split; [done|].
  change w2 with (run E [OpMaintenance] w1). clear Hw1. clearbody w1.
  cbn. unfold exec. cbn [op_action].
  rewrite peer_maintenance_cycle_eq. cbn. apply kept_by_maintenance; [done|].
  rewrite Hto. apply Hfresh. by rewrite Hclk.
Qed.

Lemma answering_peers_stay_witness :
  let E := env_up 100 in
  let w := node [("peer-a", {| last_seen := 0; failed_attempts := 2; is_active := true |})] in
  let w1 := run E [OpHeartbeat] w in
  let w2 := run E [OpHeartbeat; OpMaintenance] w in
  ∃ j, (clock_no w ≤ j < clock_no w1)%nat
       ∧ ("peer-a", {| last_seen := time_at E j; failed_attempts := 0; is_active := true |})
         ∈ peers (self w1)
       ∧ ("peer-a", {| last_seen := time_at E j; failed_attempts := 0; is_active := true |})
         ∈ peers (self w2).
Proof.
  intros E w w1 w2.
  apply (answering_peers_stay E w (λ _ _, eq_refl)
           (λ j _, eq_refl : time_at E (clock_no w1) - time_at E j < peer_timeout (self w))
           "peer-a" {| last_seen := 0; failed_attempts := 2; is_active := true |}).
  - apply list_elem_of_singleton. reflexivity.
  - reflexivity.
Defined.

(** ** Waiting for a port *)

Lemma wait_active_turns_spec E probe port end_time n : ∀ turns k w,
  (∀ j, (j < n)%nat → time_at E (clock_no w + j) < end_time) →
  end_time ≤ time_at E (clock_no w + n) →
  (n < turns)%nat →
  ∃ w', wait_active_turns E probe port end_time turns k w
        = (Ok (Some (existsb (probe port) (seq k n))), w')
    ∧ self w' = self w
    ∧ (length (trace w') ≤ length (trace w) + n)%nat.
Proof.
  induction n as [|n IH]; intros turns k w Hbefore Hend Hturns.
  - destruct turns as [|turns]; [lia|]. cbn. unfold mbind, M_bind, now.
    rewrite Nat.add_0_r in Hend. destruct (Z.ltb_spec (time_at E (clock_no w)) end_time); [lia|].
    eexists. split; [reflexivity|]. cbn. split; [done|lia].
  - destruct turns as [|turns]; [lia|]. cbn [wait_active_turns seq existsb].
    unfold mbind, M_bind at 1. unfold now at 1.
    specialize (Hbefore 0%nat ltac:(lia)) as H0. rewrite Nat.add_0_r in H0.
    destruct (Z.ltb_spec (time_at E (clock_no w)) end_time); [|lia].
    destruct (probe port k); cbn [orb].
    + eexists. split; [reflexivity|]. cbn. split; [done|lia].
    + unfold mbind, M_bind, sleep, emit.
      destruct (IH turns (S k) (log_event (EvSleep 1000) (next_clock w))) as (w' & -> & Hs & Hl).
      * intros j Hj. cbn. replace (S (clock_no w + j)) with (clock_no w + S j)%nat by lia.
        apply Hbefore. lia.
      * cbn. by replace (S (clock_no w + n)) with (clock_no w + S n)%nat by lia.
      * lia.
      * exists w'. split; [done|]. split; [done|]. cbn in Hl. rewrite length_app in Hl.
        cbn in Hl. lia.
Qed.

(** [_wait_for_port_active] answers by its deadline.  If the clock is
    below the deadline at the first [n] checks and has reached it at the
    next one, the loop ends within [n + 1] turns, having slept at most [n]
    times, and answers [True] exactly if one of the [n] connections made
    before the deadline succeeded. *)
Theorem wait_for_port_active_by_deadline E probe port timeout (n turns : nat) w :
  let end_time := time_at E (clock_no w) + timeout in
  (∀ j, (j < n)%nat → time_at E (clock_no w + 1 + j) < end_time) →
  end_time ≤ time_at E (clock_no w + 1 + n) →
  (n < turns)%nat →
  ∃ w', _wait_for_port_active E probe turns port timeout w
        = (Ok (Some (existsb (probe port) (seq 0 n))), w')
    ∧ self w' = self w
    ∧ (length (trace w') ≤ length (trace w) + n)%nat.
Proof.
  intros end_time Hbefore Hend Hturns.
  unfold _wait_for_port_active, mbind, M_bind. unfold now at 1.
  destruct (wait_active_turns_spec E probe port end_time n turns 0 (next_clock w))
    as (w' & Heq & Hs & Hl).
  - intros j Hj. cbn. replace (S (clock_no w + j)) with (clock_no w + 1 + j)%nat by lia.
    by apply Hbefore.
  - cbn. by replace (S (clock_no w + n)) with (clock_no w + 1 + n)%nat by lia.
  - done.
  - exists w'. split; [exact Heq|]. done.
Qed.

Lemma wait_for_port_active_by_deadline_witness :
  let E := sim_env (λ _, Completed) Z.of_nat in
  let probe := λ (_ : Z) (k : nat), bool_decide (k = 1%nat) in
  ∃ w', _wait_for_port_active E probe 5 12346 3 (node []) = (Ok (Some true), w')
    ∧ self w' = self (node [])
    ∧ (length (trace w') ≤ length (trace (node [])) + 2)%nat.
Proof.
  intros E probe.
  apply (wait_for_port_active_by_deadline E probe 12346 3 2 5 (node [])).
  - intros j Hj. cbn. lia.
  - cbn. lia.
  - lia.
Defined.

(** * The application around the mesh *)

(** ** SecureMemory *)

Section MemoryFacts.

Context (memzero : bytes → option bytes).

Lemma each_cons {S X A} (body : A → Prog S X unit) x l s :
  each (x :: l) body s =
  match body x s with
  | (Return _, s1) => each l body s1
  | (Throw e, s1) => (Throw e, s1)
  end.
Proof. cbn. unfold mbind, Prog_bind. by destruct (body x s) as [[]]. Qed.

Lemma memory_remove_head a data rest : Memory.remove a data (data :: rest) = Some rest.
Proof. cbn. destruct (decide _) as [|Hn]; [done|]. destruct Hn. by left. Qed.

Lemma memory_contains_remove a l data :
  Memory.contains a l data = true ↔ is_Some (Memory.remove a data l).
Proof.
  unfold Memory.contains. rewrite bool_decide_eq_true.
  induction l as [|x l IH]; cbn.
  - split; [by intros ?%Exists_nil|by intros [? [=]]].
  - rewrite Exists_cons. destruct (decide (Memory.same a data x)) as [Hx|Hx].
    + split; [by eexists|by left].
    + rewrite fmap_is_Some. rewrite <- IH. tauto.
Qed.

(** One call of [secure_wipe], by cases. *)
Lemma secure_wipe_eq data m :
  Memory.secure_wipe memzero data m =
  let m1 := match Memory.remove (Memory.arrays m) data (Memory.protected_blocks m) with
            | Some l' => Memory.set_protected_blocks l' m
            | None => m
            end in
  match Memory.arrays m !! data with
  | None => (Throw Memory.KeyError, m1)
  | Some content =>
      match memzero content with
      | Some zeroed => (Return tt, Memory.set_array data zeroed m1)
      | None => (Throw Memory.SodiumError, m1)
      end
  end.
Proof.
  unfold Memory.secure_wipe, mbind, Prog_bind, read. cbn.
  pose proof (memory_contains_remove (Memory.arrays m) (Memory.protected_blocks m) data) as Hc.
  destruct (Memory.contains _ _ _).
  - destruct (proj1 Hc eq_refl) as [l' Hl']. rewrite Hl'. cbn.
    destruct (Memory.arrays m !! data) as [content|]; [|done].
    by destruct (memzero content).
  - destruct (Memory.remove _ _ _) as [l'|] eqn:Hl'.
    { destruct Hc as [_ Hc]. by specialize (Hc ltac:(by eexists)). }
    cbn. destruct (Memory.arrays m !! data) as [content|]; [|done].
    by destruct (memzero content).
Qed.

Lemma wipe_each_spec l :
  zeroes memzero →
  ∀ m, Memory.protected_blocks m = l →
       Forall (λ r, is_Some (Memory.arrays m !! r)) l →
       ∃ m', each l (Memory.secure_wipe memzero) m = (Return tt, m')
         ∧ Memory.protected_blocks m' = []
         ∧ length (Memory.arrays m') = length (Memory.arrays m)
         ∧ ∀ r content, Memory.arrays m !! r = Some content →
             Memory.arrays m' !! r
             = Some (if decide (r ∈ l) then replicate (length content) Byte.x00 else content).
Proof.
  intros Hz. induction l as [|r l IH]; intros m Hl Hvalid.
  - exists m. split_and!; try done.
  - apply Forall_cons in Hvalid as [[content Hr] Hvalid].
    rewrite each_cons, secure_wipe_eq, Hl, memory_remove_head, Hr, Hz. cbv zeta.
    destruct (IH (Memory.set_array r (replicate (length content) Byte.x00)
                    (Memory.set_protected_blocks l m))) as (m' & -> & Hnil & Hlen & Hall).
    { done. }
    { eapply Forall_impl; [exact Hvalid|]. intros x [c Hx]. cbn.
      apply lookup_lt_is_Some. rewrite length_insert. by eapply lookup_lt_Some. }
    exists m'. split; [done|]. split; [done|]. split.
    { rewrite Hlen. cbn. by rewrite length_insert. }
    intros r0 c0 Hr0. destruct (decide (r0 = r)) as [->|Hne].
    + rewrite Hr in Hr0. injection Hr0 as <-.
      rewrite (Hall r (replicate (length content) Byte.x00)).
      2:{ cbn. apply list_lookup_insert_eq. by eapply lookup_lt_Some. }
      rewrite length_replicate.
      destruct (decide (r ∈ r :: l)) as [_|Hn]; [|by destruct Hn; left].
      by destruct (decide _).
    + rewrite (Hall r0 c0) by (cbn; by rewrite list_lookup_insert_ne).
      destruct (decide (r0 ∈ l)) as [Hin|Hin], (decide (r0 ∈ r :: l)) as [Hin'|Hin'];
        try done.
      * destruct Hin'. by right.
      * apply elem_of_cons in Hin' as [?|?]; done.
Qed.

End MemoryFacts.

(** [wipe_all] leaves nothing tracked and nothing unwiped: it returns,
    [protected_blocks] is empty, every block that was tracked holds zeros of
    its old length, and every other bytearray is as it was. *)
Theorem wipe_all_wipes_every_tracked_block memzero m :
  zeroes memzero →
  Forall (λ r, is_Some (Memory.arrays m !! r)) (Memory.protected_blocks m) →
  ∃ m', Memory.wipe_all memzero m = (Return tt, m')
    ∧ Memory.protected_blocks m' = []
    ∧ ∀ r content, Memory.arrays m !! r = Some content →
        Memory.arrays m' !! r
        = Some (if decide (r ∈ Memory.protected_blocks m)
                then replicate (length content) Byte.x00 else content).
Proof.
  intros Hz Hvalid.
  destruct (wipe_each_spec memzero (Memory.protected_blocks m) Hz m eq_refl Hvalid)
    as (m' & Heq & Hnil & _ & Hall).
  exists m'. split_and!; try done.
Qed.

Lemma wipe_all_wipes_every_tracked_block_witness :
  let m := {| Memory.arrays := [[Byte.x6b; Byte.x31]; [Byte.x6b; Byte.x32; Byte.x33]; [Byte.x01]];
              Memory.protected_blocks := [1%nat; 0%nat] |} in
  ∃ m', Memory.wipe_all sim_memzero m = (Return tt, m')
    ∧ Memory.protected_blocks m' = []
    ∧ ∀ r content, Memory.arrays m !! r = Some content →
        Memory.arrays m' !! r
        = Some (if decide (r ∈ Memory.protected_blocks m)
                then replicate (length content) Byte.x00 else content).
Proof.
  intros m. apply (wipe_all_wipes_every_tracked_block sim_memzero m).
  - intros b. reflexivity.
  - repeat constructor; by eexists.
Defined.

Lemma memory_remove_unmatched a data before x after :
  Forall (λ y, ¬ Memory.same a data y) before →
  Memory.same a data x →
  Memory.remove a data (before ++ x :: after) = Some (before ++ after).
Proof.
  intros Hb Hx. induction Hb as [|y before Hy _ IH]; cbn.
  - by rewrite decide_True.
  - rewrite decide_False by done. by rewrite IH.
Qed.

Lemma memory_remove_length a data l l' :
  Memory.remove a data l = Some l' → length l = S (length l').
Proof.
  revert l'. induction l as [|x l IH]; intros l'; cbn; [done|].
  destruct (decide _); [by intros [= <-]|].
  destruct (Memory.remove a data l) as [l0|]; [|done]. cbn. intros [= <-].
  cbn. by rewrite (IH l0).
Qed.

(** Two tracked blocks with the same content are not told apart:
    [secure_wipe] of the later one takes the earlier one off the list and
    zeroes the later one.  The earlier block keeps its content, and since it
    is no longer tracked, [wipe_all] does not reach it either. *)
Theorem wiping_a_copy_untracks_the_original memzero m original copy before after content :
  zeroes memzero →
  Memory.protected_blocks m = before ++ original :: after →
  NoDup (Memory.protected_blocks m) →
  Forall (λ r, is_Some (Memory.arrays m !! r)) (Memory.protected_blocks m) →
  original ≠ copy →
  Memory.arrays m !! original = Some content →
  Memory.arrays m !! copy = Some content →
  Forall (λ x, ¬ Memory.same (Memory.arrays m) copy x) before →
  ∃ m1, Memory.secure_wipe memzero copy m = (Return tt, m1)
    ∧ Memory.protected_blocks m1 = before ++ after
    ∧ Memory.arrays m1 !! original = Some content
    ∧ Memory.arrays m1 !! copy = Some (replicate (length content) Byte.x00)
    ∧ ∃ m2, Memory.wipe_all memzero m1 = (Return tt, m2)
        ∧ Memory.arrays m2 !! original = Some content.
Proof.
  intros Hz Hl Hnd Hvalid Hne Ho Hc Hbefore.
  rewrite secure_wipe_eq, Hl, (memory_remove_unmatched _ _ before original after), Hc, Hz
    by (done || (right; congruence)).
  cbv zeta. eexists. split; [reflexivity|]. split; [done|].
  assert (Hnotin : original ∉ before ++ after).
  { rewrite Hl in Hnd. apply NoDup_app in Hnd as (_ & Hd & Hnd).
    apply NoDup_cons in Hnd as [Hna _]. rewrite elem_of_app. intros [Hin|Hin]; [|done].
    apply (Hd _ Hin). by left. }
  split; [cbn; by rewrite list_lookup_insert_ne|].
  split; [cbn; apply list_lookup_insert_eq; by eapply lookup_lt_Some|].
  match goal with |- context [Memory.wipe_all _ ?m1] =>
    destruct (wipe_each_spec memzero (before ++ after) Hz m1 eq_refl)
      as (m2 & Heq & _ & _ & Hall) end.
  { rewrite Hl in Hvalid. apply Forall_app in Hvalid as [Hv1 Hv2].
    apply Forall_cons in Hv2 as [_ Hv2]. apply Forall_app.
    split; [eapply Forall_impl; [exact Hv1|]|eapply Forall_impl; [exact Hv2|]].
    all: intros x Hx; cbn.
    all: apply lookup_lt_is_Some; rewrite length_insert; by apply lookup_lt_is_Some. }
  exists m2. split; [exact Heq|].
  rewrite (Hall original content) by (cbn; by rewrite list_lookup_insert_ne).
  by rewrite decide_False.
Qed.

Lemma wiping_a_copy_untracks_the_original_witness :
  let secret := String.list_byte_of_string "key" in
  let m := {| Memory.arrays := [secret; secret]; Memory.protected_blocks := [0%nat; 1%nat] |} in
  ∃ m1, Memory.secure_wipe sim_memzero 1 m = (Return tt, m1)
    ∧ Memory.protected_blocks m1 = [1%nat]
    ∧ Memory.arrays m1 !! 0%nat = Some secret
    ∧ Memory.arrays m1 !! 1%nat = Some [Byte.x00; Byte.x00; Byte.x00]
    ∧ ∃ m2, Memory.wipe_all sim_memzero m1 = (Return tt, m2)
        ∧ Memory.arrays m2 !! 0%nat = Some secret.
Proof.
  intros secret m.
  apply (wiping_a_copy_untracks_the_original sim_memzero m 0 1 [] [1%nat] secret).
  - intros b. reflexivity.
  - reflexivity.
  - cbn. compute_done.
  - repeat constructor; by eexists.
  - lia.
  - reflexivity.
  - reflexivity.
  - constructor.
Defined.

Lemma memory_remove_last a data l :
  ∃ l', Memory.remove a data (l ++ [data]) = Some l' ∧ length l' = length l
    ∧ (Forall (λ x, ¬ Memory.same a data x) l → l' = l).
Proof.
  induction l as [|x l (l' & IH & Hlen & Hsame)]; cbn.
  - exists []. by rewrite decide_True by (by left).
  - destruct (decide (Memory.same a data x)) as [Hx|Hx].
    + exists (l ++ [data]). split; [done|]. rewrite length_app. cbn. split; [lia|].
      by intros [? _]%Forall_cons.
    + exists (x :: l'). rewrite IH. cbn. split; [done|]. split; [lia|].
      intros [_ ?]%Forall_cons. by rewrite Hsame.
Qed.

(** What [ChatWindow._clear_chat] does with the text it clears:
    [protect_memory] then [secure_wipe] of the block just made.  The new
    bytearray ends up zeroed, no older bytearray is touched, and as many
    blocks are tracked as before; the tracked list is exactly the old one
    provided no tracked block held the same bytes. *)
Theorem protect_then_wipe memzero data m :
  zeroes memzero →
  ∃ p m1 m2,
    Memory.protect_memory data m = (Return p, m1)
    ∧ Memory.secure_wipe memzero p m1 = (Return tt, m2)
    ∧ Memory.arrays m2 = Memory.arrays m ++ [replicate (length data) Byte.x00]
    ∧ length (Memory.protected_blocks m2) = length (Memory.protected_blocks m)
    ∧ (Forall (λ x, ∃ c, Memory.arrays m !! x = Some c ∧ c ≠ data) (Memory.protected_blocks m) →
       Memory.protected_blocks m2 = Memory.protected_blocks m).
Proof.
  intros Hz.
  destruct (memory_remove_last (Memory.arrays m ++ [data]) (length (Memory.arrays m))
              (Memory.protected_blocks m)) as (l' & Hrm & Hlen & Hsame).
  eexists _, _, _. split; [reflexivity|].
  rewrite secure_wipe_eq. cbn [Memory.arrays Memory.protected_blocks]. rewrite Hrm.
  rewrite lookup_app_r by done. rewrite Nat.sub_diag. cbn [lookup list_lookup].
  rewrite Hz. cbv zeta. split; [reflexivity|]. cbn. split_and!.
  - rewrite insert_app_r_alt by done. by rewrite Nat.sub_diag.
  - done.
  - intros Hdiff. apply Hsame. eapply Forall_impl; [exact Hdiff|].
    intros x (c & Hx & Hc) [->|Heq].
    + apply lookup_lt_Some in Hx. lia.
    + rewrite (lookup_app_l_Some _ _ _ _ Hx) in Heq.
      rewrite lookup_app_r, Nat.sub_diag in Heq by done. cbn in Heq. congruence.
Qed.

Lemma protect_then_wipe_witness :
  let data := String.list_byte_of_string "hi" in
  let m := {| Memory.arrays := [[Byte.x01]]; Memory.protected_blocks := [0%nat] |} in
  ∃ p m1 m2,
    Memory.protect_memory data m = (Return p, m1)
    ∧ Memory.secure_wipe sim_memzero p m1 = (Return tt, m2)
    ∧ Memory.arrays m2 = Memory.arrays m ++ [replicate (length data) Byte.x00]
    ∧ length (Memory.protected_blocks m2) = length (Memory.protected_blocks m)
    ∧ (Forall (λ x, ∃ c, Memory.arrays m !! x = Some c ∧ c ≠ data) (Memory.protected_blocks m) →
       Memory.protected_blocks m2 = Memory.protected_blocks m).
Proof.
  intros data m. apply (protect_then_wipe sim_memzero data m). intros b. reflexivity.
Defined.

(** ** CryptoManager *)

(** [sign_message] needs a key that [generate_keys] has stored: on a new
    manager it raises [ValueError] whatever the library would do; after
    [generate_keys] has returned a pair, it signs with the first component
    of that pair, or raises [ValueError] if that component is empty.
    [verify_signature] never raises and changes nothing, and it answers
    [True] exactly when the library's [verify] returned, whatever it
    returned. *)
Theorem signing_needs_generated_key L :
  (∀ message,
     Crypto.sign_message L message Crypto.new
     = (Throw (Crypto.ValueError "No signing key available"), Crypto.new))
  ∧ (∀ c first second c' message,
       Crypto.generate_keys L c = (Return (first, second), c') →
       (Crypto.sign_message L message c').1
       = match first with
         | [] => Throw (Crypto.ValueError "No signing key available")
         | _ => match Crypto.sign L message first with
                | Some signature => Return signature
                | None => Throw Crypto.LibraryError
                end
         end)
  ∧ (∀ message signature public_key c,
       Crypto.verify_signature L message signature public_key c
       = (Return (bool_decide (is_Some (Crypto.verify L message signature public_key))), c)).
Proof.
  split_and!.
  - done.
  - intros c first second c' message. unfold Crypto.generate_keys.
    destruct (Crypto.generate_keypair L _) as [[f s]|]; [|done].
    intros [= <- <- <-]. unfold Crypto.sign_message, mbind, Prog_bind, read. cbn.
    destruct f; [done|]. by destruct (Crypto.sign L message _).
  - intros message signature public_key c. unfold Crypto.verify_signature, try_bare.
    by destruct (Crypto.verify L message signature public_key).
Qed.

(** ** TorManager *)

Section TorFacts.

Context (os : Tor.OS).

Lemma find_first {A} (f : A → bool) l :
  match List.find f l with
  | Some x => ∃ before after, l = before ++ x :: after ∧ f x = true
                              ∧ Forall (λ y, f y = false) before
  | None => Forall (λ y, f y = false) l
  end.
Proof.
  induction l as [|y l IH]; cbn; [constructor|].
  destruct (f y) eqn:Hy.
  - exists [], l. split_and!; [done..|constructor].
  - destruct (List.find f l) as [x|].
    + destruct IH as (before & after & -> & Hx & Hb). exists (y :: before), after.
      split_and!; [done..|]. by constructor.
    + by constructor.
Qed.

Lemma find_app_l {A} (f : A → bool) l1 l2 :
  Exists (λ y, f y = true) l1 → List.find f (l1 ++ l2) = List.find f l1.
Proof.
  induction 1 as [y l1 Hy|y l1 _ IH]; cbn.
  - by rewrite Hy.
  - destruct (f y); [done|apply IH].
Qed.

Lemma find_elem {A} (f : A → bool) l x : List.find f l = Some x → x ∈ l.
Proof.
  intros Hf. pose proof (find_first f l) as H. rewrite Hf in H.
  destruct H as (before & after & -> & _). apply elem_of_app. right. by left.
Qed.

Lemma candidates_app l1 l2 :
  Tor.candidates os (l1 ++ l2) = Tor.candidates os l1 ++ Tor.candidates os l2.
Proof. unfold Tor.candidates. by rewrite bind_app. Qed.

End TorFacts.

Lemma find_first_iff {A} (f : A → bool) l x :
  List.find f l = Some x
  ↔ ∃ before after, l = before ++ x :: after ∧ f x = true ∧ Forall (λ y, f y = false) before.
Proof.
  split.
  - intros Hf. pose proof (find_first f l) as H. by rewrite Hf in H.
  - intros (before & after & -> & Hx & Hb). induction Hb as [|y before Hy _ IH]; cbn.
    + by rewrite Hx.
    + by rewrite Hy.
Qed.

Lemma find_none_iff {A} (f : A → bool) l :
  List.find f l = None ↔ Forall (λ y, f y = false) l.
Proof.
  split.
  - intros Hf. pose proof (find_first f l) as H. by rewrite Hf in H.
  - induction 1 as [|y l Hy _ IH]; cbn; [done|]. by rewrite Hy.
Qed.

(** [_get_tor_path] answers with the first candidate, in the order of the
    search (the four built-in directories, then the entries of [PATH]),
    that exists and is executable; it raises [FileNotFoundError] exactly
    when there is none.  In particular [PATH] cannot override a binary found
    in a built-in directory. *)
Theorem tor_path_is_first_usable os w :
  let k := Tor.lookups w in
  let base := Tor.base_dir (Tor.manager w) in
  let all := Tor.candidates os (Tor.search_paths os base) in
  (∀ p, (Tor._get_tor_path os w).1 = Return p ↔
        ∃ before after, all = before ++ p :: after ∧ Tor.usable os k p = true
                        ∧ Forall (λ q, Tor.usable os k q = false) before)
  ∧ (∀ e, (Tor._get_tor_path os w).1 = Throw e ↔
          e = Tor.not_found ∧ Forall (λ q, Tor.usable os k q = false) all)
  ∧ (Exists (λ q, Tor.usable os k q = true) (Tor.candidates os (Tor.builtin_paths os base)) →
     ∃ p, (Tor._get_tor_path os w).1 = Return p
          ∧ p ∈ Tor.candidates os (Tor.builtin_paths os base)).
Proof.
  intros k base all. unfold Tor._get_tor_path. fold k base all.
  split_and!.
  - intros p. rewrite <- find_first_iff. destruct (List.find _ all); cbn; [|done].
    split; congruence.
  - intros e. rewrite <- find_none_iff. destruct (List.find _ all); cbn.
    + split; [done|]. by intros [_ ?].
    + split; [by intros [= <-]|]. by intros [-> _].
  - intros Hex. subst all. unfold Tor.search_paths. rewrite candidates_app.
    rewrite find_app_l by done.
    destruct (List.find _ _) as [x|] eqn:Hx; cbn.
    + exists x. split; [done|]. by eapply find_elem.
    + apply find_none_iff in Hx. apply Exists_exists in Hex as (q & Hq & Hu).
      rewrite Forall_forall in Hx. rewrite (Hx q Hq) in Hu. done.
Qed.

Example tor_path_found :
  (Tor._get_tor_path (sim_os ["/opt/tor/bin/tor"; "/usr/local/bin/tor"] 0)
     (Tor.new_world (sim_os [] 0))).1
  = Return "/usr/local/bin/tor"%string
  ∧ (Tor._get_tor_path (sim_os ["/opt/tor/bin/tor"] 0) (Tor.new_world (sim_os [] 0))).1
    = Return "/opt/tor/bin/tor"%string
  ∧ (Tor._get_tor_path (sim_os ["/usr/sbin/tor"] 0) (Tor.new_world (sim_os [] 0))).1
    = Throw Tor.not_found.
Proof. split_and!; vm_compute; reflexivity. Qed.

Section TorLoops.

Context (os : Tor.OS).

Lemma check_alive_eq k w :
  Tor.check_alive os k w =
  match Tor.tor_process (Tor.manager w), Tor.poll os k with
  | Some _, Some _ => (Throw (tor_died os k), w)
  | _, _ => (Return tt, w)
  end.
Proof.
  unfold Tor.check_alive, tor_died, mbind, Prog_bind, read.
  destruct (Tor.tor_process _), (Tor.poll os k); try done.
  by destruct (Tor.stderr_read os k).
Qed.

Lemma check_hostname_eq k w :
  Tor.check_hostname os k w =
  if Tor.hostname_exists os k then
    match Tor.hostname_read os k with
    | Some text =>
        (Return (Tor.socks_open os k),
         Tor.with_manager (Tor.set_onion_address (Some (Tor.strip os text))) w)
    | None => (Return false, w)
    end
  else (Return false, w).
Proof.
  unfold Tor.check_hostname. destruct (Tor.hostname_exists os k); [|done].
  unfold try_bare, mbind, Prog_bind, update, throw.
  destruct (Tor.hostname_read os k); [|done]. cbn. by destruct (Tor.socks_open os k).
Qed.

Lemma wait_turns_spec turns : ∀ w r w',
  Tor.wait_turns os turns w = (r, w') →
  same_process w w'
  ∧ ∃ n : nat,
      Tor.trace w' = Tor.trace w ++ replicate n (Tor.EvSleep 1)
      ∧ match r with
        | Return true =>
            (n < turns)%nat ∧ Tor.ticks w' = S (Tor.ticks w + n)
            ∧ ∃ text, Tor.hostname_read os (Tor.ticks w + n) = Some text
                      ∧ Tor.socks_open os (Tor.ticks w + n) = true
                      ∧ Tor.onion_address (Tor.manager w') = Some (Tor.strip os text)
        | Return false => n = turns ∧ Tor.ticks w' = (Tor.ticks w + n)%nat
        | Throw e =>
            (n < turns)%nat ∧ is_Some (Tor.tor_process (Tor.manager w))
            ∧ is_Some (Tor.poll os (Tor.ticks w + n)) ∧ e = tor_died os (Tor.ticks w + n)
        end.
Proof.
  induction turns as [|turns IH]; intros w r w'.
  - cbn. intros [= <- <-]. split; [done|]. exists 0%nat. cbn. by rewrite app_nil_r, Nat.add_0_r.
  - cbn [Tor.wait_turns]. unfold mbind, Prog_bind at 1. unfold Tor.next_tick.
    unfold mbind, Prog_bind at 1. rewrite check_alive_eq. cbn [Tor.manager].
    destruct (Tor.tor_process (Tor.manager w)) as [proc|] eqn:Hproc;
      [destruct (Tor.poll os (Tor.ticks w)) as [code|] eqn:Hpoll|].
    { intros [= <- <-]. split; [done|]. exists 0%nat. cbn.
      rewrite app_nil_r, Nat.add_0_r, Hpoll. split_and!; try done; [lia|by eexists..]. }
    all: unfold mbind, Prog_bind at 1; rewrite check_hostname_eq.
    all: destruct (Tor.hostname_exists os (Tor.ticks w)) eqn:Hex;
      [destruct (Tor.hostname_read os (Tor.ticks w)) as [text|] eqn:Hread;
       [destruct (Tor.socks_open os (Tor.ticks w)) eqn:Hsocks|]|].
    all: try (intros [= <- <-]; split; [done|]; exists 0%nat; cbn;
              rewrite app_nil_r, Nat.add_0_r, ?Hread, ?Hsocks;
              split_and!; try done; try lia; by exists text).
    all: unfold mbind, Prog_bind at 1; unfold Tor.sleep, Tor.emit, update.
    all: intros Heq; apply IH in Heq as ([Hp [Hb [Hl Hs]]] & n & Htr & Hr); cbn in *.
    all: (split; [done|]); exists (S n); rewrite Htr, <- app_assoc; (split; [done|]).
    all: rewrite <- ?Nat.add_succ_comm in *; rewrite ?Hproc in *.
    all: destruct r as [[]|e]; cbn in *.
    all: repeat match goal with H : _ ∧ _ |- _ => destruct H end.
    all: split_and!; try done; try lia.
Qed.

End TorLoops.

(** [_wait_for_tor] makes at most 30 checks, one second apart.  It
    answers [True] only at a check where the hostname file was read and the
    SOCKS port accepted a connection, and [onion_address] is then the
    stripped text of the file; it answers [False] after 30 sleeps; it raises
    only when there is a process and [poll()] reports that it has exited. *)
Theorem wait_for_tor_outcomes os w r w' :
  Tor._wait_for_tor os w = (r, w') →
  Tor.tor_process (Tor.manager w') = Tor.tor_process (Tor.manager w)
  ∧ ∃ n : nat,
      Tor.trace w' = Tor.trace w ++ replicate n (Tor.EvSleep 1)
      ∧ match r with
        | Return true =>
            (n < 30)%nat
            ∧ ∃ text, Tor.hostname_read os (Tor.ticks w + n) = Some text
                      ∧ Tor.socks_open os (Tor.ticks w + n) = true
                      ∧ Tor.onion_address (Tor.manager w') = Some (Tor.strip os text)
        | Return false => n = 30%nat
        | Throw e =>
            (n < 30)%nat ∧ is_Some (Tor.tor_process (Tor.manager w))
            ∧ is_Some (Tor.poll os (Tor.ticks w + n))
            ∧ (e = Tor.OSError ∨ ∃ stderr, e = Tor.Exception ("Tor process died: " +:+ stderr))
        end.
Proof.
  intros Heq. apply wait_turns_spec in Heq as ((Hp & _) & n & Htr & Hr).
  split; [done|]. exists n. split; [done|]. destruct r as [[]|e].
  - destruct Hr as (? & _ & ?). done.
  - by destruct Hr.
  - destruct Hr as (? & ? & ? & ->). split_and!; try done.
    unfold tor_died. destruct (Tor.stderr_read os _); [right; by eexists|by left].
Qed.

Lemma wait_for_tor_outcomes_witness :
  let os := sim_os ["/usr/bin/tor"] 2 in
  let w := Tor.with_manager (Tor.set_tor_process (Some 0%nat)) (Tor.new_world os) in
  let w' := (Tor._wait_for_tor os w).2 in
  Tor.tor_process (Tor.manager w') = Some 0%nat
  ∧ ∃ n : nat,
      Tor.trace w' = Tor.trace w ++ replicate n (Tor.EvSleep 1)
      ∧ (n < 30)%nat
      ∧ ∃ text, Tor.hostname_read os (Tor.ticks w + n) = Some text
                ∧ Tor.socks_open os (Tor.ticks w + n) = true
                ∧ Tor.onion_address (Tor.manager w') = Some (Tor.strip os text).
Proof.
  intros os w w'. apply (wait_for_tor_outcomes os w (Return true) w').
  vm_compute. reflexivity.
Defined.

Example wait_for_tor_run :
  let os := sim_os ["/usr/bin/tor"] 2 in
  let w' := (Tor._wait_for_tor os (Tor.new_world os)).2 in
  Tor.onion_address (Tor.manager w') = Some "mesh0123.onion"%string
  ∧ Tor.trace w' = [Tor.EvSleep 1; Tor.EvSleep 1].
Proof. split; vm_compute; reflexivity. Qed.

Section TorStart.

Context (os : Tor.OS).

Lemma wait_turns_unready turns : ∀ w,
  (∀ j, (j < turns)%nat →
        Tor.poll os (Tor.ticks w + j) = None ∧ tor_ready os (Tor.ticks w + j) = false) →
  ∃ w', Tor.wait_turns os turns w = (Return false, w').
Proof.
  induction turns as [|turns IH]; intros w Hun; [by eexists|].
  cbn [Tor.wait_turns]. unfold mbind, Prog_bind at 1. unfold Tor.next_tick.
  unfold mbind, Prog_bind at 1. rewrite check_alive_eq. cbn [Tor.manager].
  destruct (Hun 0%nat ltac:(lia)) as [Hpoll Hready]. rewrite Nat.add_0_r in Hpoll, Hready.
  rewrite Hpoll.
  assert (Hnext : ∀ w1 : Tor.World, Tor.ticks w1 = S (Tor.ticks w) →
            ∃ w', Tor.wait_turns os turns w1 = (Return false, w')).
  { intros w1 Hw1. apply IH. intros j Hj. rewrite Hw1.
    replace (S (Tor.ticks w) + j)%nat with (Tor.ticks w + S j)%nat by lia.
    apply Hun. lia. }
  assert (Hturn : ∃ w', (Tor.check_hostname os (Tor.ticks w) ≫= λ ready : bool,
                           if ready then mret true
                           else Tor.sleep 1 ≫= λ _, Tor.wait_turns os turns)
                          {| Tor.manager := Tor.manager w; Tor.lookups := Tor.lookups w;
                             Tor.spawns := Tor.spawns w; Tor.ticks := S (Tor.ticks w);
                             Tor.trace := Tor.trace w |} = (Return false, w')).
  { unfold mbind, Prog_bind at 1. rewrite check_hostname_eq.
    unfold tor_ready in Hready.
    destruct (Tor.hostname_exists os (Tor.ticks w));
      [destruct (Tor.hostname_read os (Tor.ticks w)) as [text|];
       [destruct (Tor.socks_open os (Tor.ticks w))|]|].
    - by cbn in Hready.
    - unfold mbind, Prog_bind, Tor.sleep, Tor.emit, update. by apply Hnext.
    - unfold mbind, Prog_bind, Tor.sleep, Tor.emit, update. by apply Hnext.
    - unfold mbind, Prog_bind, Tor.sleep, Tor.emit, update. by apply Hnext. }
  by destruct (Tor.tor_process (Tor.manager w)).
Qed.

Lemma prepare_ok w :
  (∀ op, Tor.fs_ok os op = true) →
  Tor.prepare os w
  = (Return (Tor.join os (Tor.base_dir (Tor.manager w)) "torrc"),
     {| Tor.manager := Tor.manager w; Tor.lookups := Tor.lookups w;
        Tor.spawns := Tor.spawns w; Tor.ticks := Tor.ticks w;
        Tor.trace := Tor.trace w ++ prepared os (Tor.base_dir (Tor.manager w)) |}).
Proof.
  intros Hfs. unfold Tor.prepare, Tor.fs, mbind, Prog_bind, read, Tor.emit, update. cbn.
  repeat (rewrite Hfs; cbn; unfold mbind, Prog_bind).
  unfold Tor.log. cbn. by rewrite <- !app_assoc.
Qed.

Lemma prepare_throws w e w' : Tor.prepare os w = (Throw e, w') → e = Tor.OSError.
Proof.
  unfold Tor.prepare, Tor.fs, mbind, Prog_bind, read, Tor.emit, update, throw. cbn.
  unfold mbind, Prog_bind.
  repeat (match goal with |- context [Tor.fs_ok os ?op] => destruct (Tor.fs_ok os op) end;
          cbn; try (by intros [= <- _])).
Qed.

End TorStart.

Section TorStart2.

Context (os : Tor.OS).

Lemma start_attempt_unready torrc attempt w :
  Exists (λ q, Tor.usable os (Tor.lookups w) q = true)
    (Tor.candidates os (Tor.search_paths os (Tor.base_dir (Tor.manager w)))) →
  Tor.popen_ok os (Tor.spawns w) = true →
  (∀ j, (j < 30)%nat →
        Tor.poll os (Tor.ticks w + j) = None ∧ tor_ready os (Tor.ticks w + j) = false) →
  ∃ w' p, Tor.start_attempt os torrc attempt w = (Return false, w')
    ∧ Tor.tor_process (Tor.manager w') = Some (Tor.spawns w)
    ∧ Tor.base_dir (Tor.manager w') = Tor.base_dir (Tor.manager w)
    ∧ Tor.lookups w' = S (Tor.lookups w) ∧ Tor.spawns w' = S (Tor.spawns w)
    ∧ Tor.ticks w' = (Tor.ticks w + 30)%nat
    ∧ Tor.trace w'
      = Tor.trace w ++ Tor.EvPopen [p; "-f"%string; torrc] :: replicate 30 (Tor.EvSleep 1).
Proof.
  intros Hex Hpopen Hun.
  destruct (List.find (Tor.usable os (Tor.lookups w))
              (Tor.candidates os (Tor.search_paths os (Tor.base_dir (Tor.manager w)))))
    as [p|] eqn:Hfind.
  2:{ apply find_none_iff in Hfind. apply Exists_exists in Hex as (q & Hq & Hu).
      rewrite Forall_forall in Hfind. rewrite (Hfind q Hq) in Hu. done. }
  unfold Tor.start_attempt, try_bare. unfold mbind, Prog_bind at 1.
  unfold Tor._get_tor_path. rewrite Hfind. unfold mbind, Prog_bind at 1.
  unfold Tor.popen. cbn [Tor.spawns Tor.manager Tor.lookups Tor.ticks Tor.trace].
  rewrite Hpopen. unfold Tor._wait_for_tor.
  match goal with |- context [Tor.wait_turns os 30 ?w1] =>
    destruct (wait_turns_unready os 30 w1 Hun) as [w' Hw'];
    destruct (wait_turns_spec os 30 w1 _ _ Hw') as ((Hp & Hb & Hl & Hs) & n & Htr & -> & Ht)
  end.
  rewrite Hw'. exists w', p. cbn in *. split_and!; try done.
  by rewrite Htr, <- app_assoc.
Qed.

Lemma start_attempt_throws torrc attempt w e w' :
  Tor.start_attempt os torrc attempt w = (Throw e, w') →
  e = Tor.OSError ∨ e = Tor.start_failed.
Proof.
  unfold Tor.start_attempt, try_bare.
  match goal with |- context [match ?body w with _ => _ end] => destruct (body w) as [[b|e0] w1] end;
    [done|].
  unfold mbind, Prog_bind, read, Tor.terminate, Tor.sleep, Tor.emit, update, throw.
  destruct (Tor.tor_process (Tor.manager w1)) as [p|]; cbn.
  - destruct (Tor.terminate_ok os p); cbn; [|intros [= <- _]; by left].
    destruct (attempt <? Tor.max_retries - 1); [done|]. intros [= <- _]. by right.
  - destruct (attempt <? Tor.max_retries - 1); [done|]. intros [= <- _]. by right.
Qed.

Lemma start_attempts_throws torrc attempts : ∀ w e w',
  Tor.start_attempts os torrc attempts w = (Throw e, w') →
  e = Tor.OSError ∨ e = Tor.start_failed.
Proof.
  induction attempts as [|attempt rest IH]; intros w e w'; [done|].
  cbn [Tor.start_attempts]. unfold mbind, Prog_bind.
  destruct (Tor.start_attempt os torrc attempt w) as [[[]|e0] w1] eqn:Ha.
  - done.
  - apply IH.
  - intros [= <- <-]. by eapply start_attempt_throws.
Qed.

(** With no binary to be found and no process yet, an attempt ends in its
    handler without a process to terminate. *)
Lemma start_attempt_not_found torrc attempt w :
  Forall (λ q, Tor.usable os (Tor.lookups w) q = false)
    (Tor.candidates os (Tor.search_paths os (Tor.base_dir (Tor.manager w)))) →
  Tor.tor_process (Tor.manager w) = None →
  let w1 := {| Tor.manager := Tor.manager w; Tor.lookups := S (Tor.lookups w);
               Tor.spawns := Tor.spawns w; Tor.ticks := Tor.ticks w;
               Tor.trace := Tor.trace w |} in
  Tor.start_attempt os torrc attempt w =
  if attempt <? Tor.max_retries - 1
  then (Return false, Tor.log (Tor.EvSleep Tor.retry_delay) w1)
  else (Throw Tor.start_failed, w1).
Proof.
  intros Hnone%find_none_iff Hproc. unfold Tor.start_attempt, try_bare.
  unfold mbind, Prog_bind at 1. unfold Tor._get_tor_path. rewrite Hnone.
  unfold mbind, Prog_bind, read. cbn. rewrite Hproc. cbn.
  by destruct (attempt <? Tor.max_retries - 1).
Qed.

End TorStart2.

(** [start] can return without Tor being ready.  When the binary is found
    and spawned in each of the three attempts, the process stays alive and
    none of the 30 readiness checks of an attempt succeeds, [start] returns
    normally: it has spawned three processes and terminated none, and has
    slept 90 times one second; [tor_process] is the third process. *)
Theorem tor_start_gives_up_silently os w :
  (∀ op, Tor.fs_ok os op = true) →
  (∀ j, (j < 3)%nat →
        Exists (λ q, Tor.usable os (Tor.lookups w + j) q = true)
          (Tor.candidates os (Tor.search_paths os (Tor.base_dir (Tor.manager w))))) →
  (∀ j, (j < 3)%nat → Tor.popen_ok os (Tor.spawns w + j) = true) →
  (∀ j, (j < 90)%nat →
        Tor.poll os (Tor.ticks w + j) = None ∧ tor_ready os (Tor.ticks w + j) = false) →
  ∃ w' evs,
    Tor.start os w = (Return tt, w')
    ∧ Tor.trace w' = Tor.trace w ++ prepared os (Tor.base_dir (Tor.manager w)) ++ evs
    ∧ Tor.tor_process (Tor.manager w') = Some (Tor.spawns w + 2)%nat
    ∧ length (tor_spawned evs) = 3%nat
    ∧ tor_terminated evs = []
    ∧ tor_sleeps evs = replicate 90 1.
Proof.
  intros Hfs Hfind Hpopen Hun. unfold Tor.start, mbind, Prog_bind.
  rewrite prepare_ok by done.
  change (Z.of_nat <$> seq 0 (Z.to_nat Tor.max_retries)) with [0; 1; 2].
  set (torrc := Tor.join os _ _). cbn [Tor.start_attempts].
  unfold mbind, Prog_bind.
  match goal with |- context [Tor.start_attempt os torrc _ ?w0] =>
    destruct (start_attempt_unready os torrc 0 w0)
      as (w1 & p1 & -> & Hp1 & Hb1 & Hl1 & Hs1 & Ht1 & Htr1) end.
  { specialize (Hfind 0%nat ltac:(lia)). by rewrite Nat.add_0_r in Hfind. }
  { specialize (Hpopen 0%nat ltac:(lia)). by rewrite Nat.add_0_r in Hpopen. }
  { intros j Hj. apply Hun. lia. }
  cbn in Hp1, Hb1, Hl1, Hs1, Ht1, Htr1.
  destruct (start_attempt_unready os torrc 1 w1)
    as (w2 & p2 & -> & Hp2 & Hb2 & Hl2 & Hs2 & Ht2 & Htr2).
  { rewrite Hl1, Hb1. specialize (Hfind 1%nat ltac:(lia)). by rewrite Nat.add_1_r in Hfind. }
  { rewrite Hs1. specialize (Hpopen 1%nat ltac:(lia)). by rewrite Nat.add_1_r in Hpopen. }
  { intros j Hj. rewrite Ht1, <- Nat.add_assoc. apply Hun. lia. }
  destruct (start_attempt_unready os torrc 2 w2)
    as (w3 & p3 & -> & Hp3 & Hb3 & Hl3 & Hs3 & Ht3 & Htr3).
  { rewrite Hl2, Hl1, Hb2, Hb1. specialize (Hfind 2%nat ltac:(lia)).
    by replace (Tor.lookups w + 2)%nat with (S (S (Tor.lookups w))) in Hfind by lia. }
  { rewrite Hs2, Hs1. specialize (Hpopen 2%nat ltac:(lia)).
    by replace (Tor.spawns w + 2)%nat with (S (S (Tor.spawns w))) in Hpopen by lia. }
  { intros j Hj. rewrite Ht2, Ht1, <- !Nat.add_assoc. apply Hun. lia. }
  exists w3. eexists. split; [reflexivity|].
  rewrite Htr3, Htr2, Htr1, <- !app_assoc. split; [reflexivity|].
  rewrite Hp3, Hs2, Hs1. split; [f_equal; lia|].
  split_and!; vm_compute; reflexivity.
Qed.

Lemma tor_start_gives_up_silently_witness :
  let os := sim_os ["/usr/bin/tor"] 1000 in
  let w := Tor.new_world os in
  ∃ w' evs,
    Tor.start os w = (Return tt, w')
    ∧ Tor.trace w' = Tor.trace w ++ prepared os (Tor.base_dir (Tor.manager w)) ++ evs
    ∧ Tor.tor_process (Tor.manager w') = Some 2%nat
    ∧ length (tor_spawned evs) = 3%nat
    ∧ tor_terminated evs = []
    ∧ tor_sleeps evs = replicate 90 1.
Proof.
  intros os w. apply (tor_start_gives_up_silently os w).
  - intros op. reflexivity.
  - intros j _. apply Exists_cons_hd. reflexivity.
  - intros j _. reflexivity.
  - intros j Hj. split; [reflexivity|]. unfold tor_ready. cbn.
    rewrite bool_decide_eq_false_2 by lia. reflexivity.
Defined.

(** Whatever goes wrong in an attempt (no binary, [Popen] failing, the
    process dying), [start] does not pass it on: it raises either what the
    file system or [terminate()] raised, or, from the third attempt, the
    fixed [Exception] "Failed to start Tor after 3 attempts".  With no
    binary anywhere and no process yet, that is what it raises, after
    sleeping twice two seconds and without spawning anything. *)
Theorem tor_start_hides_the_cause os w :
  (∀ e w', Tor.start os w = (Throw e, w') → e = Tor.OSError ∨ e = Tor.start_failed)
  ∧ ((∀ op, Tor.fs_ok os op = true) →
     Tor.tor_process (Tor.manager w) = None →
     (∀ j, (j < 3)%nat →
           Forall (λ q, Tor.usable os (Tor.lookups w + j) q = false)
             (Tor.candidates os (Tor.search_paths os (Tor.base_dir (Tor.manager w))))) →
     ∃ w', Tor.start os w = (Throw Tor.start_failed, w')
       ∧ Tor.trace w' = Tor.trace w ++ prepared os (Tor.base_dir (Tor.manager w))
                        ++ [Tor.EvSleep 2; Tor.EvSleep 2]
       ∧ Tor.spawns w' = Tor.spawns w
       ∧ Tor.tor_process (Tor.manager w') = None).
Proof.
  split.
  - intros e w'. unfold Tor.start, mbind, Prog_bind.
    destruct (Tor.prepare os w) as [[torrc|e0] w0] eqn:Hprep.
    + apply start_attempts_throws.
    + intros [= <- _]. left. by eapply prepare_throws.
  - intros Hfs Hproc Hnone. unfold Tor.start, mbind, Prog_bind.
    rewrite prepare_ok by done.
    change (Z.of_nat <$> seq 0 (Z.to_nat Tor.max_retries)) with [0; 1; 2].
    cbn [Tor.start_attempts]. unfold mbind, Prog_bind.
    rewrite start_attempt_not_found;
      [|specialize (Hnone 0%nat ltac:(lia)); by rewrite Nat.add_0_r in Hnone|done].
    change (0 <? Tor.max_retries - 1) with true. cbv iota beta.
    rewrite start_attempt_not_found;
      [|specialize (Hnone 1%nat ltac:(lia)); by rewrite Nat.add_1_r in Hnone|done].
    change (1 <? Tor.max_retries - 1) with true. cbv iota beta.
    rewrite start_attempt_not_found;
      [|specialize (Hnone 2%nat ltac:(lia));
        by replace (Tor.lookups w + 2)%nat with (S (S (Tor.lookups w))) in Hnone by lia|done].
    change (2 <? Tor.max_retries - 1) with false. cbv iota beta.
    eexists. split; [reflexivity|]. cbn. by rewrite <- !app_assoc.
Qed.

(** [TorManager.stop] never raises and never forgets the process: it
    leaves [tor_process] as it was.  Without a process it does nothing.
    With one, it clears the onion address and goes on to the files on disk
    only if ending the process went through; otherwise the manager is left
    exactly as it was and the files are not touched. *)
Theorem tor_stop_is_best_effort os w :
  ∃ w' evs,
    Tor.stop os w = (Return tt, w')
    ∧ Tor.trace w' = Tor.trace w ++ evs
    ∧ Tor.tor_process (Tor.manager w') = Tor.tor_process (Tor.manager w)
    ∧ match Tor.tor_process (Tor.manager w) with
      | None => w' = w
      | Some p =>
          let base := Tor.base_dir (Tor.manager w) in
          Tor.EvTerminate p ∈ evs
          ∧ if stopped_cleanly os p
            then Tor.onion_address (Tor.manager w')
                 = match Tor.onion_address (Tor.manager w) with
                   | Some (String _ _) => None
                   | address => address
                   end
                 ∧ (Tor.EvWipeTree base ∈ evs ↔ Tor.dir_exists os base = true)
            else Tor.manager w' = Tor.manager w ∧ Tor.EvWipeTree base ∉ evs
      end.
Proof.
  unfold Tor.stop, stopped_cleanly, mbind, Prog_bind, read.
  destruct (Tor.tor_process (Tor.manager w)) as [p|] eqn:Hproc.
  2:{ exists w, []. by rewrite app_nil_r. }
  unfold try_bare, Tor.terminate, Tor.kill, Tor.emit, update, throw, mbind, Prog_bind.
  cbn.
  destruct (Tor.terminate_ok os p); cbn.
  2:{ eexists _, _. split; [reflexivity|]. cbn. split_and!; try done.
      - by apply list_elem_of_singleton.
      - by intros [=]%list_elem_of_singleton. }
  destruct (Tor.wait os p); [|destruct (Tor.kill_ok os p) eqn:Hkill|]; cbn.
  all: destruct (Tor.onion_address (Tor.manager w)) as [[|c a]|] eqn:Haddr; cbn.
  all: try destruct (Tor.dir_exists os (Tor.base_dir (Tor.manager w))) eqn:Hdir; cbn.
  all: try destruct (Tor.wipe_tree_ok os (Tor.base_dir (Tor.manager w))); cbn.
  all: eexists _, _; (split; [reflexivity|]); cbn; rewrite <- ?app_assoc; cbn.
  all: (split; [reflexivity|]); (split; [done|]).
  all: rewrite ?Haddr.
  all: split; [rewrite !elem_of_cons; by auto|].
  all: try (split; [done|]).
  all: rewrite ?elem_of_cons, ?elem_of_nil; try (split; intros; by auto).
  all: try (intros H; decompose [or] H; done).
  all: try (split; [by auto 6|done]).
  all: try (split; [intros H; decompose [or] H; done|done]).
Qed.

(** ** MeshChat *)

Section ChatFacts.

Context (E : Chat.Surroundings).

Lemma chat_cleanup_eq a :
  Chat.cleanup E a =
  match Memory.wipe_all (Chat.sodium_memzero E) (Chat.memory a) with
  | (Return _, m) =>
      (Return tt,
       {| Chat.tor := (Tor.stop (Chat.os E) (Chat.tor a)).2;
          Chat.mesh := exec (stop (Chat.net E)) (Chat.mesh a);
          Chat.memory := m; Chat.naps := Chat.naps a; Chat.probes := Chat.probes a |})
  | (Throw e, m) => (Throw (Chat.MemoryError e), Chat.with_memory (λ _, m) a)
  end.
Proof.
  unfold Chat.cleanup, mbind, Prog_bind at 1. unfold Chat.on_memory at 1.
  destruct (Memory.wipe_all _ _) as [[[]|e] m]; [|done].
  unfold mbind, Prog_bind, try_bare, Chat.on_tor, Chat.on_mesh, exec. cbn.
  destruct (Tor.stop (Chat.os E) (Chat.tor a)) as [[[]|e] t]; cbn;
    destruct (stop (Chat.net E) (Chat.mesh a)) as [[[]|e'] w]; done.
Qed.

Lemma stop_clears_running N w : is_running (self (exec (stop N) w)) = false.
Proof.
  unfold exec, stop, mbind, M_bind, gets, modify, runner_cleanup, dht_stop, raise, sleep, emit.
  cbn. by destruct (_http_runner (self w)), (runner_cleanup_ok N), (dht_stop_ok N).
Qed.

End ChatFacts.

(** [MeshChat.cleanup] wipes first and stops afterwards.  If [wipe_all]
    returns, [cleanup] returns whatever the two [stop()] calls do, and the
    mesh is no longer running.  If [wipe_all] raises, [cleanup] raises the
    same at once, and neither Tor nor the mesh has been stopped: both are
    exactly as they were. *)
Theorem chat_cleanup_wipes_then_stops E a :
  match Memory.wipe_all (Chat.sodium_memzero E) (Chat.memory a) with
  | (Return _, m) =>
      ∃ a', Chat.cleanup E a = (Return tt, a')
        ∧ Chat.memory a' = m
        ∧ Chat.tor a' = (Tor.stop (Chat.os E) (Chat.tor a)).2
        ∧ Chat.mesh a' = exec (stop (Chat.net E)) (Chat.mesh a)
        ∧ is_running (self (Chat.mesh a')) = false
  | (Throw e, m) =>
      ∃ a', Chat.cleanup E a = (Throw (Chat.MemoryError e), a')
        ∧ Chat.memory a' = m
        ∧ Chat.tor a' = Chat.tor a ∧ Chat.mesh a' = Chat.mesh a
  end.
Proof.
  rewrite chat_cleanup_eq. destruct (Memory.wipe_all _ _) as [[[]|e] m].
  - eexists. split; [reflexivity|]. cbn. split_and!; try done. apply stop_clears_running.
  - eexists. split; [reflexivity|]. done.
Qed.

Lemma start_ports_ok_running N offsets : ∀ w w',
  start_ports N offsets w = (Ok tt, w') → is_running (self w') = true.
Proof.
  induction offsets as [|o offsets IH]; intros w w'; [done|].
  cbn [start_ports]. unfold mbind, M_bind at 1, gets. cbn [fst snd].
  unfold mbind, M_bind at 1.
  destruct (try_port_spec N (base_port (self w) + o + 1) w) as (w1 & -> & _ & Hok).
  destruct (port_usable N _).
  - intros [= <-]. by apply Hok.
  - apply IH.
Qed.

Lemma start_ok_running N w w' : start N w = (Ok tt, w') → is_running (self w') = true.
Proof.
  unfold start. unfold mbind, M_bind at 1.
  destruct (_start_http_server N w) as [[b|e] w0]; [|done].
  unfold mbind, M_bind at 1, gets. cbn [fst snd]. apply start_ports_ok_running.
Qed.

Lemma op_keeps_running N o w :
  is_running (self (exec (op_action N o) w)) = is_running (self w).
Proof.
  destruct o as [message| | |]; cbn [op_action].
  - destruct (decide (hash N message ∈ known_messages (self w))) as [Hin|Hin].
    { unfold exec. by rewrite broadcast_message_known. }
    destruct (compressed N message) as [c|e] eqn:Hc.
    + destruct (broadcast_message_fresh N message c w Hin Hc)
        as (outs & w' & Heq & _ & Hself & _).
      unfold exec. rewrite Heq. cbn [snd]. by rewrite Hself.
    + unfold exec. by rewrite (broadcast_message_unencodable N message w e).
  - unfold exec. by rewrite peer_maintenance_cycle_eq.
  - by destruct (deliver_cycle_frame N w) as [b ->].
  - destruct (heartbeat_cycle_spec N w) as (ps' & w1 & evs & Heq & Hself & _).
    unfold exec. rewrite Heq. cbn. by rewrite Hself.
Qed.

Section ChatStart.

Context (E : Chat.Surroundings).

Lemma chat_quiet_refl a : chat_quiet a a.
Proof. by split. Qed.

Lemma chat_quiet_trans a1 a2 a3 : chat_quiet a1 a2 → chat_quiet a2 a3 → chat_quiet a1 a3.
Proof. intros [? ?] [? ?]. split; [congruence|by etrans]. Qed.

Lemma act_spec action a :
  ∃ a', Chat.act E action a = (Return tt, a')
    ∧ chat_quiet a a'
    ∧ is_running (self (Chat.mesh a')) = is_running (self (Chat.mesh a)).
Proof.
  destruct action as [msg|confirmed content|o]; cbn [Chat.act].
  - unfold Chat._send_message. destruct (String.eqb msg EmptyString).
    { exists a. split_and!; done. }
    unfold try_bare, Chat.on_mesh.
    pose proof (op_keeps_running (Chat.net E) (OpBroadcast msg) (Chat.mesh a)) as Hrun.
    unfold exec in Hrun. cbn [op_action] in Hrun.
    destruct (broadcast_message (Chat.net E) msg (Chat.mesh a)) as [[[]|e] w];
      (eexists; split; [reflexivity|]; split; [by split|done]).
  - unfold Chat._clear_chat. destruct confirmed.
    2:{ exists a. split_and!; done. }
    unfold try_bare, mbind, Prog_bind, Chat.on_memory. cbn.
    rewrite secure_wipe_eq. cbn.
    set (l := match Memory.remove _ _ _ with Some l' => _ | None => _ end).
    rewrite lookup_app_r by done. rewrite Nat.sub_diag. cbn.
    destruct (Chat.sodium_memzero E content) as [z|]; cbn.
    all: eexists; (split; [reflexivity|]); (split; [|done]); (split; [done|]); cbn.
    + subst l. destruct (Memory.remove _ _ _); cbn.
      all: rewrite insert_app_r_alt by done; by apply prefix_app_r.
    + subst l. destruct (Memory.remove _ _ _); cbn; by apply prefix_app_r.
  - unfold try_bare, Chat.on_mesh.
    pose proof (op_keeps_running (Chat.net E) o (Chat.mesh a)) as Hrun.
    unfold exec in Hrun.
    destruct (op_action (Chat.net E) o (Chat.mesh a)) as [[[]|e] w];
      (eexists; split; [reflexivity|]; split; [by split|done]).
Qed.

Lemma session_spec actions : ∀ a,
  ∃ a', each actions (Chat.act E) a = (Return tt, a')
    ∧ chat_quiet a a'
    ∧ is_running (self (Chat.mesh a')) = is_running (self (Chat.mesh a)).
Proof.
  induction actions as [|action actions IH]; intros a.
  - exists a. split_and!; done.
  - rewrite each_cons. destruct (act_spec action a) as (a1 & -> & Hq1 & Hr1).
    destruct (IH a1) as (a' & -> & Hq & Hr). exists a'. split; [done|].
    split; [by eapply chat_quiet_trans|congruence].
Qed.

(** One attempt at the mesh: [true] only with the mesh running. *)
Lemma start_mesh_attempt_spec attempt a r a' :
  Chat.start_mesh_attempt E attempt a = (r, a') →
  Chat.tor a' = Chat.tor a ∧ Chat.memory a' = Chat.memory a
  ∧ match r with
    | Return true => is_running (self (Chat.mesh a')) = true
    | Return false => (attempt < Chat.max_retries - 1)
    | Throw e => ¬ (attempt < Chat.max_retries - 1) ∧ ∃ msg, e = Chat.Exception msg
    end.
Proof.
  unfold Chat.start_mesh_attempt, Chat.try_Exception.
  unfold mbind, Prog_bind at 1. unfold Chat.on_mesh at 1.
  destruct (start (Chat.net E) (Chat.mesh a)) as [[[]|e] w] eqn:Hstart.
  - unfold mbind, Prog_bind, Chat._verify_network. cbn.
    destruct (Chat.health_port_open E (Chat.probes a)); cbn.
    + intros [= <- <-]. cbn. split_and!; try done. by eapply start_ok_running.
    + destruct (Z.ltb_spec attempt (Chat.max_retries - 1)); cbn.
      * intros [= <- <-]. done.
      * intros [= <- <-]. cbn. split_and!; try done; [lia|by eexists].
  - cbn. destruct (Z.ltb_spec attempt (Chat.max_retries - 1)); cbn.
    + intros [= <- <-]. done.
    + intros [= <- <-]. cbn. split_and!; try done; [lia|by eexists].
Qed.

(** The three attempts: [start_mesh] returns only with the mesh running. *)
Lemma start_mesh_spec a r a' :
  Chat.start_mesh E [0; 1; 2] a = (r, a') →
  Chat.tor a' = Chat.tor a ∧ Chat.memory a' = Chat.memory a
  ∧ match r with
    | Return _ => is_running (self (Chat.mesh a')) = true
    | Throw e => ∃ msg, e = Chat.Exception msg
    end.
Proof.
  cbn [Chat.start_mesh]. unfold mbind, Prog_bind.
  destruct (Chat.start_mesh_attempt E 0 a) as [[[]|e] a1] eqn:H0;
    apply start_mesh_attempt_spec in H0 as (Ht0 & Hm0 & Hr0).
  { intros [= <- <-]. done. }
  2:{ intros [= <- <-]. split_and!; try done. by destruct Hr0. }
  destruct (Chat.start_mesh_attempt E 1 a1) as [[[]|e] a2] eqn:H1;
    apply start_mesh_attempt_spec in H1 as (Ht1 & Hm1 & Hr1).
  { intros [= <- <-]. split_and!; congruence. }
  2:{ intros [= <- <-]. split_and!; try congruence. by destruct Hr1. }
  destruct (Chat.start_mesh_attempt E 2 a2) as [[[]|e] a3] eqn:H2;
    apply start_mesh_attempt_spec in H2 as (Ht2 & Hm2 & Hr2).
  - intros [= <- <-]. split_and!; congruence.
  - unfold Chat.max_retries in Hr2. lia.
  - intros [= <- <-]. split_and!; try congruence. by destruct Hr2.
Qed.

End ChatStart.

Section ChatStart2.

Context (E : Chat.Surroundings).

Lemma chat_body_spec a r a' :
  (Chat.on_tor (Tor.start (Chat.os E))
     ≫= λ _, Chat.start_mesh E (Z.of_nat <$> seq 0 (Z.to_nat Chat.max_retries))
     ≫= λ _, Chat.window_run E) a = (r, a') →
  match r with
  | Return _ =>
      Chat.tor a' = (Tor.start (Chat.os E) (Chat.tor a)).2
      ∧ is_running (self (Chat.mesh a')) = true
      ∧ Memory.arrays (Chat.memory a) `prefix_of` Memory.arrays (Chat.memory a')
  | Throw e => Chat.is_Exception e = true
  end.
Proof.
  change (Z.of_nat <$> seq 0 (Z.to_nat Chat.max_retries)) with [0; 1; 2].
  unfold mbind, Prog_bind at 1. unfold Chat.on_tor at 1.
  destruct (Tor.start (Chat.os E) (Chat.tor a)) as [[[]|e] t] eqn:Htor; cbn [snd].
  2:{ by intros [= <- <-]. }
  unfold mbind, Prog_bind at 1.
  destruct (Chat.start_mesh E [0; 1; 2] _) as [[[]|e] a2] eqn:Hmesh;
    apply start_mesh_spec in Hmesh as (Ht & Hm & Hr); cbn in Ht, Hm.
  2:{ intros [= <- <-]. by destruct Hr as [msg ->]. }
  unfold Chat.window_run. destruct (Chat.display E); [|by intros [= <- <-]].
  destruct (session_spec E (Chat.session E) a2) as (a3 & -> & [Hq Hp] & Hrun).
  intros [= <- <-]. split_and!; [congruence|congruence|by rewrite <- Hm].
Qed.

End ChatStart2.

(** When [MeshChat.start] returns, which it does when the window has been
    closed, nothing has been cleaned up: Tor is as [TorManager.start] left
    it, the mesh is still running, and every bytearray that existed holds
    what it held. *)
Theorem chat_normal_exit_skips_cleanup E a a' :
  Chat.start E a = (Return tt, a') →
  Chat.tor a' = (Tor.start (Chat.os E) (Chat.tor a)).2
  ∧ is_running (self (Chat.mesh a')) = true
  ∧ Memory.arrays (Chat.memory a) `prefix_of` Memory.arrays (Chat.memory a').
Proof.
  unfold Chat.start, Chat.try_Exception.
  match goal with |- context [match ?body a with _ => _ end] =>
    destruct (body a) as [[[]|e] a1] eqn:Hbody end.
  - intros [= <-]. by apply chat_body_spec in Hbody.
  - destruct (Chat.is_Exception e); [|done].
    unfold mbind, Prog_bind. by destruct (Chat.cleanup E a1) as [[[]|e'] a2].
Qed.

Lemma chat_normal_exit_skips_cleanup_witness :
  let E := sim_chat (sim_os ["/usr/bin/tor"] 0) (env_up 0) true
             [Chat.Send "hello"; Chat.ClearChat true (String.list_byte_of_string "You: hello");
              Chat.Background OpHeartbeat] in
  let a := Chat.new E in
  let a' := (Chat.start E a).2 in
  Chat.tor a' = (Tor.start (Chat.os E) (Chat.tor a)).2
  ∧ is_running (self (Chat.mesh a')) = true
  ∧ Memory.arrays (Chat.memory a) `prefix_of` Memory.arrays (Chat.memory a').
Proof.
  intros E a a'. apply (chat_normal_exit_skips_cleanup E a a').
  assert (H1 : (Chat.start E a).1 = Return tt) by (vm_compute; reflexivity).
  subst a'. destruct (Chat.start E a) as [r a']. cbn in H1. by rewrite H1.
Defined.

(** When [MeshChat.start] does not return, it has run [cleanup]: either
    [cleanup] returned and [start] leaves with [SystemExit(1)] and the mesh
    not running, or what leaves [start] is what [wipe_all] raised. *)
Theorem chat_start_failure_exits E a e a' :
  Chat.start E a = (Throw e, a') →
  (e = Chat.SystemExit 1 ∧ is_running (self (Chat.mesh a')) = false)
  ∨ (∃ m, e = Chat.MemoryError m).
Proof.
  unfold Chat.start, Chat.try_Exception.
  match goal with |- context [match ?body a with _ => _ end] =>
    destruct (body a) as [[[]|e0] a1] eqn:Hbody end; [done|].
  apply chat_body_spec in Hbody. rewrite Hbody.
  unfold mbind, Prog_bind. rewrite chat_cleanup_eq.
  destruct (Memory.wipe_all _ _) as [[[]|m] mem].
  - intros [= <- <-]. left. split; [done|]. apply stop_clears_running.
  - intros [= <- <-]. right. by eexists.
Qed.

Lemma chat_start_failure_exits_witness :
  let E := sim_chat (sim_os [] 0) (env_up 0) true [] in
  let a := Chat.new E in
  let a' := (Chat.start E a).2 in
  (Chat.SystemExit 1 = Chat.SystemExit 1 ∧ is_running (self (Chat.mesh a')) = false)
  ∨ (∃ m, Chat.SystemExit 1 = Chat.MemoryError m).
Proof.
  intros E a a'. apply (chat_start_failure_exits E a (Chat.SystemExit 1) a').
  assert (H1 : (Chat.start E a).1 = Throw (Chat.SystemExit 1)) by (vm_compute; reflexivity).
  subst a'. destruct (Chat.start E a) as [r a']. cbn in H1. by rewrite H1.
Defined.

Lemma mesh_start_exhausted N w :
  (∀ p, port_usable N p = false) →
  (http_setup_ok N = true ∨ runner_cleanup_ok N = true) →
  ∃ e w', start N w = (Raise e, w').
Proof.
  intros Hnone Hhttp. unfold start. unfold mbind, M_bind at 1.
  assert (∃ b w0, _start_http_server N w = (Ok b, w0)) as (b & w0 & ->).
  { unfold _start_http_server, mbind, M_bind, gets, modify, try_except, raise,
      runner_cleanup. cbn.
    destruct (_http_runner (self w)); [by eexists _, _|].
    destruct (http_setup_ok N); [by eexists _, _|]. cbn.
    destruct (runner_cleanup_ok N); [by eexists _, _|]. by destruct Hhttp. }
  unfold mbind, M_bind at 1, gets. cbn [fst snd].
  destruct (start_ports_exhausted N (Z.of_nat <$> seq 0 (Z.to_nat (max_retry_ports (self w0)))) w0)
    as (w' & ->); [|by eexists _, _].
  apply Forall_forall. intros o _. apply Hnone.
Qed.

Section ChatRetry.

Context (E : Chat.Surroundings).

Lemma start_mesh_attempt_failing attempt a :
  (∀ w, ∃ e w', start (Chat.net E) w = (Raise e, w')) →
  ∃ e w',
    start (Chat.net E) (Chat.mesh a) = (Raise e, w')
    ∧ Chat.start_mesh_attempt E attempt a =
      if attempt <? Chat.max_retries - 1
      then (Return false,
            {| Chat.tor := Chat.tor a; Chat.mesh := w'; Chat.memory := Chat.memory a;
               Chat.naps := Chat.naps a ++ [Chat.retry_delay]; Chat.probes := Chat.probes a |})
      else (Throw (Chat.Exception ("Failed to start mesh network after "
                                   +:+ pretty Chat.max_retries +:+ " attempts: "
                                   +:+ Chat.str E (Chat.MeshError e))),
            Chat.with_mesh (λ _, w') a).
Proof.
  intros Hfail. destruct (Hfail (Chat.mesh a)) as (e & w' & Hstart). exists e, w'.
  split; [done|]. unfold Chat.start_mesh_attempt, Chat.try_Exception.
  unfold mbind, Prog_bind at 1. unfold Chat.on_mesh at 1. rewrite Hstart. cbn.
  by destruct (attempt <? Chat.max_retries - 1).
Qed.

End ChatRetry.

(** With Tor started but no port to be had for the mesh, [MeshChat.start]
    tries the mesh three times, sleeping two seconds after the first and the
    second failure, never reaches the health-check probe, cleans up and
    leaves with [SystemExit(1)]: the mesh is not running and no block is
    tracked any more. *)
Theorem chat_gives_up_after_three_mesh_starts E a t :
  Tor.start (Chat.os E) (Chat.tor a) = (Return tt, t) →
  (∀ p, port_usable (Chat.net E) p = false) →
  http_setup_ok (Chat.net E) = true ∨ runner_cleanup_ok (Chat.net E) = true →
  zeroes (Chat.sodium_memzero E) →
  Forall (λ r, is_Some (Memory.arrays (Chat.memory a) !! r))
    (Memory.protected_blocks (Chat.memory a)) →
  ∃ a', Chat.start E a = (Throw (Chat.SystemExit 1), a')
    ∧ Chat.naps a' = Chat.naps a ++ [2; 2]
    ∧ Chat.probes a' = Chat.probes a
    ∧ is_running (self (Chat.mesh a')) = false
    ∧ Memory.protected_blocks (Chat.memory a') = [].
Proof.
  intros Htor Hnone Hhttp Hz Hvalid.
  assert (Hfail : ∀ w, ∃ e w', start (Chat.net E) w = (Raise e, w'))
    by (intros w; by apply mesh_start_exhausted).
  unfold Chat.start, Chat.try_Exception.
  match goal with |- context [match ?body a with _ => _ end] =>
    assert (∃ msg w2, body a
              = (Throw (Chat.Exception msg),
                 {| Chat.tor := t; Chat.mesh := w2; Chat.memory := Chat.memory a;
                    Chat.naps := (Chat.naps a ++ [Chat.retry_delay]) ++ [Chat.retry_delay];
                    Chat.probes := Chat.probes a |})) as (msg & w2 & ->) end.
  { change (Z.of_nat <$> seq 0 (Z.to_nat Chat.max_retries)) with [0; 1; 2].
    unfold mbind, Prog_bind at 1. unfold Chat.on_tor at 1. rewrite Htor.
    unfold mbind, Prog_bind at 1. cbn [Chat.start_mesh]. unfold mbind, Prog_bind at 1.
    destruct (start_mesh_attempt_failing E 0 (Chat.with_tor (λ _, t) a) Hfail)
      as (e0 & w0 & _ & ->).
    change (0 <? Chat.max_retries - 1) with true. cbv iota beta.
    unfold mbind, Prog_bind at 1.
    match goal with |- context [Chat.start_mesh_attempt E 1 ?a1] =>
      destruct (start_mesh_attempt_failing E 1 a1 Hfail) as (e1 & w1 & _ & ->) end.
    change (1 <? Chat.max_retries - 1) with true. cbv iota beta.
    unfold mbind, Prog_bind at 1.
    match goal with |- context [Chat.start_mesh_attempt E 2 ?a2] =>
      destruct (start_mesh_attempt_failing E 2 a2 Hfail) as (e2 & w2 & _ & ->) end.
    change (2 <? Chat.max_retries - 1) with false. cbv iota beta.
    by eexists _, _. }
  cbn [Chat.is_Exception]. unfold mbind, Prog_bind. rewrite chat_cleanup_eq.
  cbn [Chat.memory Chat.with_mesh Chat.with_tor Chat.tor Chat.mesh Chat.naps Chat.probes].
  destruct (wipe_each_spec (Chat.sodium_memzero E) (Memory.protected_blocks (Chat.memory a))
              Hz (Chat.memory a) eq_refl Hvalid) as (m' & Hwipe & Hnil & _).
  unfold Memory.wipe_all, mbind, Prog_bind, read. rewrite Hwipe.
  eexists. split; [reflexivity|]. cbn. split_and!; try done.
  - by rewrite <- app_assoc.
  - apply stop_clears_running.
Qed.

Lemma chat_gives_up_after_three_mesh_starts_witness :
  let E := sim_chat (sim_os ["/usr/bin/tor"] 0) env_no_port true [] in
  let a := Chat.new E in
  ∃ a', Chat.start E a = (Throw (Chat.SystemExit 1), a')
    ∧ Chat.naps a' = Chat.naps a ++ [2; 2]
    ∧ Chat.probes a' = Chat.probes a
    ∧ is_running (self (Chat.mesh a')) = false
    ∧ Memory.protected_blocks (Chat.memory a') = [].
Proof.
  intros E a.
  assert (H1 : (Tor.start (Chat.os E) (Chat.tor a)).1 = Return tt) by (vm_compute; reflexivity).
  apply (chat_gives_up_after_three_mesh_starts E a (Tor.start (Chat.os E) (Chat.tor a)).2).
  - destruct (Tor.start (Chat.os E) (Chat.tor a)) as [r t]. cbn in H1. by rewrite H1.
  - intros p. reflexivity.
  - right. reflexivity.
  - intros b. reflexivity.
  - constructor.
Defined.

Lemma act_keeps_known E action a h :
  h ∈ known_messages (self (Chat.mesh a)) →
  h ∈ known_messages (self (Chat.mesh (Chat.act E action a).2)).
Proof.
  intros Hh. destruct action as [msg|confirmed content|o]; cbn [Chat.act].
  - unfold Chat._send_message. destruct (String.eqb msg EmptyString); [done|].
    unfold try_bare, Chat.on_mesh.
    pose proof (op_known_mono (Chat.net E) (OpBroadcast msg) (Chat.mesh a)) as Hmono.
    unfold exec in Hmono. cbn [op_action] in Hmono.
    destruct (broadcast_message (Chat.net E) msg (Chat.mesh a)) as [[[]|e] w]; cbn in *;
      by apply Hmono.
  - destruct (act_spec E (Chat.ClearChat confirmed content) a) as (a' & Heq & _ & _).
    cbn [Chat.act] in Heq. unfold Chat._clear_chat in *. destruct confirmed; [|done].
    unfold try_bare, mbind, Prog_bind, Chat.on_memory in *. cbn in *.
    destruct (Memory.secure_wipe _ _ _) as [[[]|e] m]; done.
  - unfold try_bare, Chat.on_mesh.
    pose proof (op_known_mono (Chat.net E) o (Chat.mesh a)) as Hmono. unfold exec in Hmono.
    destruct (op_action (Chat.net E) o (Chat.mesh a)) as [[[]|e] w]; cbn in *; by apply Hmono.
Qed.

Lemma session_keeps_known E actions h : ∀ a,
  h ∈ known_messages (self (Chat.mesh a)) →
  h ∈ known_messages (self (Chat.mesh (each actions (Chat.act E) a).2)).
Proof.
  induction actions as [|action actions IH]; intros a Hh; [done|].
  rewrite each_cons. destruct (act_spec E action a) as (a1 & Heq & _).
  pose proof (act_keeps_known E action a h Hh) as H1. rewrite Heq in *. by apply IH.
Qed.

(** The window cannot send the same text twice.  Once a text has been
    handed to the Send button, whatever happened to that broadcast and
    whatever was done in the window since, sending the same text again
    leaves the mesh, and everything else, exactly as it is: no peer is
    contacted and nothing is buffered. *)
Theorem repeated_text_is_not_sent_again E msg actions a :
  let a1 := (each (Chat.Send msg :: actions) (Chat.act E) a).2 in
  Chat.act E (Chat.Send msg) a1 = (Return tt, a1).
Proof.
  intros a1. cbn [Chat.act]. unfold Chat._send_message.
  destruct (String.eqb msg EmptyString) eqn:Hmsg; [done|].
  assert (Hknown : hash (Chat.net E) msg ∈ known_messages (self (Chat.mesh a1))).
  { subst a1. rewrite each_cons. destruct (act_spec E (Chat.Send msg) a) as (a0 & Heq & _).
    rewrite Heq. apply session_keeps_known.
    cbn [Chat.act] in Heq. unfold Chat._send_message in Heq. rewrite Hmsg in Heq.
    unfold try_bare, Chat.on_mesh in Heq.
    pose proof (broadcast_remembers (Chat.net E) msg (Chat.mesh a)) as Hrem.
    unfold exec in Hrem.
    destruct (broadcast_message (Chat.net E) msg (Chat.mesh a)) as [[[]|e] w];
      injection Heq as <-; exact Hrem. }
  unfold try_bare, Chat.on_mesh. rewrite broadcast_message_known by done.
  by destruct a1.
Qed.
